(** * Session discovery, parsing, naming and search of claude-session-manager

    A shallow embedding of [src/historyParser.ts] (class [HistoryParser]) and
    theorems about it.

    Modelling conventions.
    - A JavaScript string is the list of its code units.  Code units are
      taken in the Latin-1 range (one [ascii] each), where [toLowerCase]
      keeps the length and [trim] strips the code units 9-13, 32 and 160.
    - Numbers that count things ([maxSessions], [maxResults], lengths) are
      [nat]; numbers the source subtracts from ([indexOf] results, slice
      bounds, timestamps in milliseconds) are [Z].
    - A [Date] is its time value, absent for an Invalid Date; a number
      computed from dates is absent where the source gets [NaN].
    - A statement that throws inside a [try] leaves the effects of the
      statements before it and skips the ones after it.
    - The filesystem is an explicit read-only value; an [fs] call that can
      throw returns a [result]. *)

From Stdlib Require Import List Arith Lia Bool ZArith Ascii.
From Stdlib Require String.
Import String.StringSyntax.
Delimit Scope string_scope with string.
From Stdlib Require Import Sorting.Sorted Sorting.Permutation.
From Equations Require Import Equations.
Import ListNotations.

(* ===================================================================== *)
(** * 1. JavaScript string primitives *)
(* ===================================================================== *)

Definition str : Type := list ascii.

Definition lit (s : String.string) : str := String.list_ascii_of_string s.
Arguments lit s%_string.

Fixpoint str_eqb (a b : str) : bool :=
  match a, b with
  | [], [] => true
  | x :: a', y :: b' => Ascii.eqb x y && str_eqb a' b'
  | _, _ => false
  end.

(** [s.startsWith(p)] *)
Fixpoint startsWith (s p : str) : bool :=
  match p, s with
  | [], _ => true
  | y :: p', x :: s' => Ascii.eqb x y && startsWith s' p'
  | _ :: _, [] => false
  end.

(** [s.endsWith(p)] *)
Definition endsWith (s p : str) : bool := startsWith (rev s) (rev p).

(** [s.indexOf(needle)]: the least index at which [needle] occurs, -1 when
    there is none.  [indexOf_from k] scans the suffix that starts at
    index [k]. *)
Fixpoint indexOf_from (k : Z) (s needle : str) : Z :=
  if startsWith s needle then k
  else match s with
       | [] => (-1)%Z
       | _ :: s' => indexOf_from (k + 1)%Z s' needle
       end.

Definition indexOf (s needle : str) : Z := indexOf_from 0%Z s needle.

(** [s.includes(needle)] *)
Fixpoint includes (s needle : str) : bool :=
  startsWith s needle ||
  match s with
  | [] => false
  | _ :: s' => includes s' needle
  end.

(** [s.slice(start, end)], negative bounds counting from the end. *)
Definition slice_bound (len i : Z) : Z :=
  if (i <? 0)%Z then Z.max (len + i) 0 else Z.min i len.

Definition slice (s : str) (start stop : Z) : str :=
  let len := Z.of_nat (length s) in
  let from := slice_bound len start in
  let to := slice_bound len stop in
  firstn (Z.to_nat (to - from)) (skipn (Z.to_nat from) s).

(** [s.toLowerCase()] on Latin-1 code units. *)
Definition lowerCodeUnit (c : ascii) : ascii :=
  let n := nat_of_ascii c in
  if ((65 <=? n) && (n <=? 90)) ||
     ((192 <=? n) && (n <=? 222) && negb (n =? 215))
  then ascii_of_nat (n + 32) else c.

Definition toLowerCase (s : str) : str := map lowerCodeUnit s.

(** White space of [String.prototype.trim] in the Latin-1 range. *)
Definition isWhiteSpace (c : ascii) : bool :=
  let n := nat_of_ascii c in
  ((9 <=? n) && (n <=? 13)) || (n =? 32) || (n =? 160).

Fixpoint trimStart (s : str) : str :=
  match s with
  | c :: s' => if isWhiteSpace c then trimStart s' else s
  | [] => []
  end.

Definition trimEnd (s : str) : str := rev (trimStart (rev s)).

Definition trim (s : str) : str := trimEnd (trimStart s).

(** [s.split(c)] for a one-character separator: never the empty list. *)
Fixpoint split (c : ascii) (s : str) : list str :=
  match s with
  | [] => [[]]
  | x :: s' =>
      if Ascii.eqb x c then [] :: split c s'
      else match split c s' with
           | [] => [[x]]
           | w :: ws => (x :: w) :: ws
           end
  end.

(** [xs.join(sep)] *)
Fixpoint join (sep : str) (xs : list str) : str :=
  match xs with
  | [] => []
  | [x] => x
  | x :: xs' => x ++ sep ++ join sep xs'
  end.

(** [s.replace(pattern, '')] for a string pattern: the first occurrence of
    [pattern] is removed. *)
Fixpoint removeFirst (s pattern : str) : str :=
  if startsWith s pattern then skipn (length pattern) s
  else match s with
       | [] => []
       | x :: s' => x :: removeFirst s' pattern
       end.

(** JavaScript truthiness of a [string | null | undefined] value. *)
Definition truthy (v : option str) : bool :=
  match v with
  | Some (_ :: _) => true
  | _ => false
  end.

(* ===================================================================== *)
(** * 2. Node's POSIX [path] module *)
(* ===================================================================== *)

Definition slash : ascii := "/"%char.
Definition dash : ascii := "-"%char.
Definition dot : str := lit ".".
Definition dotdot : str := lit "..".
Definition root : str := lit "/".

(** [normalizeString]: the segments that survive resolving [.] and [..];
    [acc] holds the kept segments, last one first. *)
Fixpoint normalizeSegments (allowAboveRoot : bool) (acc segs : list str)
  : list str :=
  match segs with
  | [] => rev acc
  | seg :: segs' =>
      if str_eqb seg [] || str_eqb seg dot then
        normalizeSegments allowAboveRoot acc segs'
      else if str_eqb seg dotdot then
        match acc with
        | top :: acc' =>
            if str_eqb top dotdot
            then normalizeSegments allowAboveRoot
                   (if allowAboveRoot then dotdot :: acc else acc) segs'
            else normalizeSegments allowAboveRoot acc' segs'
        | [] =>
            normalizeSegments allowAboveRoot
              (if allowAboveRoot then [dotdot] else []) segs'
        end
      else normalizeSegments allowAboveRoot (seg :: acc) segs'
  end.

(** [path.normalize(p)] *)
Definition path_normalize (p : str) : str :=
  match p with
  | [] => dot
  | c :: _ =>
      let isAbsolute := Ascii.eqb c slash in
      let trailingSeparator := endsWith p [slash] in
      let body :=
        join [slash] (normalizeSegments (negb isAbsolute) [] (split slash p)) in
      match body with
      | [] => if isAbsolute then root
              else if trailingSeparator then lit "./" else dot
      | _ :: _ =>
          let body' := if trailingSeparator then body ++ [slash] else body in
          if isAbsolute then slash :: body' else body'
      end
  end.

(** [path.join(...args)]: empty arguments are skipped, the rest is joined
    with [/] and normalized. *)
Definition path_joinAll (args : list str) : str :=
  match filter (fun a => negb (str_eqb a [])) args with
  | [] => dot
  | kept => path_normalize (join [slash] kept)
  end.

Definition path_join (a b : str) : str := path_joinAll [a; b].

Fixpoint dropSlashes (r : str) : str :=
  match r with
  | c :: r' => if Ascii.eqb c slash then dropSlashes r' else r
  | [] => []
  end.

Fixpoint dropName (r : str) : str :=
  match r with
  | c :: r' => if Ascii.eqb c slash then r else dropName r'
  | [] => []
  end.

Fixpoint takeName (r : str) : str :=
  match r with
  | c :: r' => if Ascii.eqb c slash then [] else c :: takeName r'
  | [] => []
  end.

(** [path.dirname(p)]: the backwards scan stops above index 0. *)
Definition path_dirname (p : str) : str :=
  match p with
  | [] => dot
  | c :: rest =>
      let hasRoot := Ascii.eqb c slash in
      match dropName (dropSlashes (rev rest)) with
      | [] => if hasRoot then root else dot
      | _ :: before =>
          (* the separator found sits at index [1 + length before] *)
          if hasRoot && (length before =? 0) then lit "//"
          else c :: rev before
      end
  end.

(** [path.basename(p)] *)
Definition path_basename (p : str) : str :=
  rev (takeName (dropSlashes (rev p))).

Example path_join_root : path_join root (lit "Users") = lit "/Users".
Proof. reflexivity. Qed.

Example path_join_empty : path_join (lit "/Users") [] = lit "/Users".
Proof. reflexivity. Qed.

Example path_join_dotdot : path_join (lit "/a/b") dotdot = lit "/a".
Proof. reflexivity. Qed.

Example path_join_above_root : path_join root dotdot = root.
Proof. reflexivity. Qed.

Example path_dirname_two : path_dirname (lit "/a/b") = lit "/a".
Proof. reflexivity. Qed.

Example path_dirname_one : path_dirname (lit "/a") = root.
Proof. reflexivity. Qed.

Example path_dirname_double : path_dirname (lit "/a//b") = lit "/a/".
Proof. reflexivity. Qed.

Example path_basename_two : path_basename (lit "/a/b-c") = lit "b-c".
Proof. reflexivity. Qed.

Example path_basename_trailing : path_basename (lit "/a/b/") = lit "b".
Proof. reflexivity. Qed.

(* ===================================================================== *)
(** * 3. The host: filesystem, JSON and clock *)
(* ===================================================================== *)

(** Outcome of a call that may throw. *)
Inductive result (A : Type) : Type :=
| Ok (a : A)
| Throw.
Arguments Ok {A} a.
Arguments Throw {A}.

Definition bind {A B : Type} (r : result A) (k : A -> result B) : result B :=
  match r with
  | Ok a => k a
  | Throw => Throw
  end.

Notation "x <- r ;; k" := (bind r (fun x => k))
  (at level 61, r at next level, right associativity).

(** A [Date] object: its time value in milliseconds, [None] for an Invalid
    Date, whose time value is [NaN]. *)
Definition Date : Type := option Z.

(** [a < b] on dates or numbers: false as soon as one side is [NaN]. *)
Definition date_ltb (a b : Date) : bool :=
  match a, b with
  | Some x, Some y => (x <? y)%Z
  | _, _ => false
  end.

(** [fs.Stats]: the three fields the parser reads; times in milliseconds
    (the dates the filesystem reports are valid). *)
Record Stats : Type := mkStats {
  size : nat;
  birthtime : Z;
  mtime : Z
}.

(** [fs.Dirent] *)
Record Dirent : Type := mkDirent {
  d_name : str;
  d_isDirectory : bool
}.

Record ContentBlock : Type := mkBlock {
  b_type : str;
  b_text : option str;
  b_name : option str;
  b_input : option str
}.

(** [message.content]: a string, an array of blocks, or anything else.  An
    element of the array is [None] where the JSON array holds [null], the
    one value on which reading a property throws. *)
Inductive Content : Type :=
| CString (s : str)
| CBlocks (bs : list (option ContentBlock))
| COther.

Record Message : Type := mkMessage {
  m_role : str;
  m_content : Content
}.

(** [SessionEntry]: one parsed line; every field may be missing. *)
Record SessionEntry : Type := mkEntry {
  e_type : str;
  e_summary : option str;
  e_timestamp : option str;
  e_cwd : option str;
  e_message : option Message;
  e_isSidechain : bool
}.

(** What the parser is run against.  [JSON_parse] is [None] where
    [JSON.parse] throws (or yields [null]); [Date_parse] is [new Date(s)],
    an Invalid Date where [s] is not a date; [now] is the time value of
    [new Date()]. *)
Record Host : Type := mkHost {
  existsSync : str -> bool;
  readdir : str -> result (list Dirent);
  statSync : str -> result Stats;
  readFileSync : str -> result str;
  JSON_parse : str -> option SessionEntry;
  Date_parse : str -> Date;
  now : Z;
  projectsPath : str
}.

(** [fs.readdirSync(p)] without file types: the names. *)
Definition readdirSync (h : Host) (p : str) : result (list str) :=
  ds <- readdir h p ;; Ok (map d_name ds).

(* ===================================================================== *)
(** * 4. PathCodec: [decodeProjectPath], [findValidPath], [encodeProjectPath] *)
(* ===================================================================== *)

(** [findValidPath(parts, index, currentPath)].  The recursion is on
    [index], which grows towards [parts.length]. *)
Equations? findValidPath (h : Host) (parts : list str) (index : nat)
  (currentPath : str) : option str by wf (length parts - index) lt :=
findValidPath h parts index currentPath with le_lt_dec (length parts) index := {
  | left _ =>
      (* all parts used: check that the path exists *)
      if existsSync h currentPath then Some currentPath else None
  | right _ =>
      let asNewComponent := path_join currentPath (nth index parts []) in
      let resultNew := findValidPath h parts (index + 1) asNewComponent in
      if truthy resultNew then resultNew
      else if negb (str_eqb currentPath root) then
        let parentDir := path_dirname currentPath in
        let currentName := path_basename currentPath in
        let joinedName := currentName ++ dash :: nth index parts [] in
        let asJoined := path_join parentDir joinedName in
        let resultJoined := findValidPath h parts (index + 1) asJoined in
        if truthy resultJoined then resultJoined else None
      else None }.
Proof. all: lia. Qed.

(** [encoded.replace(/^-/, '')] *)
Definition stripLeadingDash (encoded : str) : str :=
  match encoded with
  | c :: rest => if Ascii.eqb c dash then rest else encoded
  | [] => []
  end.

Definition decodeProjectPath (h : Host) (encoded : str) : str :=
  let withoutLeading := stripLeadingDash encoded in
  let parts := split dash withoutLeading in
  let decoded := findValidPath h parts 0 root in
  if truthy decoded
  then match decoded with Some d => d | None => [] end
  else slash :: join [slash] parts.

(** [projectPath.replace(/\//g, '-')] *)
Definition encodeProjectPath (projectPath : str) : str :=
  map (fun c => if Ascii.eqb c slash then dash else c) projectPath.

(** The same search with the calls it makes written down: [Extend i p] when
    the call at index [i] goes on to try the next part from the partial
    path [p], [Query p] for every [fs.existsSync(p)]. *)
Inductive SearchEvent : Type :=
| Extend (index : nat) (partial : str)
| Query (candidate : str).

Equations? findValidPath_log (h : Host) (parts : list str) (index : nat)
  (currentPath : str) : option str * list SearchEvent
  by wf (length parts - index) lt :=
findValidPath_log h parts index currentPath
  with le_lt_dec (length parts) index := {
  | left _ =>
      (if existsSync h currentPath then Some currentPath else None,
       [Query currentPath])
  | right _ =>
      let asNewComponent := path_join currentPath (nth index parts []) in
      let '(resultNew, logNew) :=
        findValidPath_log h parts (index + 1) asNewComponent in
      if truthy resultNew then (resultNew, Extend index currentPath :: logNew)
      else if negb (str_eqb currentPath root) then
        let parentDir := path_dirname currentPath in
        let currentName := path_basename currentPath in
        let joinedName := currentName ++ dash :: nth index parts [] in
        let asJoined := path_join parentDir joinedName in
        let '(resultJoined, logJoined) :=
          findValidPath_log h parts (index + 1) asJoined in
        (if truthy resultJoined then resultJoined else None,
         Extend index currentPath :: logNew ++ logJoined)
      else (None, Extend index currentPath :: logNew) }.
Proof. all: lia. Qed.

(** The complete paths the search can reach from [currentPath] with the
    parts [rest] still to place, in the order it reaches them. *)
Fixpoint candidates (rest : list str) (currentPath : str) : list str :=
  match rest with
  | [] => [currentPath]
  | part :: rest' =>
      candidates rest' (path_join currentPath part) ++
      (if negb (str_eqb currentPath root)
       then candidates rest'
              (path_join (path_dirname currentPath)
                 (path_basename currentPath ++ dash :: part))
       else [])
  end.

(* ===================================================================== *)
(** * 5. SessionIndexer: [parseSessionFile], [getSessions] *)
(* ===================================================================== *)

(** [ClaudeSession] *)
Record Session : Type := mkSession {
  session_id : str;
  projectPath : str;
  startTime : Date;
  lastActivityTime : Date;
  messageCount : nat;
  isActive : bool;
  autoGeneratedName : option str
}.

(** The [let] variables of [parseSessionFile]. *)
Record ParseState : Type := mkParseState {
  st_summary : option str;
  st_messageCount : nat;
  st_firstTimestamp : option Date;
  st_lastTimestamp : option Date;
  st_cwd : option str;
  st_firstUserMessage : option str;
  st_hasRealContent : bool;
  st_isSidechain : bool
}.

Definition initialState : ParseState :=
  mkParseState None 0 None None None None false false.

(** [b.text || ''] *)
Definition blockText (b : ContentBlock) : str :=
  if truthy (b_text b)
  then match b_text b with Some t => t | None => [] end
  else [].

(** [content.map(b => b.text || '')]: [b.text] throws on a [null] block. *)
Fixpoint blockTexts (bs : list (option ContentBlock)) : result (list str) :=
  match bs with
  | [] => Ok []
  | Some b :: rest => texts <- blockTexts rest ;; Ok (blockText b :: texts)
  | None :: _ => Throw
  end.

(** [content.map(b => b.text || '').join('')] and its two siblings. *)
Definition messageText (c : Content) : result str :=
  match c with
  | CString s => Ok s
  | CBlocks bs => texts <- blockTexts bs ;; Ok (concat texts)
  | COther => Ok []
  end.

Definition isUser (entry : SessionEntry) : bool :=
  str_eqb (e_type entry) (lit "user").

Definition isAssistant (entry : SessionEntry) : bool :=
  str_eqb (e_type entry) (lit "assistant").

(** The body of the [for (const line of lines)] loop, after [JSON.parse].
    The one statement of it that can throw is the reading of the first user
    message; the [catch] then skips the rest of the body, which leaves the
    first user message and the working directory as they were. *)
Definition parseEntry (h : Host) (st : ParseState) (entry : SessionEntry)
  : ParseState :=
  let isSidechain := if e_isSidechain entry then true else st_isSidechain st in
  let summary :=
    if str_eqb (e_type entry) (lit "summary") && truthy (e_summary entry)
    then e_summary entry else st_summary st in
  let '(firstTimestamp, lastTimestamp) :=
    match e_timestamp entry with
    | Some t =>
        if truthy (Some t) then
          let ts := Date_parse h t in
          (match st_firstTimestamp st with
           | None => Some ts
           | Some f => if date_ltb ts f then Some ts else Some f
           end,
           match st_lastTimestamp st with
           | None => Some ts
           | Some l => if date_ltb l ts then Some ts else Some l
           end)
        else (st_firstTimestamp st, st_lastTimestamp st)
    | None => (st_firstTimestamp st, st_lastTimestamp st)
    end in
  let counted := isUser entry || isAssistant entry in
  let messageCount :=
    if counted then S (st_messageCount st) else st_messageCount st in
  let firstUserMessage :=
    if counted && isUser entry && negb (truthy (st_firstUserMessage st))
    then match e_message entry with
         | Some m =>
             msgContent <- messageText (m_content m) ;;
             Ok (Some (trim msgContent))
         | None => Ok (st_firstUserMessage st)
         end
    else Ok (st_firstUserMessage st) in
  match firstUserMessage with
  | Ok firstUserMessage =>
      let hasRealContent :=
        if counted && isAssistant entry then true else st_hasRealContent st in
      let cwd :=
        if truthy (e_cwd entry) && negb (truthy (st_cwd st))
        then e_cwd entry else st_cwd st in
      mkParseState summary messageCount firstTimestamp lastTimestamp cwd
        firstUserMessage hasRealContent isSidechain
  | Throw =>
      mkParseState summary messageCount firstTimestamp lastTimestamp
        (st_cwd st) (st_firstUserMessage st) (st_hasRealContent st)
        isSidechain
  end.

(** One iteration: a line [JSON.parse] rejects is skipped. *)
Definition parseLine (h : Host) (st : ParseState) (line : str) : ParseState :=
  match JSON_parse h line with
  | Some entry => parseEntry h st entry
  | None => st
  end.

Definition newline : ascii := ascii_of_nat 10.

(** [content.trim().split('\n').filter(line => line.trim())] *)
Definition contentLines (content : str) : list str :=
  filter (fun line => truthy (Some (trim line))) (split newline (trim content)).

Definition warmup : str := lit "Warmup".

(** [a || b] on an optional value whose present values are all truthy. *)
Definition orElse {A : Type} (a : option A) (b : A) : A :=
  match a with
  | Some x => x
  | None => b
  end.

Definition option_str_eqb (a : option str) (b : str) : bool :=
  match a with
  | Some x => str_eqb x b
  | None => false
  end.

(** [parseSessionFile(filePath, sessionId, projectPath)]: [Throw] when
    [statSync] or [readFileSync] throws, [Ok None] for [null]. *)
Definition parseSessionFile (h : Host) (filePath sessionId projectPath : str)
  : result (option Session) :=
  stats <- statSync h filePath ;;
  if size stats =? 0 then Ok None
  else
    content <- readFileSync h filePath ;;
    let lines := contentLines content in
    if length lines =? 0 then Ok None
    else
      let st := fold_left (parseLine h) lines initialState in
      if option_str_eqb (st_firstUserMessage st) warmup then Ok None
      else if st_isSidechain st then Ok None
      else if negb (st_hasRealContent st) && (st_messageCount st <? 2)
      then Ok None
      else Ok (Some (mkSession sessionId
                       (orElse (st_cwd st) projectPath)
                       (orElse (st_firstTimestamp st) (Some (birthtime stats)))
                       (orElse (st_lastTimestamp st) (Some (mtime stats)))
                       (st_messageCount st)
                       false
                       (st_summary st))).

(** What [sort] makes of the number a comparator returns: [NaN] counts
    as 0. *)
Definition sortCompare {A : Type} (cmp : A -> A -> option Z) (x y : A) : Z :=
  match cmp x y with
  | Some v => v
  | None => 0%Z
  end.

(** [xs.sort(cmp)]; [cmp a b] is negative when [a] goes first.  For a
    consistent comparator this is the stable sort the language prescribes.
    For one that is not, which [byLastActivity] is as soon as one of the
    dates is invalid, the language leaves the order to the implementation:
    the list below is then one permitted outcome, and nothing is stated
    about its order. *)
Fixpoint insertSorted {A : Type} (cmp : A -> A -> option Z) (x : A)
  (xs : list A) : list A :=
  match xs with
  | [] => [x]
  | y :: ys =>
      if (sortCompare cmp x y <=? 0)%Z then x :: y :: ys
      else y :: insertSorted cmp x ys
  end.

Definition sort {A : Type} (cmp : A -> A -> option Z) (xs : list A) : list A :=
  fold_right (insertSorted cmp) [] xs.

(** [(a, b) => b.lastActivityTime.getTime() - a.lastActivityTime.getTime()]:
    [NaN] when either date is invalid. *)
Definition byLastActivity (a b : Session) : option Z :=
  match lastActivityTime b, lastActivityTime a with
  | Some tb, Some ta => Some (tb - ta)%Z
  | _, _ => None
  end.

Definition jsonlExt : str := lit ".jsonl".

Definition isProjectDir (d : Dirent) : bool :=
  d_isDirectory d && negb (startsWith (d_name d) (lit ".")).

Definition isSessionFile (f : str) : bool :=
  endsWith f jsonlExt && negb (startsWith f (lit ".")) &&
  negb (startsWith f (lit "agent-")).

(** The inner loop of [getSessions]: a file whose parse throws or yields
    [null] adds nothing. *)
Fixpoint collectFiles (h : Host) (projectPath decodedProjectPath : str)
  (sessionFiles : list str) (sessions : list Session) : list Session :=
  match sessionFiles with
  | [] => sessions
  | sessionFile :: rest =>
      let sessionId := removeFirst sessionFile jsonlExt in
      let sessionFilePath := path_join projectPath sessionFile in
      match parseSessionFile h sessionFilePath sessionId decodedProjectPath with
      | Ok (Some session) =>
          collectFiles h projectPath decodedProjectPath rest
            (sessions ++ [session])
      | Ok None => collectFiles h projectPath decodedProjectPath rest sessions
      | Throw => collectFiles h projectPath decodedProjectPath rest sessions
      end
  end.

(** The outer loop of [getSessions]: listing a project directory is not
    inside any [try]. *)
Fixpoint collectProjects (h : Host) (projectDirs : list Dirent)
  (sessions : list Session) : result (list Session) :=
  match projectDirs with
  | [] => Ok sessions
  | projectDir :: rest =>
      let projectPath := path_join (projectsPath h) (d_name projectDir) in
      let decodedProjectPath := decodeProjectPath h (d_name projectDir) in
      names <- readdirSync h projectPath ;;
      let sessionFiles := filter isSessionFile names in
      collectProjects h rest
        (collectFiles h projectPath decodedProjectPath sessionFiles sessions)
  end.

Definition getSessions (h : Host) (maxSessions : nat) : result (list Session) :=
  if negb (existsSync h (projectsPath h)) then Ok []
  else
    dirents <- readdir h (projectsPath h) ;;
    let projectDirs := filter isProjectDir dirents in
    sessions <- collectProjects h projectDirs [] ;;
    Ok (firstn maxSessions (sort byLastActivity sessions)).

(* ===================================================================== *)
(** * 6. Namer: [extractTaskFocus] *)
(* ===================================================================== *)

Definition selfImprovementKeywords : list str :=
  [lit "self-improvement"; lit "metacognition"; lit "agent capabilities";
   lit "skill"; lit "learning"; lit "claude.md"; lit "workflow"].

Definition globalKeywords : list str :=
  [lit "cross-project"; lit "management"; lit "organization"; lit "cleanup";
   lit "session"; lit "infrastructure"; lit "backlog"].

(** [Object.entries(knownProjects)]: string keys, in insertion order. *)
Definition knownProjects : list (str * str) :=
  [(lit "corpus-search", lit "corpus-search");
   (lit "corpus search", lit "corpus-search");
   (lit "jhu", lit "JHU-hiring");
   (lit "hiring", lit "JHU-hiring");
   (lit "thompson", lit "JHU-hiring");
   (lit "blame", lit "blame-theo");
   (lit "kira", lit "agent-kira");
   (lit "privacy", lit "agent-kira");
   (lit "claims", lit "claims-secil");
   (lit "compliant", lit "compliant-cameron");
   (lit "deceptive", lit "deceptive-iman");
   (lit "egonormous", lit "egonormous-sichao");
   (lit "morebench", lit "even-more-bench-CY");
   (lit "iaseai", lit "IASEAI");
   (lit "workshop", lit "IASEAI");
   (lit "notion", lit "notion-automation");
   (lit "drone", lit "drone-import");
   (lit "dji", lit "drone-import");
   (lit "flight log", lit "drone-import");
   (lit "email", lit "email-archive");
   (lit "gmail", lit "email-archive");
   (lit "slack", lit "slack-integration");
   (lit "news", lit "news-summary");
   (lit "session manager", lit "claude-session-manager");
   (lit "extension", lit "claude-session-manager");
   (lit "vscode", lit "claude-session-manager");
   (lit "cursor", lit "claude-session-manager");
   (lit "slash command", lit "Global");
   (lit "frontmatter", lit "Global")].

Definition colon : ascii := ":"%char.

Fixpoint untilColon (s : str) : str * str :=
  match s with
  | [] => ([], [])
  | c :: s' =>
      if Ascii.eqb c colon then ([], s)
      else let '(before, after) := untilColon s' in (c :: before, after)
  end.

(** [summary.match(/^([^:]+):/)]: the capture group, when the match
    succeeds. *)
Definition colonMatch (summary : str) : option str :=
  match untilColon summary with
  | ((_ :: _) as before, _ :: _) => Some before
  | _ => None
  end.

Definition extractTaskFocus (summary : option str) : str :=
  if negb (truthy summary) then lit "Session"
  else
    let text := match summary with Some s => s | None => [] end in
    let summaryLower := toLowerCase text in
    if existsb (includes summaryLower) selfImprovementKeywords
    then lit "Self-improvement"
    else if existsb (includes summaryLower) globalKeywords
    then lit "Global"
    else
      match find (fun kp => includes summaryLower (fst kp)) knownProjects with
      | Some (_, project) => project
      | None =>
          match colonMatch text with
          | Some captured =>
              let beforeColon := trim captured in
              if (length beforeColon <=? 30) && (3 <=? length beforeColon)
              then beforeColon else lit "Session"
          | None => lit "Session"
          end
      end.

(* ===================================================================== *)
(** * 7. TranscriptSearch: [getSessionMessages], [searchTranscripts] *)
(* ===================================================================== *)

(** [ClaudeMessage]; a tool use is its name and its raw input. *)
Record ClaudeMessage : Type := mkClaudeMessage {
  msg_sessionId : str;
  role : str;
  content : str;
  timestamp : Date;
  toolUse : option (list (str * option str))
}.

(** The loop of [findSessionFile] over the project directories. *)
Fixpoint firstSessionFile (h : Host) (sessionId : str)
  (projectDirs : list Dirent) : option str :=
  match projectDirs with
  | [] => None
  | projectDir :: rest =>
      let sessionFile :=
        path_joinAll [projectsPath h; d_name projectDir;
                      sessionId ++ jsonlExt] in
      if existsSync h sessionFile then Some sessionFile
      else firstSessionFile h sessionId rest
  end.

Definition findSessionFile (h : Host) (sessionId : str)
  : result (option str) :=
  if negb (existsSync h (projectsPath h)) then Ok None
  else
    dirents <- readdir h (projectsPath h) ;;
    Ok (firstSessionFile h sessionId (filter isProjectDir dirents)).

(** The block loop of [parseMessage]: the text gathered and the tools
    used; [block.type] throws on a [null] block. *)
Fixpoint parseBlocks (bs : list (option ContentBlock)) (content : str)
  (toolUse : list (str * option str))
  : result (str * list (str * option str)) :=
  match bs with
  | [] => Ok (content, toolUse)
  | Some block :: rest =>
      if str_eqb (b_type block) (lit "text") && truthy (b_text block)
      then parseBlocks rest (content ++ orElse (b_text block) []) toolUse
      else if str_eqb (b_type block) (lit "tool_use") && truthy (b_name block)
      then parseBlocks rest content
             (toolUse ++ [(orElse (b_name block) [], b_input block)])
      else parseBlocks rest content toolUse
  | None :: _ => Throw
  end.

Definition parseMessage (h : Host) (sessionId : str) (entry : SessionEntry)
  : result ClaudeMessage :=
  gathered <-
    match e_message entry with
    | Some m =>
        match m_content m with
        | CString s => Ok (s, [])
        | CBlocks bs => parseBlocks bs [] []
        | COther => Ok ([], [])
        end
    | None => Ok ([], [])
    end ;;
  let '(content, toolUse) := gathered in
  Ok (mkClaudeMessage sessionId
        (match e_message entry with
         | Some m => if truthy (Some (m_role m)) then m_role m else lit "user"
         | None => lit "user"
         end)
        content
        (match e_timestamp entry with
         | Some t => if truthy (Some t) then Date_parse h t else Some (now h)
         | None => Some (now h)
         end)
        (if 0 <? length toolUse then Some toolUse else None)).

(** The line loop of [getSessionMessages]: an entry on which
    [parseMessage] throws is skipped like a line that does not parse. *)
Fixpoint collectMessages (h : Host) (sessionId : str) (lines : list str)
  (messages : list ClaudeMessage) : list ClaudeMessage :=
  match lines with
  | [] => messages
  | line :: rest =>
      match JSON_parse h line with
      | Some entry =>
          if (isUser entry || isAssistant entry) &&
             match e_message entry with Some _ => true | None => false end
          then match parseMessage h sessionId entry with
               | Ok message =>
                   collectMessages h sessionId rest (messages ++ [message])
               | Throw => collectMessages h sessionId rest messages
               end
          else collectMessages h sessionId rest messages
      | None => collectMessages h sessionId rest messages
      end
  end.

Definition getSessionMessages (h : Host) (sessionId : str)
  : result (list ClaudeMessage) :=
  found <- findSessionFile h sessionId ;;
  match found with
  | None => Ok []
  | Some sessionFile =>
      content <- readFileSync h sessionFile ;;
      Ok (collectMessages h sessionId (contentLines content) [])
  end.

Record SearchHit : Type := mkHit {
  hit_session : Session;
  hit_message : ClaudeMessage;
  matchContext : str
}.

Definition ellipsis : str := lit "...".

(** The context extracted around the first match. *)
Definition extractContext (query : str) (message : ClaudeMessage) : str :=
  let queryLower := toLowerCase query in
  let idx := indexOf (toLowerCase (content message)) queryLower in
  let len := Z.of_nat (length (content message)) in
  let start := Z.max 0 (idx - 50) in
  let stop := Z.min len (idx + Z.of_nat (length query) + 50) in
  (if (0 <? start)%Z then ellipsis else []) ++
  slice (content message) start stop ++
  (if (stop <? len)%Z then ellipsis else []).

(** How a loop body leaves: falling through to the next iteration, or by
    [return results]. *)
Inductive loopExit (A : Type) : Type :=
| Next (acc : A)
| Return (acc : A).
Arguments Next {A} acc.
Arguments Return {A} acc.

(** The inner loop of [searchTranscripts]. *)
Fixpoint searchMessages (query : str) (maxResults : nat) (session : Session)
  (messages : list ClaudeMessage) (results : list SearchHit)
  : loopExit (list SearchHit) :=
  match messages with
  | [] => Next results
  | message :: rest =>
      if includes (toLowerCase (content message)) (toLowerCase query) then
        let results' :=
          results ++ [mkHit session message (extractContext query message)] in
        if maxResults <=? length results' then Return results'
        else searchMessages query maxResults session rest results'
      else searchMessages query maxResults session rest results
  end.

(** The outer loop of [searchTranscripts]. *)
Fixpoint searchSessions (h : Host) (query : str) (maxResults : nat)
  (sessions : list Session) (results : list SearchHit)
  : result (list SearchHit) :=
  match sessions with
  | [] => Ok results
  | session :: rest =>
      messages <- getSessionMessages h (session_id session) ;;
      match searchMessages query maxResults session messages results with
      | Return results' => Ok results'
      | Next results' => searchSessions h query maxResults rest results'
      end
  end.

Definition searchTranscripts (h : Host) (query : str) (maxResults : nat)
  : result (list SearchHit) :=
  sessions <- getSessions h 200 ;;
  searchSessions h query maxResults sessions [].

(* ===================================================================== *)
(** * 8. A filesystem in memory, for running the code on concrete corpora *)
(* ===================================================================== *)

Inductive MemNode : Type :=
| MemDir (entries : list Dirent)
| MemFile (stats : Stats) (text : str)
| MemDenied.

Fixpoint lookup {A : Type} (key : str) (table : list (str * A)) : option A :=
  match table with
  | [] => None
  | (k, v) :: table' => if str_eqb key k then Some v else lookup key table'
  end.

(** [nodes] maps absolute paths to what is there; [json] maps a line to the
    entry [JSON.parse] builds from it (a line not listed does not parse).
    Timestamps are written as decimal milliseconds; any other text is not a
    date. *)
Definition digitValue (c : ascii) : Z := (Z.of_nat (nat_of_ascii c) - 48)%Z.

Definition isDigit (c : ascii) : bool :=
  (48 <=? nat_of_ascii c) && (nat_of_ascii c <=? 57).

Definition decimal (s : str) : Z :=
  fold_left (fun acc c => (10 * acc + digitValue c)%Z) s 0%Z.

Definition decimalDate (s : str) : Date :=
  if (0 <? length s) && forallb isDigit s then Some (decimal s) else None.

Definition memHost (home : str) (nodes : list (str * MemNode))
  (json : list (str * SessionEntry)) : Host :=
  mkHost
    (fun p => match lookup p nodes with Some _ => true | None => false end)
    (fun p => match lookup p nodes with
              | Some (MemDir entries) => Ok entries
              | _ => Throw
              end)
    (fun p => match lookup p nodes with
              | Some (MemFile stats _) => Ok stats
              | _ => Throw
              end)
    (fun p => match lookup p nodes with
              | Some (MemFile _ text) => Ok text
              | _ => Throw
              end)
    (fun line => lookup line json)
    decimalDate
    0%Z
    (path_join (path_join home (lit ".claude")) (lit "projects")).

(** A host on which only [existsSync] matters. *)
Definition pathsHost (paths : list str) : Host :=
  memHost (lit "/home/u") (map (fun p => (p, MemDir [])) paths) [].

Definition userEntry (text : str) (ts : option str) : SessionEntry :=
  mkEntry (lit "user") None ts None
    (Some (mkMessage (lit "user") (CString text))) false.

Definition assistantEntry (text : str) (ts : option str) : SessionEntry :=
  mkEntry (lit "assistant") None ts None
    (Some (mkMessage (lit "assistant") (CString text))) false.

Definition fileOf (lines : list str) (modified : Z) : MemNode :=
  let text := join [newline] lines in
  MemFile (mkStats (length text) modified modified) text.

(* ===================================================================== *)
(** * 9. Facts about the string primitives *)
(* ===================================================================== *)

Lemma str_eqb_eq (a b : str) : str_eqb a b = true <-> a = b.
Proof.
  revert b. induction a as [|x a IH]; intros [|y b]; simpl;
    try (split; [discriminate | discriminate]); try tauto.
  rewrite andb_true_iff, Ascii.eqb_eq, IH.
  split; [intros [-> ->]; reflexivity | intros E; inversion E; auto].
Qed.

Lemma str_eqb_refl (a : str) : str_eqb a a = true.
Proof. apply str_eqb_eq. reflexivity. Qed.

Lemma str_eqb_neq (a b : str) : str_eqb a b = false <-> a <> b.
Proof.
  rewrite <- str_eqb_eq. destruct (str_eqb a b); split; congruence.
Qed.

Lemma startsWith_nil (s : str) : startsWith s [] = true.
Proof. destruct s; reflexivity. Qed.

Lemma startsWith_app (p t : str) : startsWith (p ++ t) p = true.
Proof.
  induction p as [|x p IH]; simpl.
  - apply startsWith_nil.
  - rewrite Ascii.eqb_refl. exact IH.
Qed.

Lemma startsWith_prefix (s p : str) :
  startsWith s p = true <-> exists t, s = p ++ t.
Proof.
  split.
  - revert s. induction p as [|y p IH]; intros s H.
    + exists s. reflexivity.
    + destruct s as [|x s]; simpl in H; [discriminate|].
      apply andb_true_iff in H. destruct H as [Hxy Hs].
      apply Ascii.eqb_eq in Hxy. subst y.
      destruct (IH s Hs) as [t ->]. exists t. reflexivity.
  - intros [t ->]. apply startsWith_app.
Qed.



Lemma toLowerCase_length (s : str) : length (toLowerCase s) = length s.
Proof. apply length_map. Qed.

(** An occurrence: [needle] sits in [s] at index [i]. *)
Definition occursAt (s needle : str) (i : nat) : Prop :=
  startsWith (skipn i s) needle = true /\ i <= length s.

Lemma indexOf_from_shift (k : Z) (s needle : str) :
  indexOf_from k s needle =
  if includes s needle then (k + indexOf_from 0 s needle)%Z else (-1)%Z.
Proof.
  revert k. induction s as [|x s IH]; intros k; cbn [indexOf_from includes].
  - destruct (startsWith [] needle); cbn [orb]; lia.
  - destruct (startsWith (x :: s) needle); cbn [orb]; [lia|].
    rewrite (IH (k + 1)%Z), (IH (0 + 1)%Z).
    destruct (includes s needle); lia.
Qed.

(** [indexOf] returns the first occurrence whenever [includes] holds. *)
Lemma indexOf_first (s needle : str) :
  includes s needle = true ->
  exists i : nat,
    indexOf s needle = Z.of_nat i /\ occursAt s needle i /\
    forall j, j < i -> startsWith (skipn j s) needle = false.
Proof.
  unfold indexOf, occursAt.
  induction s as [|x s IH]; cbn [indexOf_from includes]; intros H.
  - rewrite orb_false_r in H. rewrite H. exists 0. cbn [skipn length].
    repeat split; auto; intros; lia.
  - destruct (startsWith (x :: s) needle) eqn:E.
    + exists 0. cbn [skipn length]. repeat split; auto; try lia.
    + cbn [orb] in H. destruct (IH H) as (i & Hi & (Hocc & Hle) & Hmin).
      exists (S i). rewrite indexOf_from_shift, H, Hi. cbn [skipn length].
      repeat split; try lia; auto.
      intros [|j] Hj; cbn [skipn]; [exact E | apply Hmin; lia].
Qed.

Lemma includes_occurs (s needle : str) (i : nat) :
  occursAt s needle i -> includes s needle = true.
Proof.
  unfold occursAt. revert i. induction s as [|x s IH]; intros i [H Hle].
  - cbn [length] in Hle. assert (i = 0) by lia. subst.
    cbn [skipn includes] in *. now rewrite H.
  - destruct i as [|i]; cbn [skipn includes length] in *.
    + now rewrite H.
    + rewrite (IH i); [apply orb_true_r | split; [exact H | lia]].
Qed.

Lemma slice_firstn_skipn (s : str) (a b : nat) :
  a <= b -> b <= length s ->
  slice s (Z.of_nat a) (Z.of_nat b) = firstn (b - a) (skipn a s).
Proof.
  intros Hab Hb. unfold slice, slice_bound.
  destruct (Z.ltb_spec (Z.of_nat a) 0); [lia|].
  destruct (Z.ltb_spec (Z.of_nat b) 0); [lia|].
  rewrite !Z.min_l by lia.
  replace (Z.to_nat (Z.of_nat b - Z.of_nat a)) with (b - a) by lia.
  now rewrite Nat2Z.id.
Qed.

Lemma split_nonempty (c : ascii) (s : str) : split c s <> [].
Proof.
  destruct s as [|x s]; simpl; [discriminate|].
  destruct (Ascii.eqb x c); [discriminate|].
  destruct (split c s); discriminate.
Qed.

Lemma split_app (c : ascii) (a b : str) :
  split c (a ++ c :: b) = split c a ++ split c b.
Proof.
  induction a as [|x a IH]; simpl.
  - now rewrite Ascii.eqb_refl.
  - destruct (Ascii.eqb x c); [now rewrite IH|].
    rewrite IH. pose proof (split_nonempty c a) as Hne.
    destruct (split c a); [contradiction | reflexivity].
Qed.

Definition lacks (c : ascii) (s : str) : bool := negb (existsb (Ascii.eqb c) s).

Lemma split_lacks (c : ascii) (s : str) : lacks c s = true -> split c s = [s].
Proof.
  unfold lacks. induction s as [|x s IH]; simpl; [reflexivity|].
  rewrite negb_orb, andb_true_iff. intros [Hx Hs].
  rewrite Ascii.eqb_sym in Hx. apply negb_true_iff in Hx. rewrite Hx.
  now rewrite (IH Hs).
Qed.

Lemma lacks_app (c : ascii) (a b : str) :
  lacks c (a ++ b) = lacks c a && lacks c b.
Proof. unfold lacks. now rewrite existsb_app, negb_orb. Qed.

Lemma lacks_cons (c x : ascii) (s : str) :
  lacks c (x :: s) = negb (Ascii.eqb c x) && lacks c s.
Proof. unfold lacks. simpl. now rewrite negb_orb. Qed.

Lemma join_split (c : ascii) (s : str) : join [c] (split c s) = s.
Proof.
  induction s as [|x s IH]; simpl; [reflexivity|].
  destruct (Ascii.eqb_spec x c) as [->|Hne].
  - pose proof (split_nonempty c s) as Hs.
    destruct (split c s) eqn:E; [contradiction|].
    simpl in *. now rewrite IH.
  - pose proof (split_nonempty c s) as Hs.
    destruct (split c s) as [|w ws] eqn:E; [contradiction|].
    destruct ws; simpl in *; now rewrite <- IH.
Qed.

Lemma split_parts_lack (c d : ascii) (s : str) :
  lacks d s = true -> forallb (lacks d) (split c s) = true.
Proof.
  induction s as [|x s IH]; simpl; [reflexivity|].
  rewrite lacks_cons, andb_true_iff. intros [Hx Hs].
  specialize (IH Hs). pose proof (split_nonempty c s) as Hne.
  destruct (Ascii.eqb x c); simpl; [exact IH|].
  destruct (split c s) as [|w ws]; [contradiction|].
  simpl in *. rewrite lacks_cons, Hx. exact IH.
Qed.

Lemma join_cons (sep x : str) (y : str) (ys : list str) :
  join sep (x :: y :: ys) = x ++ sep ++ join sep (y :: ys).
Proof. reflexivity. Qed.

Lemma join_snoc (sep : str) (xs : list str) (x y : str) :
  join sep ((x :: xs) ++ [y]) = join sep (x :: xs) ++ sep ++ y.
Proof.
  revert x. induction xs as [|z xs IH]; intros x.
  - reflexivity.
  - change ((x :: z :: xs) ++ [y]) with (x :: ((z :: xs) ++ [y])).
    simpl app at 1. rewrite join_cons.
    change (z :: xs ++ [y]) with ((z :: xs) ++ [y]).
    rewrite IH, join_cons. now rewrite !app_assoc.
Qed.

(* ===================================================================== *)
(** * 10. Facts about the [path] functions on normalized absolute paths *)
(* ===================================================================== *)

(** A segment name [path.normalize] keeps as it is. *)
Definition plain (s : str) : bool :=
  negb (str_eqb s []) && lacks slash s &&
  negb (str_eqb s dot) && negb (str_eqb s dotdot).

(** The absolute path with the segments [segs]. *)
Definition renderPath (segs : list str) : str := slash :: join [slash] segs.

Lemma plain_nonempty (s : str) : plain s = true -> s <> [].
Proof.
  unfold plain. rewrite !andb_true_iff, negb_true_iff, str_eqb_neq. tauto.
Qed.

Lemma plain_lacks (s : str) : plain s = true -> lacks slash s = true.
Proof. unfold plain. rewrite !andb_true_iff. tauto. Qed.

Lemma plain_not_skipped (s : str) :
  plain s = true -> str_eqb s [] || str_eqb s dot = false.
Proof.
  unfold plain. rewrite !andb_true_iff, !negb_true_iff.
  intros [[[-> _] ->] _]. reflexivity.
Qed.

Lemma plain_not_dotdot (s : str) : plain s = true -> str_eqb s dotdot = false.
Proof. unfold plain. rewrite !andb_true_iff, !negb_true_iff. tauto. Qed.

(** A name with a dash in it is plain as soon as it has no [/]. *)
Lemma plain_dashed (name t : str) :
  lacks slash name = true -> lacks slash t = true ->
  plain (name ++ dash :: t) = true.
Proof.
  intros Hn Ht. unfold plain.
  rewrite lacks_app, lacks_cons, Hn, Ht.
  assert (Hin : In dash (name ++ dash :: t)) by (apply in_elt).
  assert (H1 : str_eqb (name ++ dash :: t) [] = false).
  { apply str_eqb_neq. destruct name; discriminate. }
  assert (H2 : str_eqb (name ++ dash :: t) dot = false).
  { apply str_eqb_neq. intros E. rewrite E in Hin. simpl in Hin.
    destruct Hin as [H|[]]. discriminate H. }
  assert (H3 : str_eqb (name ++ dash :: t) dotdot = false).
  { apply str_eqb_neq. intros E. rewrite E in Hin. simpl in Hin.
    destruct Hin as [H|[H|[]]]; discriminate H. }
  rewrite H1, H2, H3. reflexivity.
Qed.

Lemma normalizeSegments_plain (acc segs : list str) :
  forallb plain segs = true ->
  normalizeSegments false acc segs = rev acc ++ segs.
Proof.
  revert acc. induction segs as [|s segs IH]; intros acc H; simpl.
  - now rewrite app_nil_r.
  - simpl in H. apply andb_true_iff in H. destruct H as [Hs Hsegs].
    rewrite (plain_not_skipped _ Hs), (plain_not_dotdot _ Hs).
    rewrite (IH _ Hsegs). simpl. now rewrite <- app_assoc.
Qed.

Lemma normalizeSegments_empty_first (acc segs : list str) :
  normalizeSegments false acc ([] :: segs) = normalizeSegments false acc segs.
Proof. reflexivity. Qed.

Lemma join_all_lack (segs : list str) :
  forallb (lacks slash) segs = true -> segs <> [] ->
  split slash (join [slash] segs) = segs.
Proof.
  induction segs as [|s segs IH]; intros H Hne; [contradiction|].
  simpl in H. apply andb_true_iff in H. destruct H as [Hs Hsegs].
  destruct segs as [|s' segs].
  - simpl. now apply split_lacks.
  - rewrite join_cons. change ([slash] ++ join [slash] (s' :: segs))
      with (slash :: join [slash] (s' :: segs)).
    rewrite split_app, (split_lacks _ _ Hs), IH; auto. discriminate.
Qed.

Lemma forallb_plain_lacks (segs : list str) :
  forallb plain segs = true -> forallb (lacks slash) segs = true.
Proof.
  rewrite !forallb_forall. intros H s Hs. apply plain_lacks. now apply H.
Qed.

(** What [normalizeString] keeps of [cur + '/' + t]. *)
Lemma normalized_segments_of_join (segs : list str) (t : str) :
  forallb plain segs = true -> plain t = true ->
  normalizeSegments false [] (split slash (renderPath segs ++ slash :: t))
  = segs ++ [t].
Proof.
  intros Hsegs Ht. rewrite split_app, (split_lacks _ _ (plain_lacks _ Ht)).
  unfold renderPath. cbn [split]. rewrite Ascii.eqb_refl. cbn [app].
  rewrite normalizeSegments_empty_first.
  destruct segs as [|s segs].
  - cbn [join split app]. rewrite normalizeSegments_empty_first.
    rewrite normalizeSegments_plain; [reflexivity|]. simpl. now rewrite Ht.
  - rewrite join_all_lack;
      [| now apply forallb_plain_lacks | discriminate].
    rewrite normalizeSegments_plain; [reflexivity|].
    rewrite forallb_app, Hsegs. simpl. now rewrite Ht.
Qed.

Lemma endsWith_slash_app (a t : str) :
  t <> [] -> lacks slash t = true -> endsWith (a ++ t) [slash] = false.
Proof.
  intros Hne Ht. unfold endsWith. rewrite rev_app_distr.
  destruct (rev t) as [|x r] eqn:E.
  - apply (f_equal (@rev ascii)) in E. rewrite rev_involutive in E.
    simpl in E. contradiction.
  - assert (Hx : In x t) by (apply in_rev; rewrite E; now left).
    cbn [rev app startsWith]. rewrite startsWith_nil, andb_true_r.
    apply Ascii.eqb_neq. intros ->.
    unfold lacks in Ht. apply negb_true_iff in Ht.
    assert (existsb (Ascii.eqb slash) t = true); [|congruence].
    apply existsb_exists. exists slash. split; [exact Hx | apply Ascii.eqb_refl].
Qed.

Lemma join_snoc_nonempty (segs : list str) (t : str) :
  t <> [] -> join [slash] (segs ++ [t]) <> [].
Proof.
  intros Ht. destruct segs as [|s segs]; [exact Ht|].
  rewrite join_snoc. intros E. apply app_eq_nil in E. destruct E as [_ E].
  discriminate E.
Qed.

Lemma renderPath_snoc (segs : list str) (t : str) :
  segs <> [] -> renderPath segs ++ slash :: t = renderPath (segs ++ [t]).
Proof.
  intros Hne. destruct segs as [|s segs]; [contradiction|].
  unfold renderPath. now rewrite join_snoc.
Qed.

Lemma path_normalize_absolute (q : str) (kept : list str) :
  normalizeSegments false [] (split slash (slash :: q)) = kept ->
  join [slash] kept <> [] ->
  endsWith (slash :: q) [slash] = false ->
  path_normalize (slash :: q) = renderPath kept.
Proof.
  intros Hkept Hbody Hend. unfold path_normalize.
  rewrite Ascii.eqb_refl. cbn [negb]. rewrite Hkept, Hend.
  unfold renderPath. destruct (join [slash] kept); [contradiction | reflexivity].
Qed.

(** [path.join(cur, t)] appends the segment [t]. *)
Lemma path_join_render (segs : list str) (t : str) :
  forallb plain segs = true -> plain t = true ->
  path_join (renderPath segs) t = renderPath (segs ++ [t]).
Proof.
  intros Hsegs Ht.
  pose proof (plain_nonempty _ Ht) as Hne.
  unfold path_join, path_joinAll. cbn [filter].
  assert (E1 : str_eqb (renderPath segs) [] = false) by reflexivity.
  assert (E2 : str_eqb t [] = false) by now apply str_eqb_neq.
  rewrite E1, E2. cbn [negb join].
  change ([slash] ++ t) with (slash :: t).
  pose proof (normalized_segments_of_join segs t Hsegs Ht) as Hnorm.
  assert (Hend : endsWith (renderPath segs ++ slash :: t) [slash] = false).
  { replace (renderPath segs ++ slash :: t)
      with ((renderPath segs ++ [slash]) ++ t) by now rewrite <- app_assoc.
    apply endsWith_slash_app; auto using plain_lacks. }
  apply path_normalize_absolute; auto using join_snoc_nonempty.
Qed.

(** A name that can be the last segment of a path. *)
Definition nameLike (s : str) : bool := negb (str_eqb s []) && lacks slash s.

Lemma plain_nameLike (s : str) : plain s = true -> nameLike s = true.
Proof.
  intros H. unfold nameLike.
  rewrite (plain_lacks _ H), andb_true_r, negb_true_iff.
  apply str_eqb_neq. now apply plain_nonempty.
Qed.

Lemma dropSlashes_name (r rest : str) (x : ascii) :
  x <> slash -> dropSlashes (x :: r ++ rest) = x :: r ++ rest.
Proof.
  intros Hx. cbn [dropSlashes]. apply Ascii.eqb_neq in Hx. now rewrite Hx.
Qed.

Lemma takeName_lacks (r rest : str) :
  lacks slash r = true -> takeName (r ++ slash :: rest) = r.
Proof.
  induction r as [|x r IH]; cbn [app takeName dropName].
  - now rewrite Ascii.eqb_refl.
  - rewrite lacks_cons, andb_true_iff, negb_true_iff, Ascii.eqb_sym.
    intros [-> Hr]. now rewrite IH.
Qed.

Lemma takeName_lacks_end (r : str) : lacks slash r = true -> takeName r = r.
Proof.
  induction r as [|x r IH]; cbn [app takeName dropName]; [reflexivity|].
  rewrite lacks_cons, andb_true_iff, negb_true_iff, Ascii.eqb_sym.
  intros [-> Hr]. now rewrite IH.
Qed.

Lemma dropName_lacks (r rest : str) :
  lacks slash r = true -> dropName (r ++ slash :: rest) = slash :: rest.
Proof.
  induction r as [|x r IH]; cbn [app takeName dropName].
  - now rewrite Ascii.eqb_refl.
  - rewrite lacks_cons, andb_true_iff, negb_true_iff, Ascii.eqb_sym.
    intros [-> Hr]. now rewrite IH.
Qed.

Lemma dropName_lacks_end (r : str) : lacks slash r = true -> dropName r = [].
Proof.
  induction r as [|x r IH]; cbn [app takeName dropName]; [reflexivity|].
  rewrite lacks_cons, andb_true_iff, negb_true_iff, Ascii.eqb_sym.
  intros [-> Hr]. now rewrite IH.
Qed.

Lemma lacks_rev (c : ascii) (s : str) : lacks c (rev s) = lacks c s.
Proof.
  unfold lacks. f_equal.
  apply eq_true_iff_eq. rewrite !existsb_exists.
  split; intros [x [Hin Hx]]; exists x; split; auto;
    [now apply in_rev | now apply in_rev in Hin].
Qed.

Lemma rev_name_head (name : str) :
  nameLike name = true ->
  exists x r, rev name = x :: r /\ x <> slash /\ lacks slash (x :: r) = true.
Proof.
  unfold nameLike. rewrite andb_true_iff, negb_true_iff, str_eqb_neq.
  intros [Hne Hl]. destruct (rev name) as [|x r] eqn:E.
  - apply (f_equal (@rev ascii)) in E. rewrite rev_involutive in E.
    contradiction.
  - exists x, r. rewrite <- (lacks_rev slash name), E in Hl.
    split; [reflexivity|]. split; [|exact Hl].
    rewrite lacks_cons, andb_true_iff, negb_true_iff in Hl.
    destruct Hl as [Hx _]. apply Ascii.eqb_neq in Hx. congruence.
Qed.

(** The reversed text of a path that ends in the segment [name]. *)
Lemma rev_join_snoc (segs : list str) (name : str) :
  rev (join [slash] (segs ++ [name])) =
  rev name ++ match segs with
              | [] => []
              | _ :: _ => slash :: rev (join [slash] segs)
              end.
Proof.
  destruct segs as [|s segs].
  - simpl. now rewrite app_nil_r.
  - rewrite join_snoc, !rev_app_distr. simpl. now rewrite <- app_assoc.
Qed.

Lemma path_basename_render (segs : list str) (name : str) :
  nameLike name = true ->
  path_basename (renderPath (segs ++ [name])) = name.
Proof.
  intros Hname. destruct (rev_name_head _ Hname) as (x & r & E & Hx & Hl).
  unfold path_basename, renderPath. cbn [rev].
  rewrite rev_join_snoc, E, <- app_assoc.
  assert (Htail : exists rest,
    match segs with
    | [] => []
    | _ :: _ => slash :: rev (join [slash] segs)
    end ++ [slash] = slash :: rest).
  { destruct segs; cbn [app]; eauto. }
  destruct Htail as [rest ->].
  change ((x :: r) ++ slash :: rest) with (x :: r ++ slash :: rest).
  rewrite dropSlashes_name by exact Hx.
  change (x :: r ++ slash :: rest) with ((x :: r) ++ slash :: rest).
  rewrite takeName_lacks by exact Hl. rewrite <- E. apply rev_involutive.
Qed.

Lemma join_nonempty_plain (s : str) (segs : list str) :
  s <> [] -> join [slash] (s :: segs) <> [].
Proof.
  intros Hs. destruct segs; simpl; [exact Hs|].
  destruct s; [contradiction | discriminate].
Qed.

Lemma path_dirname_render (segs : list str) (name : str) :
  forallb plain segs = true -> nameLike name = true ->
  path_dirname (renderPath (segs ++ [name])) = renderPath segs.
Proof.
  intros Hsegs Hname. destruct (rev_name_head _ Hname) as (x & r & E & Hx & Hl).
  unfold path_dirname, renderPath. rewrite Ascii.eqb_refl.
  rewrite rev_join_snoc, E.
  destruct segs as [|s segs].
  - rewrite app_nil_r.
    rewrite <- (app_nil_r r). rewrite dropSlashes_name by exact Hx.
    rewrite app_nil_r, dropName_lacks_end by exact Hl. reflexivity.
  - change ((x :: r) ++ ?t) with (x :: r ++ t).
    rewrite dropSlashes_name by exact Hx.
    change (x :: r ++ ?t) with ((x :: r) ++ t).
    rewrite dropName_lacks by exact Hl.
    simpl in Hsegs. apply andb_true_iff in Hsegs. destruct Hsegs as [Hs _].
    pose proof (join_nonempty_plain s segs (plain_nonempty _ Hs)) as Hne.
    rewrite length_rev.
    destruct (join [slash] (s :: segs)) eqn:Ej; [contradiction|].
    cbn [length Nat.eqb andb]. rewrite <- Ej.
    now rewrite rev_involutive.
Qed.

(* ===================================================================== *)
(** * 11. PathCodec: what the search computes *)
(* ===================================================================== *)

Lemma path_normalize_nonempty (p : str) : path_normalize p <> [].
Proof.
  unfold path_normalize. destruct p as [|c p]; [discriminate|].
  destruct (join [slash] _) as [|b body].
  - destruct (Ascii.eqb c slash); [discriminate|].
    destruct (endsWith _ _); discriminate.
  - destruct (Ascii.eqb c slash); [discriminate|].
    destruct (endsWith _ _); discriminate.
Qed.

Lemma path_joinAll_nonempty (args : list str) : path_joinAll args <> [].
Proof.
  unfold path_joinAll. destruct (filter _ args); [discriminate|].
  apply path_normalize_nonempty.
Qed.

Lemma path_join_nonempty (a b : str) : path_join a b <> [].
Proof. apply path_joinAll_nonempty. Qed.

Lemma candidates_nonempty (rest : list str) (cur : str) :
  cur <> [] -> forall c, In c (candidates rest cur) -> c <> [].
Proof.
  revert cur. induction rest as [|part rest IH]; intros cur Hcur c Hin.
  - simpl in Hin. destruct Hin as [<-|[]]. exact Hcur.
  - cbn [candidates] in Hin. apply in_app_or in Hin. destruct Hin as [Hin|Hin].
    + eapply IH; [apply path_join_nonempty | exact Hin].
    + destruct (negb (str_eqb cur root)); [|contradiction].
      eapply IH; [apply path_join_nonempty | exact Hin].
Qed.

Lemma find_append {A : Type} (f : A -> bool) (xs ys : list A) :
  find f (xs ++ ys) =
  match find f xs with
  | Some x => Some x
  | None => find f ys
  end.
Proof.
  induction xs as [|x xs IH]; simpl; [reflexivity|].
  destruct (f x); [reflexivity | exact IH].
Qed.

Lemma truthy_find (f : str -> bool) (cs : list str) :
  (forall c, In c cs -> c <> []) ->
  truthy (find f cs) = match find f cs with Some _ => true | None => false end.
Proof.
  intros Hne. destruct (find f cs) as [c|] eqn:E; [|reflexivity].
  apply find_some in E. destruct E as [Hin _].
  specialize (Hne c Hin). destruct c; [contradiction | reflexivity].
Qed.

Lemma skipn_step (parts : list str) (index : nat) :
  index < length parts ->
  skipn index parts = nth index parts [] :: skipn (index + 1) parts.
Proof.
  revert index. induction parts as [|p parts IH]; intros index H.
  - simpl in H. lia.
  - destruct index as [|index]; simpl; [reflexivity|].
    apply IH. simpl in H. lia.
Qed.

(** The search returns the first candidate that exists. *)
Lemma findValidPath_candidates (h : Host) (parts : list str) (index : nat)
  (currentPath : str) :
  currentPath <> [] ->
  findValidPath h parts index currentPath =
  find (existsSync h) (candidates (skipn index parts) currentPath).
Proof.
  funelim (findValidPath h parts index currentPath); intros Hcur.
  - rewrite skipn_all2 by lia. simpl.
    destruct (existsSync h currentPath); reflexivity.
  - rewrite (skipn_step parts index) by lia. cbn [candidates].
    rewrite find_append.
    assert (Hnew := H (path_join_nonempty _ _)).
    assert (Hjoined := H0 (path_join_nonempty _ _)).
    clear H H0 Heqcall.
    assert (Tnew := truthy_find (existsSync h) _
      (candidates_nonempty (skipn (index + 1) parts) _
         (path_join_nonempty currentPath (nth index parts [])))).
    assert (Tjoined := truthy_find (existsSync h) _
      (candidates_nonempty (skipn (index + 1) parts) _
         (path_join_nonempty (path_dirname currentPath)
            (path_basename currentPath ++ dash :: nth index parts [])))).
    rewrite <- Hnew in Tnew |- *. rewrite <- Hjoined in Tjoined.
    rewrite Tnew, Tjoined.
    destruct (findValidPath h parts (index + 1)
                (path_join currentPath (nth index parts [])));
      [reflexivity|].
    destruct (negb (str_eqb currentPath root)); [|reflexivity].
    rewrite <- Hjoined.
    destruct (findValidPath h parts (index + 1) _); reflexivity.
Qed.

Lemma decodeProjectPath_candidates (h : Host) (encoded : str) :
  decodeProjectPath h encoded =
  let parts := split dash (stripLeadingDash encoded) in
  match find (existsSync h) (candidates parts root) with
  | Some d => d
  | None => slash :: join [slash] parts
  end.
Proof.
  unfold decodeProjectPath. cbv zeta.
  rewrite findValidPath_candidates by discriminate. cbn [skipn].
  rewrite truthy_find by (apply candidates_nonempty; discriminate).
  destruct (find _ _); reflexivity.
Qed.

Lemma findValidPath_none (h : Host) (parts : list str) :
  findValidPath h parts 0 root = None <->
  forall c, In c (candidates parts root) -> existsSync h c = false.
Proof.
  rewrite findValidPath_candidates by discriminate. cbn [skipn]. split.
  - intros H c Hin. now apply (find_none _ _ H).
  - intros H. destruct (find _ _) as [c|] eqn:E; [|reflexivity].
    apply find_some in E. destruct E as [Hin Hex].
    rewrite (H c Hin) in Hex. discriminate.
Qed.

(** A segment the search can rebuild: no [/] in it, and its first
    dash-separated token is one [path.join] keeps. *)
Definition segmentOk (s : str) : bool :=
  lacks slash s && plain (hd [] (split dash s)).

(** The name built from a first token and the tokens joined to it. *)
Definition extendName (name : str) (tokens : list str) : str :=
  fold_left (fun n t => n ++ dash :: t) tokens name.

Lemma extendName_join (t : str) (ts : list str) :
  extendName t ts = join [dash] (t :: ts).
Proof.
  revert t. induction ts as [|u ts IH]; intros t; [reflexivity|].
  cbn [extendName fold_left]. fold (extendName (t ++ dash :: u) ts).
  rewrite IH. destruct ts as [|v ts]; simpl; now rewrite <- ?app_assoc.
Qed.

Lemma renderPath_not_root (segs : list str) (name : str) :
  name <> [] -> str_eqb (renderPath (segs ++ [name])) root = false.
Proof.
  intros Hne. apply str_eqb_neq. unfold renderPath, root. intros E.
  injection E as E. now apply (join_snoc_nonempty segs name Hne).
Qed.

Lemma nameLike_nonempty (s : str) : nameLike s = true -> s <> [].
Proof.
  unfold nameLike. rewrite andb_true_iff, negb_true_iff, str_eqb_neq. tauto.
Qed.

Lemma nameLike_lacks (s : str) : nameLike s = true -> lacks slash s = true.
Proof. unfold nameLike. rewrite andb_true_iff. tauto. Qed.

(** Joining the tokens [ts] to the last segment, one dash at a time, is a
    branch of the search. *)
Lemma candidates_continue (done : list str) (ts rest : list str)
  (name x : str) :
  forallb plain done = true -> plain name = true ->
  forallb (lacks slash) ts = true ->
  In x (candidates rest (renderPath (done ++ [extendName name ts]))) ->
  In x (candidates (ts ++ rest) (renderPath (done ++ [name]))).
Proof.
  intros Hdone. revert name.
  induction ts as [|t ts IH]; intros name Hname Hts Hin; [exact Hin|].
  simpl in Hts. apply andb_true_iff in Hts. destruct Hts as [Ht Hts].
  cbn [app candidates]. apply in_or_app. right.
  rewrite (renderPath_not_root done name (plain_nonempty _ Hname)).
  cbn [negb].
  rewrite path_dirname_render, path_basename_render
    by auto using plain_nameLike.
  assert (Hplain : plain (name ++ dash :: t) = true)
    by (apply plain_dashed; auto using plain_lacks).
  rewrite path_join_render by assumption.
  apply IH; assumption.
Qed.

Lemma segmentOk_tokens (s : str) :
  segmentOk s = true ->
  exists t ts, split dash s = t :: ts /\ plain t = true /\
               forallb (lacks slash) ts = true /\ s = extendName t ts.
Proof.
  unfold segmentOk. rewrite andb_true_iff. intros [Hl Hp].
  pose proof (split_parts_lack dash slash s Hl) as Hparts.
  pose proof (join_split dash s) as Hjoin.
  destruct (split dash s) as [|t ts] eqn:E.
  - now apply split_nonempty in E.
  - exists t, ts. simpl in Hp, Hparts.
    apply andb_true_iff in Hparts. destruct Hparts as [_ Hts].
    rewrite extendName_join. auto.
Qed.

Lemma segmentOk_plain (s : str) : segmentOk s = true -> plain s = true.
Proof.
  intros H. destruct (segmentOk_tokens s H) as (t & ts & E & Ht & Hts & ->).
  clear E H. revert t Ht. induction ts as [|u ts IH]; intros t Ht; [exact Ht|].
  simpl in Hts. apply andb_true_iff in Hts. destruct Hts as [Hu Hts].
  cbn [extendName fold_left]. apply (IH Hts).
  apply plain_dashed; auto using plain_lacks.
Qed.

(** The path with the segments [segs] is among the candidates for the
    tokens of its encoding. *)
Lemma candidates_reach (segs done : list str) :
  forallb plain done = true -> forallb segmentOk segs = true ->
  In (renderPath (done ++ segs))
     (candidates (flat_map (split dash) segs) (renderPath done)).
Proof.
  revert done. induction segs as [|s segs IH]; intros done Hdone Hsegs.
  - rewrite app_nil_r. now left.
  - simpl in Hsegs. apply andb_true_iff in Hsegs. destruct Hsegs as [Hs Hsegs].
    destruct (segmentOk_tokens s Hs) as (t & ts & E & Ht & Hts & Es).
    cbn [flat_map]. rewrite E. cbn [app candidates].
    apply in_or_app. left.
    rewrite path_join_render by assumption.
    apply candidates_continue; try assumption.
    rewrite <- Es.
    replace (done ++ s :: segs) with ((done ++ [s]) ++ segs)
      by now rewrite <- app_assoc.
    apply IH; [|exact Hsegs].
    rewrite forallb_app, Hdone. simpl. now rewrite (segmentOk_plain s Hs).
Qed.

Lemma split_join (c : ascii) (xs : list str) :
  xs <> [] -> split c (join [c] xs) = flat_map (split c) xs.
Proof.
  induction xs as [|x xs IH]; intros Hne; [contradiction|].
  destruct xs as [|y xs].
  - simpl. now rewrite app_nil_r.
  - rewrite join_cons. change ([c] ++ ?t) with (c :: t).
    rewrite split_app, IH by discriminate. reflexivity.
Qed.

Lemma encode_lacks (s : str) :
  lacks slash s = true -> encodeProjectPath s = s.
Proof.
  unfold encodeProjectPath. induction s as [|x s IH]; [reflexivity|].
  rewrite lacks_cons, andb_true_iff, negb_true_iff, Ascii.eqb_sym.
  intros [Hx Hs]. cbn [map]. now rewrite Hx, IH.
Qed.

Lemma encode_app (a b : str) :
  encodeProjectPath (a ++ b) = encodeProjectPath a ++ encodeProjectPath b.
Proof. apply map_app. Qed.

Lemma encode_join (segs : list str) :
  forallb (lacks slash) segs = true ->
  encodeProjectPath (join [slash] segs) = join [dash] segs.
Proof.
  induction segs as [|s segs IH]; intros H; [reflexivity|].
  simpl in H. apply andb_true_iff in H. destruct H as [Hs Hsegs].
  destruct segs as [|s' segs].
  - simpl. now apply encode_lacks.
  - rewrite !join_cons, !encode_app, (encode_lacks s Hs), (IH Hsegs).
    reflexivity.
Qed.

Lemma encode_render (segs : list str) :
  forallb (lacks slash) segs = true ->
  encodeProjectPath (renderPath segs) = dash :: join [dash] segs.
Proof.
  intros H. unfold renderPath.
  change (encodeProjectPath (slash :: ?t)) with (dash :: encodeProjectPath t).
  now rewrite encode_join.
Qed.

Lemma forallb_segmentOk_lacks (segs : list str) :
  forallb segmentOk segs = true -> forallb (lacks slash) segs = true.
Proof.
  rewrite !forallb_forall. intros H s Hs. specialize (H s Hs).
  unfold segmentOk in H. apply andb_true_iff in H. tauto.
Qed.

(** The tokens [decodeProjectPath] works on, for an encoded path. *)
Definition partsOf (encoded : str) : list str :=
  split dash (stripLeadingDash encoded).

Lemma path_is_candidate (segs : list str) :
  forallb segmentOk segs = true ->
  In (renderPath segs)
     (candidates (partsOf (encodeProjectPath (renderPath segs))) root).
Proof.
  intros Hsegs. unfold partsOf.
  rewrite encode_render by now apply forallb_segmentOk_lacks.
  cbn [stripLeadingDash]. rewrite Ascii.eqb_refl.
  destruct segs as [|s segs].
  - now left.
  - rewrite split_join by discriminate.
    apply (candidates_reach (s :: segs) [] eq_refl Hsegs).
Qed.

(** ** C1: decoding an encoded existing path *)

(** C1, as stated, fails when two interpretations of the same encoding
    exist: with both [/a-b] and [/a/b] on the filesystem, the encoding
    [-a-b] of [/a-b] decodes to [/a/b], because the new-segment hypothesis
    is tried first and its first validated candidate is returned. *)
Lemma decode_encode_ambiguous :
  let h := pathsHost [lit "/a-b"; lit "/a/b"] in
  existsSync h (lit "/a-b") = true /\
  decodeProjectPath h (encodeProjectPath (lit "/a-b")) = lit "/a/b" /\
  decodeProjectPath h (encodeProjectPath (lit "/a-b")) <> lit "/a-b".
Proof. vm_compute. repeat split. discriminate. Qed.

(** A segment that begins with a dash is out of reach as well:
    [path.join] drops the empty token in front of it, so [/x/-a] is not
    among the interpretations of its own encoding and the naive fallback
    comes back. *)
Example decode_encode_leading_dash :
  let h := pathsHost [root; lit "/x"; lit "/x/-a"] in
  existsSync h (lit "/x/-a") = true /\
  candidates (partsOf (encodeProjectPath (lit "/x/-a"))) root =
    [lit "/x/a"; lit "/x-a"; lit "/x-/a"; lit "/x--a"] /\
  decodeProjectPath h (encodeProjectPath (lit "/x/-a")) = lit "/x//a".
Proof. vm_compute. repeat split. Qed.

(** C1 (amended): for an absolute path [p] whose segments contain no [/]
    and start with a token [path.join] keeps (not empty, not [.] or [..]),
    if [p] exists at decode time then [decodeProjectPath (encodeProjectPath
    p)] is an existing path, one of the interpretations of the encoding, and
    is the first existing one in search order; so it is [p] itself whenever
    [p] is the only interpretation that exists. *)
Theorem decode_encode_existing (h : Host) (segs : list str) :
  forallb segmentOk segs = true ->
  existsSync h (renderPath segs) = true ->
  let p := renderPath segs in
  let interpretations := candidates (partsOf (encodeProjectPath p)) root in
  let d := decodeProjectPath h (encodeProjectPath p) in
  existsSync h d = true /\
  In d interpretations /\
  find (existsSync h) interpretations = Some d /\
  ((forall c, In c interpretations -> existsSync h c = true -> c = p) ->
   d = p).
Proof.
  intros Hsegs Hex p interpretations d.
  pose proof (path_is_candidate segs Hsegs) as Hin.
  fold p in Hin. fold interpretations in Hin.
  subst d. rewrite decodeProjectPath_candidates. cbv zeta.
  fold (partsOf (encodeProjectPath p)). fold interpretations.
  destruct (find (existsSync h) interpretations) as [d|] eqn:E.
  - destruct (find_some _ _ E) as [Hd Hdex].
    repeat split; auto.
  - exfalso. pose proof (find_none _ _ E p Hin) as Hno.
    fold p in Hex. congruence.
Qed.

Lemma decode_encode_existing_witness :
  decodeProjectPath (pathsHost [lit "/a-b"; lit "/a"])
    (encodeProjectPath (lit "/a-b")) = lit "/a-b".
Proof.
  apply (decode_encode_existing (pathsHost [lit "/a-b"; lit "/a"])
           [lit "a-b"]); [reflexivity | reflexivity |].
  intros c Hin Hex. vm_compute in Hin.
  destruct Hin as [<-|[<-|[]]]; [discriminate Hex | reflexivity].
Defined.

(** ** C8: decoding is total and falls back to the naive decode *)

(** C8: [decodeProjectPath] is a total function (the recursion of
    [findValidPath] is well founded on [parts.length - index]); its result is
    never empty, and when none of the interpretations exists on the
    filesystem, that is when the search returns [null], it is the naive
    decode: [/] followed by the tokens joined with [/]. *)
Theorem decode_total_fallback (h : Host) (encoded : str) :
  let parts := split dash (stripLeadingDash encoded) in
  decodeProjectPath h encoded <> [] /\
  (findValidPath h parts 0 root = None <->
   forall c, In c (candidates parts root) -> existsSync h c = false) /\
  ((forall c, In c (candidates parts root) -> existsSync h c = false) ->
   decodeProjectPath h encoded = slash :: join [slash] parts).
Proof.
  intros parts. split; [|split].
  - rewrite decodeProjectPath_candidates. cbv zeta. fold parts.
    destruct (find (existsSync h) (candidates parts root)) as [d|] eqn:E;
      [|discriminate].
    apply find_some in E. destruct E as [Hin _].
    apply (candidates_nonempty parts root); [discriminate | exact Hin].
  - apply findValidPath_none.
  - intros Hnone. rewrite decodeProjectPath_candidates. cbv zeta. fold parts.
    destruct (find (existsSync h) (candidates parts root)) as [d|] eqn:E;
      [|reflexivity].
    apply find_some in E. destruct E as [Hin Hex].
    rewrite (Hnone d Hin) in Hex. discriminate.
Qed.

Lemma decode_total_fallback_witness :
  decodeProjectPath (pathsHost []) (lit "-Volumes-Agents-Active-Research")
  = lit "/Volumes/Agents/Active/Research".
Proof.
  apply (decode_total_fallback (pathsHost [])
           (lit "-Volumes-Agents-Active-Research")).
  intros c _. reflexivity.
Defined.

(** ** C3: when the search asks the filesystem *)

(** The paths a log asked [fs.existsSync] about, in order. *)
Definition queriesOf (log : list SearchEvent) : list str :=
  flat_map (fun e => match e with
                     | Query c => [c]
                     | Extend _ _ => []
                     end) log.

(** The elements of [xs] up to and including the first that satisfies [f]. *)
Fixpoint takeThrough {A : Type} (f : A -> bool) (xs : list A) : list A :=
  match xs with
  | [] => []
  | x :: xs' => if f x then [x] else x :: takeThrough f xs'
  end.

Lemma takeThrough_append {A : Type} (f : A -> bool) (xs ys : list A) :
  takeThrough f (xs ++ ys) =
  match find f xs with
  | Some _ => takeThrough f xs
  | None => xs ++ takeThrough f ys
  end.
Proof.
  induction xs as [|x xs IH]; simpl; [reflexivity|].
  destruct (f x); [reflexivity|]. rewrite IH.
  destruct (find f xs); reflexivity.
Qed.

Lemma takeThrough_none {A : Type} (f : A -> bool) (xs : list A) :
  find f xs = None -> takeThrough f xs = xs.
Proof.
  induction xs as [|x xs IH]; simpl; [reflexivity|].
  destruct (f x); [discriminate|]. intros H. now rewrite IH.
Qed.

Lemma queriesOf_app (a b : list SearchEvent) :
  queriesOf (a ++ b) = queriesOf a ++ queriesOf b.
Proof. apply flat_map_app. Qed.

(** The two functions written as one equation each. *)
Lemma findValidPath_log_body (h : Host) (parts : list str) (index : nat)
  (currentPath : str) :
  findValidPath_log h parts index currentPath =
  if length parts <=? index then
    (if existsSync h currentPath then Some currentPath else None,
     [Query currentPath])
  else
    let asNew := path_join currentPath (nth index parts []) in
    let new := findValidPath_log h parts (index + 1) asNew in
    if truthy (fst new) then (fst new, Extend index currentPath :: snd new)
    else if negb (str_eqb currentPath root) then
      let asJoined :=
        path_join (path_dirname currentPath)
          (path_basename currentPath ++ dash :: nth index parts []) in
      let joined := findValidPath_log h parts (index + 1) asJoined in
      (if truthy (fst joined) then fst joined else None,
       Extend index currentPath :: snd new ++ snd joined)
    else (None, Extend index currentPath :: snd new).
Proof.
  simp findValidPath_log.
  destruct (le_lt_dec (length parts) index) as [Hle|Hlt];
    cbn [findValidPath_log_clause_1 findValidPath_log_unfold_clause_1].
  - now rewrite (proj2 (Nat.leb_le _ _) Hle).
  - rewrite (proj2 (Nat.leb_gt _ _) Hlt). cbv zeta.
    destruct (findValidPath_log h parts (index + 1) _) as [rn ln].
    cbn [fst snd]. destruct (truthy rn); [reflexivity|].
    destruct (negb (str_eqb currentPath root)); [|reflexivity].
    destruct (findValidPath_log h parts (index + 1) _) as [rj lj].
    reflexivity.
Qed.

Lemma findValidPath_body (h : Host) (parts : list str) (index : nat)
  (currentPath : str) :
  findValidPath h parts index currentPath =
  if length parts <=? index then
    if existsSync h currentPath then Some currentPath else None
  else
    let asNew := path_join currentPath (nth index parts []) in
    let new := findValidPath h parts (index + 1) asNew in
    if truthy new then new
    else if negb (str_eqb currentPath root) then
      let asJoined :=
        path_join (path_dirname currentPath)
          (path_basename currentPath ++ dash :: nth index parts []) in
      let joined := findValidPath h parts (index + 1) asJoined in
      if truthy joined then joined else None
    else None.
Proof.
  simp findValidPath.
  destruct (le_lt_dec (length parts) index) as [Hle|Hlt];
    cbn [findValidPath_clause_1 findValidPath_unfold_clause_1].
  - now rewrite (proj2 (Nat.leb_le _ _) Hle).
  - now rewrite (proj2 (Nat.leb_gt _ _) Hlt).
Qed.

(** The logged search is the search. *)
Lemma findValidPath_log_result (h : Host) (parts : list str) (index : nat)
  (currentPath : str) :
  fst (findValidPath_log h parts index currentPath) =
  findValidPath h parts index currentPath.
Proof.
  remember (length parts - index) as n eqn:En.
  revert index currentPath En.
  induction n as [|n IH]; intros index currentPath En;
    rewrite findValidPath_log_body, findValidPath_body.
  - assert (Hle : (length parts <=? index) = true) by (apply Nat.leb_le; lia).
    now rewrite Hle.
  - assert (Hgt : (length parts <=? index) = false) by (apply Nat.leb_gt; lia).
    rewrite Hgt. cbv zeta.
    rewrite <- !(IH (index + 1)) by lia.
    destruct (truthy (fst (findValidPath_log h parts (index + 1)
                             (path_join currentPath (nth index parts [])))));
      [reflexivity|].
    destruct (negb (str_eqb currentPath root)); reflexivity.
Qed.

(** What the search asks the filesystem: the candidates, in order, up to
    and including the first that exists. *)
Lemma findValidPath_log_queries (h : Host) (parts : list str) (index : nat)
  (currentPath : str) :
  currentPath <> [] ->
  queriesOf (snd (findValidPath_log h parts index currentPath)) =
  takeThrough (existsSync h) (candidates (skipn index parts) currentPath).
Proof.
  remember (length parts - index) as n eqn:En.
  revert index currentPath En.
  induction n as [|n IH]; intros index currentPath En Hcur;
    rewrite findValidPath_log_body.
  - assert (Hle : (length parts <=? index) = true) by (apply Nat.leb_le; lia).
    rewrite Hle, skipn_all2 by lia. cbn.
    destruct (existsSync h currentPath); reflexivity.
  - assert (Hgt : (length parts <=? index) = false) by (apply Nat.leb_gt; lia).
    rewrite Hgt, (skipn_step parts index) by lia. cbv zeta.
    cbn [candidates]. rewrite takeThrough_append.
    pose proof (IH (index + 1) (path_join currentPath (nth index parts []))
                  ltac:(lia) (path_join_nonempty _ _)) as Qnew.
    pose proof (IH (index + 1)
                  (path_join (path_dirname currentPath)
                     (path_basename currentPath ++ dash :: nth index parts []))
                  ltac:(lia) (path_join_nonempty _ _)) as Qjoined.
    rewrite !findValidPath_log_result.
    rewrite (findValidPath_candidates h parts (index + 1)
               (path_join currentPath (nth index parts [])))
      by apply path_join_nonempty.
    rewrite truthy_find
      by (apply candidates_nonempty; apply path_join_nonempty).
    destruct (find (existsSync h)
                (candidates (skipn (index + 1) parts)
                   (path_join currentPath (nth index parts [])))) eqn:Efind.
    + cbn [snd queriesOf flat_map app]. exact Qnew.
    + rewrite (takeThrough_none _ _ Efind) in Qnew.
      destruct (negb (str_eqb currentPath root)).
      * cbn [snd]. change (queriesOf (Extend index currentPath :: ?l))
          with (queriesOf l).
        now rewrite queriesOf_app, Qnew, Qjoined.
      * cbn [snd takeThrough].
        change (queriesOf (Extend index currentPath :: ?l))
          with (queriesOf l).
        now rewrite Qnew, app_nil_r.
Qed.

Lemma takeThrough_incl {A : Type} (f : A -> bool) (xs : list A) (x : A) :
  In x (takeThrough f xs) -> In x xs.
Proof.
  induction xs as [|y xs IH]; simpl; [tauto|].
  destruct (f y); simpl; intuition.
Qed.

(** C3, as stated, fails: nothing is pruned.  On a filesystem that holds
    only [/], the search over the tokens [a], [b] goes on from the partial
    path [/a], which does not exist, and asks about both complete paths
    below it. *)
Lemma search_extends_missing_prefix :
  let h := pathsHost [root] in
  let log := snd (findValidPath_log h [lit "a"; lit "b"] 0 root) in
  existsSync h (lit "/a") = false /\
  In (Extend 1 (lit "/a")) log /\
  queriesOf log = [lit "/a/b"; lit "/a-b"].
Proof. vm_compute. repeat split. right. left. reflexivity. Qed.

(** C3 (amended): [findValidPath] defers every existence check until all
    tokens are consumed.  The paths it asks the filesystem about are the
    complete candidates, in search order, up to and including the first one
    that exists; no partial path is checked, so no branch is cut short
    because its prefix is missing. *)
Theorem search_checks_complete_candidates (h : Host) (parts : list str) :
  let run := findValidPath_log h parts 0 root in
  fst run = findValidPath h parts 0 root /\
  queriesOf (snd run) =
    takeThrough (existsSync h) (candidates parts root) /\
  (findValidPath h parts 0 root = None ->
   queriesOf (snd run) = candidates parts root).
Proof.
  intros run. subst run. split; [|split].
  - apply findValidPath_log_result.
  - now rewrite findValidPath_log_queries by discriminate.
  - intros Hnone. rewrite findValidPath_log_queries by discriminate.
    cbn [skipn]. apply takeThrough_none.
    rewrite findValidPath_candidates in Hnone by discriminate. exact Hnone.
Qed.

Lemma search_checks_complete_candidates_witness :
  queriesOf (snd (findValidPath_log (pathsHost [root])
                    [lit "a"; lit "b"; lit "c"] 0 root)) =
  [lit "/a/b/c"; lit "/a/b-c"; lit "/a-b/c"; lit "/a-b-c"].
Proof.
  apply (search_checks_complete_candidates (pathsHost [root])
           [lit "a"; lit "b"; lit "c"]).
  reflexivity.
Defined.

(* ===================================================================== *)
(** * 12. SessionIndexer: what [parseSessionFile] and [getSessions] compute *)
(* ===================================================================== *)

(** The entries of a file: the lines [JSON.parse] accepts. *)
Definition entriesOf (h : Host) (lines : list str) : list SessionEntry :=
  flat_map (fun line => match JSON_parse h line with
                        | Some entry => [entry]
                        | None => []
                        end) lines.

Lemma fold_parseLine (h : Host) (lines : list str) (st : ParseState) :
  fold_left (parseLine h) lines st =
  fold_left (parseEntry h) (entriesOf h lines) st.
Proof.
  revert st. induction lines as [|line lines IH]; intros st; [reflexivity|].
  cbn [fold_left entriesOf flat_map]. fold (entriesOf h lines).
  unfold parseLine at 2. destruct (JSON_parse h line); cbn [app fold_left];
    apply IH.
Qed.

Definition isMessage (entry : SessionEntry) : bool :=
  isUser entry || isAssistant entry.

Definition hasMessage (entry : SessionEntry) : bool :=
  match e_message entry with
  | Some _ => true
  | None => false
  end.

Definition isNull {A : Type} (v : option A) : bool :=
  match v with
  | Some _ => false
  | None => true
  end.

(** The entry's content is an array that holds [null]. *)
Definition nullBlock (entry : SessionEntry) : bool :=
  match e_message entry with
  | Some m =>
      match m_content m with
      | CBlocks bs => existsb isNull bs
      | _ => false
      end
  | None => false
  end.

(** The trimmed text of an entry's message (empty where reading it
    throws). *)
Definition userText (entry : SessionEntry) : str :=
  match e_message entry with
  | Some m =>
      match messageText (m_content m) with
      | Ok text => trim text
      | Throw => []
      end
  | None => []
  end.

(** The loop body throws on [entry]: a user entry with a [null] block, read
    while no first user message is held. *)
Definition throwsAt (st : ParseState) (entry : SessionEntry) : bool :=
  isUser entry && negb (truthy (st_firstUserMessage st)) && nullBlock entry.

Lemma blockTexts_throws (bs : list (option ContentBlock)) :
  match blockTexts bs with
  | Ok _ => existsb isNull bs = false
  | Throw => existsb isNull bs = true
  end.
Proof.
  induction bs as [|[b|] bs IH]; cbn [blockTexts existsb isNull orb];
    [reflexivity | | reflexivity].
  destruct (blockTexts bs); exact IH.
Qed.

Lemma messageText_throws (m : Message) (e : SessionEntry) :
  e_message e = Some m ->
  match messageText (m_content m) with
  | Ok _ => nullBlock e = false
  | Throw => nullBlock e = true
  end.
Proof.
  intros Hm. unfold nullBlock, messageText. rewrite Hm.
  destruct (m_content m) as [s|bs|]; [reflexivity | | reflexivity].
  pose proof (blockTexts_throws bs) as H.
  destruct (blockTexts bs); exact H.
Qed.

Lemma user_not_assistant (e : SessionEntry) :
  isUser e = true -> isAssistant e = false.
Proof.
  unfold isUser, isAssistant. intros H. apply str_eqb_eq in H. now rewrite H.
Qed.

(** The loop body in one equation: what it does to each variable, and which
    of them an entry that throws leaves alone. *)
Lemma parseEntry_equation (h : Host) (st : ParseState) (e : SessionEntry) :
  parseEntry h st e =
  mkParseState
    (if str_eqb (e_type e) (lit "summary") && truthy (e_summary e)
     then e_summary e else st_summary st)
    (if isMessage e then S (st_messageCount st) else st_messageCount st)
    (if truthy (e_timestamp e)
     then match st_firstTimestamp st with
          | None => Some (Date_parse h (orElse (e_timestamp e) []))
          | Some f =>
              if date_ltb (Date_parse h (orElse (e_timestamp e) [])) f
              then Some (Date_parse h (orElse (e_timestamp e) []))
              else Some f
          end
     else st_firstTimestamp st)
    (if truthy (e_timestamp e)
     then match st_lastTimestamp st with
          | None => Some (Date_parse h (orElse (e_timestamp e) []))
          | Some l =>
              if date_ltb l (Date_parse h (orElse (e_timestamp e) []))
              then Some (Date_parse h (orElse (e_timestamp e) []))
              else Some l
          end
     else st_lastTimestamp st)
    (if truthy (e_cwd e) && negb (truthy (st_cwd st)) && negb (throwsAt st e)
     then e_cwd e else st_cwd st)
    (if isUser e && hasMessage e && negb (truthy (st_firstUserMessage st)) &&
        negb (nullBlock e)
     then Some (userText e) else st_firstUserMessage st)
    (st_hasRealContent st || isAssistant e)
    (st_isSidechain st || e_isSidechain e).
Proof.
  unfold parseEntry, isMessage, throwsAt, hasMessage, userText.
  replace (if e_isSidechain e then true else st_isSidechain st)
    with (st_isSidechain st || e_isSidechain e)
    by (destruct (e_isSidechain e), (st_isSidechain st); reflexivity).
  destruct (e_timestamp e) as [t|]; [destruct (truthy (Some t)) eqn:Et|];
    cbn [orElse truthy]; try rewrite Et;
  (destruct (isUser e) eqn:Euser;
   [ rewrite (user_not_assistant e Euser); cbn [orb andb];
     rewrite orb_false_r;
     destruct (truthy (st_firstUserMessage st)); cbn [negb andb];
     [ rewrite ?andb_false_r, ?andb_true_r; cbn [negb];
       rewrite ?andb_true_r; reflexivity
     | destruct (e_message e) as [m|] eqn:Em;
       [ pose proof (messageText_throws m e Em) as Hthrow;
         destruct (messageText (m_content m)) as [text|]; cbn [bind];
         rewrite Hthrow; cbn [negb andb]; rewrite ?andb_true_r, ?andb_false_r;
         reflexivity
       | unfold nullBlock; rewrite Em; cbn [negb andb];
         rewrite ?andb_true_r; reflexivity ] ]
   | cbn [orb andb negb]; rewrite ?andb_true_r;
     destruct (isAssistant e); cbn [andb];
     rewrite ?orb_true_r, ?orb_false_r; reflexivity ]).
Qed.

Lemma parseEntry_isSidechain (h : Host) (st : ParseState) (e : SessionEntry) :
  st_isSidechain (parseEntry h st e) = st_isSidechain st || e_isSidechain e.
Proof. now rewrite parseEntry_equation. Qed.

Lemma parseEntry_hasRealContent (h : Host) (st : ParseState)
  (e : SessionEntry) :
  st_hasRealContent (parseEntry h st e) = st_hasRealContent st || isAssistant e.
Proof. now rewrite parseEntry_equation. Qed.

Lemma parseEntry_messageCount (h : Host) (st : ParseState) (e : SessionEntry) :
  st_messageCount (parseEntry h st e) =
  st_messageCount st + (if isMessage e then 1 else 0).
Proof.
  rewrite parseEntry_equation. cbn [st_messageCount].
  destruct (isMessage e); lia.
Qed.

Lemma parseEntry_firstUserMessage (h : Host) (st : ParseState)
  (e : SessionEntry) :
  st_firstUserMessage (parseEntry h st e) =
  if isUser e && hasMessage e && negb (truthy (st_firstUserMessage st)) &&
     negb (nullBlock e)
  then Some (userText e) else st_firstUserMessage st.
Proof. now rewrite parseEntry_equation. Qed.

Lemma fold_isSidechain (h : Host) (es : list SessionEntry) (st : ParseState) :
  st_isSidechain (fold_left (parseEntry h) es st) =
  st_isSidechain st || existsb e_isSidechain es.
Proof.
  revert st. induction es as [|e es IH]; intros st; cbn [fold_left existsb].
  - now rewrite orb_false_r.
  - now rewrite IH, parseEntry_isSidechain, orb_assoc.
Qed.

Lemma fold_hasRealContent (h : Host) (es : list SessionEntry)
  (st : ParseState) :
  st_hasRealContent (fold_left (parseEntry h) es st) =
  st_hasRealContent st || existsb isAssistant es.
Proof.
  revert st. induction es as [|e es IH]; intros st; cbn [fold_left existsb].
  - now rewrite orb_false_r.
  - now rewrite IH, parseEntry_hasRealContent, orb_assoc.
Qed.

Lemma fold_messageCount (h : Host) (es : list SessionEntry) (st : ParseState) :
  st_messageCount (fold_left (parseEntry h) es st) =
  st_messageCount st + length (filter isMessage es).
Proof.
  revert st. induction es as [|e es IH]; intros st; cbn [fold_left filter].
  - simpl. lia.
  - rewrite IH, parseEntry_messageCount.
    destruct (isMessage e); simpl; lia.
Qed.

(** The user message the loop ends up holding: the first one that can be
    read and whose trimmed text is not empty. *)
Definition keepsFirstUser (e : SessionEntry) : bool :=
  isUser e && hasMessage e && negb (nullBlock e) && truthy (Some (userText e)).

Lemma fold_firstUserMessage_kept (h : Host) (es : list SessionEntry)
  (st : ParseState) :
  truthy (st_firstUserMessage st) = true ->
  st_firstUserMessage (fold_left (parseEntry h) es st) = st_firstUserMessage st.
Proof.
  revert st. induction es as [|e es IH]; intros st Hst; [reflexivity|].
  cbn [fold_left]. rewrite IH; rewrite parseEntry_firstUserMessage, Hst;
    cbn [negb]; rewrite andb_false_r; auto.
Qed.

Lemma fold_firstUserMessage (h : Host) (es : list SessionEntry)
  (st : ParseState) :
  truthy (st_firstUserMessage st) = false ->
  match find keepsFirstUser es with
  | Some e =>
      st_firstUserMessage (fold_left (parseEntry h) es st) = Some (userText e)
  | None =>
      truthy (st_firstUserMessage (fold_left (parseEntry h) es st)) = false
  end.
Proof.
  revert st. induction es as [|e es IH]; intros st Hst; [exact Hst|].
  cbn [find fold_left]. unfold keepsFirstUser at 1.
  destruct (isUser e && hasMessage e && negb (nullBlock e)) eqn:Euser;
    cbn [andb].
  - assert (Hpick : isUser e && hasMessage e &&
                    negb (truthy (st_firstUserMessage st)) &&
                    negb (nullBlock e) = true).
    { rewrite Hst. cbn [negb]. now rewrite andb_true_r. }
    destruct (truthy (Some (userText e))) eqn:Etext.
    + rewrite fold_firstUserMessage_kept;
        rewrite parseEntry_firstUserMessage, Hpick; auto.
    + apply IH. rewrite parseEntry_firstUserMessage, Hpick. exact Etext.
  - apply IH. rewrite parseEntry_firstUserMessage.
    assert (Hskip : isUser e && hasMessage e &&
                    negb (truthy (st_firstUserMessage st)) &&
                    negb (nullBlock e) = false).
    { rewrite Hst. cbn [negb]. now rewrite andb_true_r. }
    now rewrite Hskip.
Qed.

Lemma falsy_not_warmup (v : option str) :
  truthy v = false -> option_str_eqb v warmup = false.
Proof. destruct v as [[|c s]|]; [reflexivity | discriminate | reflexivity]. Qed.

(** Rule 3 as the code applies it. *)
Definition warmupByCode (es : list SessionEntry) : bool :=
  match find keepsFirstUser es with
  | Some e => str_eqb (userText e) warmup
  | None => false
  end.

Lemma fold_warmup (h : Host) (es : list SessionEntry) :
  option_str_eqb
    (st_firstUserMessage (fold_left (parseEntry h) es initialState)) warmup
  = warmupByCode es.
Proof.
  pose proof (fold_firstUserMessage h es initialState eq_refl) as H.
  unfold warmupByCode. destruct (find keepsFirstUser es).
  - now rewrite H.
  - now apply falsy_not_warmup.
Qed.

(** The five exclusion tests of [parseSessionFile], on the entries. *)
Definition excludedByCode (h : Host) (stats : Stats) (text : str) : bool :=
  let es := entriesOf h (contentLines text) in
  (size stats =? 0) ||
  (length (contentLines text) =? 0) ||
  warmupByCode es ||
  existsb e_isSidechain es ||
  (negb (existsb isAssistant es) && (length (filter isMessage es) <? 2)).

(** [parseSessionFile] returns [null] exactly when one of its five tests
    fires. *)
Lemma parseSessionFile_null (h : Host) (filePath sessionId projectPath : str)
  (stats : Stats) (text : str) :
  statSync h filePath = Ok stats ->
  readFileSync h filePath = Ok text ->
  (parseSessionFile h filePath sessionId projectPath = Ok None <->
   excludedByCode h stats text = true).
Proof.
  intros Hstat Hread. unfold parseSessionFile, excludedByCode.
  rewrite Hstat. cbn [bind].
  destruct (size stats =? 0); [cbn [orb]; tauto|].
  rewrite Hread. cbn [bind orb].
  destruct (length (contentLines text) =? 0); [cbn [orb]; tauto|].
  cbn [orb]. rewrite fold_parseLine, fold_warmup.
  destruct (warmupByCode _); [cbn [orb]; tauto|]. cbn [orb].
  rewrite fold_isSidechain. cbn [initialState st_isSidechain orb].
  destruct (existsb e_isSidechain _); [cbn [orb]; tauto|]. cbn [orb].
  rewrite fold_hasRealContent, fold_messageCount.
  cbn [initialState st_hasRealContent st_messageCount orb plus].
  destruct (negb _ && _); [tauto|]. split; discriminate.
Qed.

(** ** C2: the exclusion rules *)

(** Rule 3 as the claim words it: the trimmed text of the first user
    message is the sentinel. *)
Definition firstUserMessageText (es : list SessionEntry) : option str :=
  option_map userText (find (fun e => isUser e && hasMessage e) es).

Definition warmupByRule (es : list SessionEntry) : bool :=
  option_str_eqb (firstUserMessageText es) warmup.

(** The five rules of the claim, in its order. *)
Definition excludedByRules (h : Host) (stats : Stats) (text : str) : bool :=
  let es := entriesOf h (contentLines text) in
  (size stats =? 0) ||
  (length (contentLines text) =? 0) ||
  warmupByRule es ||
  existsb e_isSidechain es ||
  (negb (existsb isAssistant es) && (length (filter isMessage es) <? 2)).

Lemma userText_nullBlock (e : SessionEntry) :
  nullBlock e = true -> userText e = [].
Proof.
  unfold userText. intros Hnull.
  destruct (e_message e) as [m|] eqn:Em; [|reflexivity].
  pose proof (messageText_throws m e Em) as H.
  destruct (messageText (m_content m)); [congruence | reflexivity].
Qed.

Lemma warmupByRule_code (es : list SessionEntry) :
  warmupByRule es = true -> warmupByCode es = true.
Proof.
  unfold warmupByRule, warmupByCode, firstUserMessageText.
  induction es as [|e es IH]; cbn [find]; [discriminate|].
  unfold keepsFirstUser at 1.
  destruct (isUser e && hasMessage e); cbn [andb option_map option_str_eqb].
  - intros H. pose proof H as E. apply str_eqb_eq in E.
    destruct (nullBlock e) eqn:Enull.
    + rewrite (userText_nullBlock e Enull) in E. discriminate.
    + rewrite E. change (truthy (Some warmup)) with true.
      cbn [negb andb]. rewrite E. apply str_eqb_refl.
  - exact IH.
Qed.

(** Whenever one of the claim's rules fires, the file is skipped. *)
Lemma excludedByRules_null (h : Host) (filePath sessionId projectPath : str)
  (stats : Stats) (text : str) :
  statSync h filePath = Ok stats ->
  readFileSync h filePath = Ok text ->
  excludedByRules h stats text = true ->
  parseSessionFile h filePath sessionId projectPath = Ok None.
Proof.
  intros Hstat Hread H.
  apply (parseSessionFile_null h filePath sessionId projectPath stats text);
    try assumption.
  unfold excludedByRules in H. unfold excludedByCode. cbv zeta in *.
  repeat (apply orb_true_iff in H; destruct H as [H|H]);
    rewrite ?H, ?orb_true_r; try reflexivity.
  now rewrite (warmupByRule_code _ H), ?orb_true_r.
Qed.

(** In particular: a file whose first user message is the sentinel is
    skipped whatever its message count, and a file with a sidechain entry is
    skipped whatever else it holds. *)
Lemma warmup_or_sidechain_null (h : Host)
  (filePath sessionId projectPath : str) (stats : Stats) (text : str) :
  statSync h filePath = Ok stats ->
  readFileSync h filePath = Ok text ->
  warmupByRule (entriesOf h (contentLines text)) = true \/
  existsb e_isSidechain (entriesOf h (contentLines text)) = true ->
  parseSessionFile h filePath sessionId projectPath = Ok None.
Proof.
  intros Hstat Hread H.
  apply (excludedByRules_null h filePath sessionId projectPath stats text);
    try assumption.
  unfold excludedByRules. cbv zeta.
  destruct H as [H|H]; rewrite H, ?orb_true_r; reflexivity.
Qed.

(** A corpus with one project directory, [/home/u/proj], holding the given
    transcript files: name, lines with the entries they parse to, and
    modification time. *)
Definition corpusRoot : str := lit "/home/u/.claude/projects".

Definition projectDir : str := lit "/home/u/.claude/projects/-home-u-proj".

Definition TranscriptFile : Type := (str * list (str * SessionEntry) * Z)%type.

Definition corpusHost (files : list TranscriptFile) : Host :=
  memHost (lit "/home/u")
    ([(corpusRoot, MemDir [mkDirent (lit "-home-u-proj") true]);
      (projectDir,
       MemDir (map (fun f : TranscriptFile => mkDirent (fst (fst f)) false)
                 files))] ++
     map (fun f : TranscriptFile =>
            (path_join projectDir (fst (fst f)),
             fileOf (map fst (snd (fst f))) (snd f))) files)
    (flat_map (fun f : TranscriptFile => snd (fst f)) files).

(** A user message that carries an image and no text. *)
Definition imageOnlyEntry : SessionEntry :=
  mkEntry (lit "user") None None None
    (Some (mkMessage (lit "user")
             (CBlocks [Some (mkBlock (lit "image") None None None)]))) false.

Definition lateWarmupFile : TranscriptFile :=
  (lit "late.jsonl",
   [(lit "{user: [image]}", imageOnlyEntry);
    (lit "{user: Warmup}", userEntry (lit "Warmup") None);
    (lit "{assistant: Hello}", assistantEntry (lit "Hello") None)],
   1000%Z).

(** C2: the code skips a file that none of the five rules covers.  In a
    transcript whose first user message has no text (an image), whose second
    user message is [Warmup] and which has an assistant reply, the first
    user message is not the sentinel, nothing is a sidechain and there is
    real content; [parseSessionFile] still returns [null], because
    [!firstUserMessage] takes the empty text it captured for a value not
    captured yet and captures the next user message in its place. *)
Theorem late_warmup_excluded :
  let h := corpusHost [lateWarmupFile] in
  let filePath := path_join projectDir (lit "late.jsonl") in
  exists stats text,
    statSync h filePath = Ok stats /\
    readFileSync h filePath = Ok text /\
    firstUserMessageText (entriesOf h (contentLines text)) = Some [] /\
    excludedByRules h stats text = false /\
    parseSessionFile h filePath (lit "late") (lit "/home/u/proj") = Ok None.
Proof.
  eexists. eexists. split; [reflexivity|]. split; [reflexivity|].
  vm_compute. repeat split.
Qed.

(** ** C4: the limit and the order of [getSessions] *)

(** [a <= b] on dates: false as soon as one side is invalid. *)
Definition date_leb (a b : Date) : bool :=
  match a, b with
  | Some x, Some y => (x <=? y)%Z
  | _, _ => false
  end.

(** [a] is at least as recent as [b]. *)
Definition notOlder (a b : Session) : Prop :=
  date_leb (lastActivityTime b) (lastActivityTime a) = true.


(** Sorted by [lastActivityTime], most recent first, ties allowed. *)
Definition descending (sessions : list Session) : Prop :=
  StronglySorted notOlder sessions.


(** The session's [lastActivityTime] is a valid date. *)
Definition validActivity (session : Session) : bool :=
  negb (isNull (lastActivityTime session)).

(** The [sessions] array of [getSessions] as the two loops leave it, before
    it is sorted and cut. *)
Definition parsedSessions (h : Host) : result (list Session) :=
  if negb (existsSync h (projectsPath h)) then Ok []
  else
    dirents <- readdir h (projectsPath h) ;;
    collectProjects h (filter isProjectDir dirents) [].

Lemma getSessions_parsed (h : Host) (maxSessions : nat) :
  getSessions h maxSessions =
  parsed <- parsedSessions h ;;
  Ok (firstn maxSessions (sort byLastActivity parsed)).
Proof.
  unfold getSessions, parsedSessions.
  destruct (negb _); [cbn [bind sort fold_right]; now rewrite firstn_nil|].
  destruct (readdir h (projectsPath h)) as [dirents|]; reflexivity.
Qed.

Lemma insertSorted_perm {A : Type} (cmp : A -> A -> option Z) (x : A)
  (xs : list A) :
  Permutation (insertSorted cmp x xs) (x :: xs).
Proof.
  induction xs as [|y ys IH]; simpl; [apply Permutation_refl|].
  destruct (sortCompare cmp x y <=? 0)%Z; [apply Permutation_refl|].
  eapply Permutation_trans; [apply perm_skip, IH | apply perm_swap].
Qed.

Lemma sort_perm {A : Type} (cmp : A -> A -> option Z) (xs : list A) :
  Permutation (sort cmp xs) xs.
Proof.
  induction xs as [|x xs IH]; simpl; [apply Permutation_refl|].
  eapply Permutation_trans; [apply insertSorted_perm | now apply perm_skip].
Qed.

Lemma validActivity_time (s : Session) :
  validActivity s = true -> exists t, lastActivityTime s = Some t.
Proof.
  unfold validActivity. destruct (lastActivityTime s) as [t|];
    [now exists t | discriminate].
Qed.

Lemma insertSorted_descending (x : Session) (xs : list Session) :
  validActivity x = true -> forallb validActivity xs = true ->
  descending xs -> descending (insertSorted byLastActivity x xs).
Proof.
  unfold descending. intros Hx.
  destruct (validActivity_time x Hx) as [tx Etx].
  induction xs as [|y ys IH]; intros Hvalid Hs; simpl.
  - constructor; constructor.
  - cbn [forallb] in Hvalid. apply andb_true_iff in Hvalid.
    destruct Hvalid as [Hy Hvalid].
    destruct (validActivity_time y Hy) as [ty Ety].
    apply StronglySorted_inv in Hs. destruct Hs as [Hys Hall].
    unfold sortCompare, byLastActivity. rewrite Etx, Ety.
    destruct (Z.leb_spec (ty - tx) 0) as [Hle|Hgt].
    + constructor; [constructor; assumption|].
      constructor.
      * unfold notOlder. rewrite Etx, Ety. cbn [date_leb].
        apply Z.leb_le. lia.
      * rewrite Forall_forall in *. intros z Hz. specialize (Hall z Hz).
        unfold notOlder in *. rewrite Etx. rewrite Ety in Hall.
        destruct (lastActivityTime z) as [tz|]; [|discriminate].
        cbn [date_leb] in *. apply Z.leb_le. apply Z.leb_le in Hall. lia.
    + constructor; [now apply IH|].
      rewrite Forall_forall in *. intros z Hz.
      apply (Permutation_in _ (insertSorted_perm byLastActivity x ys)) in Hz.
      destruct Hz as [<-|Hz]; [|now apply Hall].
      unfold notOlder. rewrite Etx, Ety. cbn [date_leb].
      apply Z.leb_le. lia.
Qed.

Lemma sort_descending (xs : list Session) :
  forallb validActivity xs = true -> descending (sort byLastActivity xs).
Proof.
  induction xs as [|x xs IH]; simpl; intros Hvalid; [constructor|].
  apply andb_true_iff in Hvalid. destruct Hvalid as [Hx Hvalid].
  apply insertSorted_descending; [exact Hx | | now apply IH].
  apply forallb_forall. intros z Hz.
  apply (Permutation_in _ (sort_perm byLastActivity xs)) in Hz.
  now apply (proj1 (forallb_forall _ _) Hvalid).
Qed.

Lemma in_firstn {A : Type} (n : nat) (xs : list A) (x : A) :
  In x (firstn n xs) -> In x xs.
Proof.
  intros H. rewrite <- (firstn_skipn n xs). apply in_or_app. now left.
Qed.

Lemma firstn_descending (n : nat) (xs : list Session) :
  descending xs -> descending (firstn n xs).
Proof.
  unfold descending. revert n. induction xs as [|x xs IH]; intros n Hs.
  - rewrite firstn_nil. constructor.
  - destruct n as [|n]; [constructor|]. simpl.
    apply StronglySorted_inv in Hs. destruct Hs as [Hxs Hx].
    constructor; [now apply IH|].
    rewrite Forall_forall in *. intros z Hz. apply Hx.
    now apply (in_firstn n xs).
Qed.

(** What [getSessions] returns, when it returns: the first [maxSessions] of
    the collected sessions in sorted order. *)
Lemma getSessions_returns (h : Host) (maxSessions : nat)
  (sessions : list Session) :
  getSessions h maxSessions = Ok sessions ->
  exists collected,
    parsedSessions h = Ok collected /\
    sessions = firstn maxSessions (sort byLastActivity collected).
Proof.
  rewrite getSessions_parsed.
  destruct (parsedSessions h) as [collected|]; [|discriminate].
  cbn [bind]. intros E. injection E as <-. now exists collected.
Qed.

(** With valid activity times the result is in order. *)
Lemma getSessions_descending (h : Host) (maxSessions : nat)
  (parsed sessions : list Session) :
  parsedSessions h = Ok parsed ->
  forallb validActivity parsed = true ->
  getSessions h maxSessions = Ok sessions -> descending sessions.
Proof.
  intros Hparsed Hvalid H.
  destruct (getSessions_returns h maxSessions sessions H)
    as (collected & Hcollected & ->).
  rewrite Hparsed in Hcollected. injection Hcollected as <-.
  now apply firstn_descending, sort_descending.
Qed.

Definition plainSession (name : str) (modified : Z) : TranscriptFile :=
  (name,
   [(lit "{user: Fix the parser}", userEntry (lit "Fix the parser") None);
    (lit "{assistant: Fixed it, see diff}",
     assistantEntry (lit "Fixed it, see diff") None)],
   modified).



Definition threeTimes : list TranscriptFile :=
  [plainSession (lit "a.jsonl") 1000; plainSession (lit "b.jsonl") 3000;
   plainSession (lit "c.jsonl") 2000].

(** The sessions parsed from [threeTimes], in the order of the walk. *)
Definition threeParsed : list Session :=
  match parsedSessions (corpusHost threeTimes) with
  | Ok parsed => parsed
  | Throw => []
  end.


Example getSessions_limit_two :
  exists s1 s2,
    map session_id threeParsed = [lit "a"; lit "b"; lit "c"] /\
    getSessions (corpusHost threeTimes) 2 = Ok [s1; s2] /\
    session_id s1 = lit "b" /\ session_id s2 = lit "c".
Proof. eexists. eexists. vm_compute. repeat split. Qed.

(** ** C9: what [getSessions] recovers from *)

(** What one session file adds to [sessions]: the session parsed from it,
    nothing when the parse throws or yields [null]. *)
Definition sessionOfFile (h : Host) (projectPath decodedProjectPath : str)
  (sessionFile : str) : list Session :=
  match parseSessionFile h (path_join projectPath sessionFile)
          (removeFirst sessionFile jsonlExt) decodedProjectPath with
  | Ok (Some session) => [session]
  | _ => []
  end.

(** What one project directory adds: what its session files add, in the
    order they are listed. *)
Definition sessionsOfProject (h : Host) (projectDir : Dirent) : list Session :=
  let projectPath := path_join (projectsPath h) (d_name projectDir) in
  match readdirSync h projectPath with
  | Ok names =>
      flat_map (sessionOfFile h projectPath
                  (decodeProjectPath h (d_name projectDir)))
        (filter isSessionFile names)
  | Throw => []
  end.

(** The project directory can be listed. *)
Definition listable (h : Host) (projectDir : Dirent) : bool :=
  match readdir h (path_join (projectsPath h) (d_name projectDir)) with
  | Ok _ => true
  | Throw => false
  end.

Lemma collectFiles_flat_map (h : Host) (projectPath decoded : str)
  (files : list str) (acc : list Session) :
  collectFiles h projectPath decoded files acc =
  acc ++ flat_map (sessionOfFile h projectPath decoded) files.
Proof.
  revert acc. induction files as [|f files IH]; intros acc;
    cbn [collectFiles flat_map]; [now rewrite app_nil_r|].
  unfold sessionOfFile at 1.
  destruct (parseSessionFile h (path_join projectPath f) _ decoded)
    as [[s|]|]; rewrite IH; [now rewrite <- app_assoc | reflexivity..].
Qed.

Lemma collectFiles_skips (h : Host) (projectPath decoded : str)
  (before : list str) (bad : str) (after : list str) (acc : list Session) :
  parseSessionFile h (path_join projectPath bad) (removeFirst bad jsonlExt)
    decoded = Throw ->
  collectFiles h projectPath decoded (before ++ bad :: after) acc =
  collectFiles h projectPath decoded (before ++ after) acc.
Proof.
  intros Hbad. rewrite !collectFiles_flat_map, !flat_map_app.
  cbn [flat_map]. unfold sessionOfFile at 2. now rewrite Hbad.
Qed.

Lemma collectProjects_flat_map (h : Host) (dirs : list Dirent)
  (acc : list Session) :
  forallb (listable h) dirs = true ->
  collectProjects h dirs acc = Ok (acc ++ flat_map (sessionsOfProject h) dirs).
Proof.
  revert acc. induction dirs as [|d dirs IH]; intros acc Hdirs;
    cbn [collectProjects flat_map]; [now rewrite app_nil_r|].
  cbn [forallb] in Hdirs. apply andb_true_iff in Hdirs.
  destruct Hdirs as [Hd Hdirs].
  unfold sessionsOfProject at 1, readdirSync. unfold listable in Hd.
  destruct (readdir h (path_join (projectsPath h) (d_name d))) as [ds|];
    [|discriminate].
  cbn [bind]. rewrite IH by exact Hdirs.
  now rewrite collectFiles_flat_map, <- app_assoc.
Qed.

Lemma collectProjects_throws (h : Host) (dirs : list Dirent)
  (acc : list Session) :
  forallb (listable h) dirs = false ->
  collectProjects h dirs acc = Throw.
Proof.
  revert acc. induction dirs as [|d dirs IH]; intros acc Hdirs;
    [discriminate|].
  cbn [collectProjects forallb] in *. unfold readdirSync.
  unfold listable in Hdirs at 1.
  destruct (readdir h (path_join (projectsPath h) (d_name d))) as [ds|];
    [|reflexivity].
  cbn [bind andb] in *. now apply IH.
Qed.

Lemma collectProjects_ok (h : Host) (dirs : list Dirent) (acc : list Session) :
  (forall d, In d dirs ->
     exists names,
       readdirSync h (path_join (projectsPath h) (d_name d)) = Ok names) ->
  exists sessions, collectProjects h dirs acc = Ok sessions.
Proof.
  revert acc. induction dirs as [|d dirs IH]; intros acc Hdirs.
  - now exists acc.
  - cbn [collectProjects].
    destruct (Hdirs d (or_introl eq_refl)) as [names ->]. cbn [bind].
    apply IH. intros d' Hd'. apply Hdirs. now right.
Qed.

(** A project directory that cannot be listed. *)
Definition deniedHost : Host :=
  memHost (lit "/home/u")
    [(corpusRoot, MemDir [mkDirent (lit "-home-u-proj") true]);
     (projectDir, MemDenied)] [].

(** The corpus root is there, but it is a regular file. *)
Definition rootIsFileHost : Host :=
  memHost (lit "/home/u") [(corpusRoot, fileOf [] 0)] [].

(** C9, as stated, fails on its first part, never raising: only the
    parse of a session file sits inside a [try].  When a project directory
    cannot be listed, or when the corpus root exists without being a
    directory, [readdirSync] throws and [getSessions] rejects. *)
Lemma getSessions_raises :
  existsSync deniedHost (projectsPath deniedHost) = true /\
  getSessions deniedHost 50 = Throw /\
  existsSync rootIsFileHost (projectsPath rootIsFileHost) = true /\
  getSessions rootIsFileHost 50 = Throw.
Proof. vm_compute. repeat split. Qed.

(** C9 (amended): [getSessions] returns the empty sequence when the corpus
    root does not exist.  When the root and every project directory can be
    listed it does not raise, and what it sorts and cuts is, directory after
    directory and file after file, the session of every session file whose
    parse yields one: a file whose parse throws adds nothing and takes
    nothing away, so every other file of every directory that parses to a
    session is among the sessions it sorts.  It raises when the root exists
    and cannot be listed, and when one of the project directories cannot be
    listed. *)
Theorem getSessions_recovers (h : Host) (maxSessions : nat) :
  (existsSync h (projectsPath h) = false ->
   getSessions h maxSessions = Ok []) /\
  (existsSync h (projectsPath h) = true ->
   readdir h (projectsPath h) = Throw ->
   getSessions h maxSessions = Throw) /\
  (forall dirents,
     existsSync h (projectsPath h) = true ->
     readdir h (projectsPath h) = Ok dirents ->
     forallb (listable h) (filter isProjectDir dirents) = false ->
     getSessions h maxSessions = Throw) /\
  (forall dirents,
     existsSync h (projectsPath h) = true ->
     readdir h (projectsPath h) = Ok dirents ->
     forallb (listable h) (filter isProjectDir dirents) = true ->
     let walked :=
       flat_map (sessionsOfProject h) (filter isProjectDir dirents) in
     getSessions h maxSessions =
       Ok (firstn maxSessions (sort byLastActivity walked)) /\
     (forall d names f session,
        In d dirents -> isProjectDir d = true ->
        readdirSync h (path_join (projectsPath h) (d_name d)) = Ok names ->
        In f names -> isSessionFile f = true ->
        parseSessionFile h
          (path_join (path_join (projectsPath h) (d_name d)) f)
          (removeFirst f jsonlExt) (decodeProjectPath h (d_name d))
        = Ok (Some session) ->
        In session walked) /\
     (forall session,
        In session walked -> length walked <= maxSessions ->
        exists sessions,
          getSessions h maxSessions = Ok sessions /\ In session sessions)).
Proof.
  split; [|split; [|split]].
  - intros H. unfold getSessions. now rewrite H.
  - intros Hexists Hroot. unfold getSessions. now rewrite Hexists, Hroot.
  - intros dirents Hexists Hroot Hdirs. unfold getSessions.
    rewrite Hexists, Hroot. cbn [negb bind].
    now rewrite (collectProjects_throws h _ [] Hdirs).
  - intros dirents Hexists Hroot Hdirs walked.
    assert (Hget : getSessions h maxSessions =
                   Ok (firstn maxSessions (sort byLastActivity walked))).
    { unfold getSessions. rewrite Hexists, Hroot. cbn [negb bind].
      now rewrite (collectProjects_flat_map h _ [] Hdirs). }
    split; [exact Hget|]. split.
    + intros d names f session Hd Hproj Hnames Hf Hfile Hparse.
      apply in_flat_map. exists d. split; [now apply filter_In|].
      unfold sessionsOfProject. rewrite Hnames.
      apply in_flat_map. exists f. split; [now apply filter_In|].
      unfold sessionOfFile. rewrite Hparse. now left.
    + intros session Hin Hlen. eexists. split; [exact Hget|].
      rewrite firstn_all2.
      * apply (Permutation_in _ (Permutation_sym (sort_perm _ walked))).
        exact Hin.
      * now rewrite (Permutation_length (sort_perm byLastActivity walked)).
Qed.

(** A corpus with two project directories, a hidden one and a stray file.
    In the first directory [broken.jsonl] is listed but cannot be opened. *)
Definition otherDir : str := lit "/home/u/.claude/projects/-home-u-other".

Definition brokenFileHost : Host :=
  memHost (lit "/home/u")
    [(corpusRoot, MemDir [mkDirent (lit "-home-u-proj") true;
                          mkDirent (lit ".hidden") true;
                          mkDirent (lit "notes.txt") false;
                          mkDirent (lit "-home-u-other") true]);
     (projectDir, MemDir [mkDirent (lit "a.jsonl") false;
                          mkDirent (lit "broken.jsonl") false;
                          mkDirent (lit "b.jsonl") false]);
     (otherDir, MemDir [mkDirent (lit "c.jsonl") false]);
     (path_join projectDir (lit "a.jsonl"),
      fileOf (map fst (snd (fst (plainSession (lit "a.jsonl") 1000)))) 1000);
     (path_join projectDir (lit "b.jsonl"),
      fileOf (map fst (snd (fst (plainSession (lit "b.jsonl") 2000)))) 2000);
     (path_join otherDir (lit "c.jsonl"),
      fileOf (map fst (snd (fst (plainSession (lit "c.jsonl") 3000)))) 3000)]
    (snd (fst (plainSession (lit "a.jsonl") 1000))).

Example getSessions_skips_broken :
  exists s1 s2 s3,
    parseSessionFile brokenFileHost
      (path_join projectDir (lit "broken.jsonl")) (lit "broken")
      (lit "/home/u/proj") = Throw /\
    getSessions brokenFileHost 50 = Ok [s1; s2; s3] /\
    session_id s1 = lit "c" /\ session_id s2 = lit "b" /\
    session_id s3 = lit "a".
Proof. eexists. eexists. eexists. vm_compute. repeat split. Qed.

Lemma getSessions_recovers_witness :
  getSessions (pathsHost []) 50 = Ok [] /\
  getSessions brokenFileHost 50 =
    Ok (firstn 50
          (sort byLastActivity
             (flat_map (sessionsOfProject brokenFileHost)
                [mkDirent (lit "-home-u-proj") true;
                 mkDirent (lit "-home-u-other") true]))).
Proof.
  split.
  - apply (getSessions_recovers (pathsHost []) 50). reflexivity.
  - edestruct (proj2 (proj2 (proj2 (getSessions_recovers brokenFileHost 50)))
                 [mkDirent (lit "-home-u-proj") true;
                  mkDirent (lit ".hidden") true;
                  mkDirent (lit "notes.txt") false;
                  mkDirent (lit "-home-u-other") true]) as [Hget _].
    + vm_compute. reflexivity.
    + vm_compute. reflexivity.
    + vm_compute. reflexivity.
    + exact Hget.
Defined.

(* ===================================================================== *)
(** * 13. Namer: the passes of [extractTaskFocus] *)
(* ===================================================================== *)






(** ** C5: the five passes, in order *)



(* ===================================================================== *)
(** * 14. TranscriptSearch: what [searchTranscripts] computes *)
(* ===================================================================== *)

(** The test of the inner loop. *)
Definition matches (query : str) (message : ClaudeMessage) : bool :=
  includes (toLowerCase (content message)) (toLowerCase query).

Definition hitFor (query : str) (session : Session) (message : ClaudeMessage)
  : SearchHit :=
  mkHit session message (extractContext query message).

(** The hits of one session: its matching messages, in file order. *)
Definition hitsIn (query : str) (session : Session)
  (messages : list ClaudeMessage) : list SearchHit :=
  map (hitFor query session) (filter (matches query) messages).

(** The messages of a run of sessions, read one after the other. *)
Fixpoint transcripts (h : Host) (sessions : list Session)
  : result (list (Session * list ClaudeMessage)) :=
  match sessions with
  | [] => Ok []
  | session :: rest =>
      messages <- getSessionMessages h (session_id session) ;;
      others <- transcripts h rest ;;
      Ok ((session, messages) :: others)
  end.

(** All hits of the transcripts [ts]: session after session, message after
    message. *)
Definition hitsOf (query : str) (ts : list (Session * list ClaudeMessage))
  : list SearchHit :=
  flat_map (fun t => hitsIn query (fst t) (snd t)) ts.

Lemma firstn_exact {A : Type} (xs ys : list A) :
  firstn (length xs) (xs ++ ys) = xs.
Proof.
  rewrite firstn_app, Nat.sub_diag, firstn_all. cbn [firstn].
  apply app_nil_r.
Qed.

Lemma firstn_within {A : Type} (k : nat) (xs ys : list A) :
  k <= length xs -> firstn k (xs ++ ys) = firstn k xs.
Proof.
  intros H. rewrite firstn_app.
  replace (k - length xs) with 0 by lia. cbn [firstn]. apply app_nil_r.
Qed.

(** The inner loop, for a cap of at least one that is not reached yet. *)
Lemma searchMessages_spec (query : str) (maxResults : nat) (session : Session)
  (messages : list ClaudeMessage) (results : list SearchHit) :
  length results < maxResults ->
  searchMessages query maxResults session messages results =
  let all := results ++ hitsIn query session messages in
  if maxResults <=? length all then Return (firstn maxResults all)
  else Next all.
Proof.
  revert results. induction messages as [|m messages IH]; intros results Hlt;
    cbv zeta; cbn [searchMessages].
  - unfold hitsIn. cbn [filter map]. rewrite app_nil_r.
    now rewrite (proj2 (Nat.leb_gt _ _) Hlt).
  - unfold hitsIn. cbn [filter]. fold (matches query m).
    destruct (matches query m).
    + cbn [map]. fold (hitFor query session m).
      fold (hitsIn query session messages).
      destruct (Nat.leb_spec maxResults
                  (length (results ++ [hitFor query session m]))) as [Hle|Hgt].
      * rewrite length_app in Hle. cbn [length] in Hle.
        assert (Hk : maxResults = length (results ++ [hitFor query session m]))
          by (rewrite length_app; cbn [length]; lia).
        assert (Hall : (maxResults <=?
                        length (results ++
                                hitFor query session m ::
                                hitsIn query session messages)) = true).
        { apply Nat.leb_le. rewrite length_app. cbn [length]. lia. }
        rewrite Hall.
        change (results ++ hitFor query session m ::
                hitsIn query session messages)
          with (results ++ [hitFor query session m] ++
                hitsIn query session messages).
        rewrite app_assoc. rewrite Hk at 1. now rewrite firstn_exact.
      * rewrite IH by exact Hgt. cbv zeta.
        now rewrite <- app_assoc.
    + fold (hitsIn query session messages). now apply IH.
Qed.

Lemma transcripts_app (h : Host) (pre post : list Session)
  (ts : list (Session * list ClaudeMessage)) :
  transcripts h (pre ++ post) = Ok ts ->
  exists ts1 ts2,
    transcripts h pre = Ok ts1 /\ transcripts h post = Ok ts2 /\
    ts = ts1 ++ ts2.
Proof.
  revert ts. induction pre as [|s pre IH]; intros ts H.
  - exists [], ts. auto.
  - cbn [app transcripts] in H |- *.
    destruct (getSessionMessages h (session_id s)) as [msgs|]; [|discriminate].
    cbn [bind] in H |- *.
    destruct (transcripts h (pre ++ post)) as [others|] eqn:E; [|discriminate].
    cbn [bind] in H. injection H as <-.
    destruct (IH others eq_refl) as (ts1 & ts2 & -> & H2 & ->).
    cbn [bind]. exists ((s, msgs) :: ts1), ts2. auto.
Qed.

(** The outer loop over sessions whose transcripts can be read: either the
    cap is reached among them, and what follows is never looked at, or the
    loop goes on with all their hits. *)
Lemma searchSessions_scan (h : Host) (query : str) (maxResults : nat)
  (pre post : list Session) (ts : list (Session * list ClaudeMessage))
  (results : list SearchHit) :
  length results < maxResults ->
  transcripts h pre = Ok ts ->
  searchSessions h query maxResults (pre ++ post) results =
  if maxResults <=? length (results ++ hitsOf query ts)
  then Ok (firstn maxResults (results ++ hitsOf query ts))
  else searchSessions h query maxResults post (results ++ hitsOf query ts).
Proof.
  revert ts results. induction pre as [|s pre IH]; intros ts results Hlt Hts.
  - injection Hts as <-. cbn [hitsOf flat_map app]. rewrite app_nil_r.
    now rewrite (proj2 (Nat.leb_gt _ _) Hlt).
  - cbn [transcripts] in Hts. cbn [app searchSessions].
    destruct (getSessionMessages h (session_id s)) as [msgs|]; [|discriminate].
    cbn [bind] in Hts |- *.
    destruct (transcripts h pre) as [others|] eqn:E; [|discriminate].
    cbn [bind] in Hts. injection Hts as <-.
    cbn [hitsOf flat_map fst snd]. fold (hitsOf query others).
    rewrite searchMessages_spec by exact Hlt. cbv zeta.
    destruct (Nat.leb_spec maxResults
                (length (results ++ hitsIn query s msgs))) as [Hle|Hgt].
    + assert (Hall : (maxResults <=?
                      length (results ++ hitsIn query s msgs ++
                              hitsOf query others)) = true).
      { apply Nat.leb_le. rewrite app_assoc, length_app. lia. }
      rewrite Hall, (app_assoc results).
      now rewrite (firstn_within maxResults (results ++ hitsIn query s msgs)
                     (hitsOf query others) Hle).
    + rewrite (IH others _ Hgt eq_refl). now rewrite <- app_assoc.
Qed.

(** Early termination: once the cap is reached within the sessions [pre],
    the result does not depend on the sessions after them, readable or
    not. *)
Lemma searchSessions_stops (h : Host) (query : str) (maxResults : nat)
  (pre post : list Session) (ts : list (Session * list ClaudeMessage)) :
  1 <= maxResults ->
  transcripts h pre = Ok ts ->
  maxResults <= length (hitsOf query ts) ->
  searchSessions h query maxResults (pre ++ post) [] =
  Ok (firstn maxResults (hitsOf query ts)).
Proof.
  intros Hk Hts Hcap.
  rewrite (searchSessions_scan h query maxResults pre post ts [])
    by (cbn [length]; auto with arith).
  cbn [app]. now rewrite (proj2 (Nat.leb_le _ _) Hcap).
Qed.

(** With every transcript readable, the result is the first [maxResults]
    hits of the whole scan. *)
Lemma searchSessions_all (h : Host) (query : str) (maxResults : nat)
  (sessions : list Session) (ts : list (Session * list ClaudeMessage)) :
  1 <= maxResults ->
  transcripts h sessions = Ok ts ->
  searchSessions h query maxResults sessions [] =
  Ok (firstn maxResults (hitsOf query ts)).
Proof.
  intros Hk Hts.
  rewrite <- (app_nil_r sessions).
  rewrite (searchSessions_scan h query maxResults sessions [] ts [])
    by (cbn [length]; auto with arith).
  cbn [app searchSessions].
  destruct (Nat.leb_spec maxResults (length (hitsOf query ts))) as [Hle|Hgt];
    [reflexivity|].
  now rewrite firstn_all2 by lia.
Qed.

(** Whatever it returns, for a cap of at least one, is the first
    [maxResults] hits of the sessions it scanned, and these are a prefix of
    the session sequence. *)
Lemma searchSessions_returns (h : Host) (query : str) (maxResults : nat)
  (sessions : list Session) (results hits : list SearchHit) :
  length results < maxResults ->
  searchSessions h query maxResults sessions results = Ok hits ->
  exists scanned rest ts,
    sessions = scanned ++ rest /\ transcripts h scanned = Ok ts /\
    hits = firstn maxResults (results ++ hitsOf query ts).
Proof.
  revert results. induction sessions as [|s sessions IH]; intros results Hlt H.
  - cbn [searchSessions] in H. injection H as <-.
    exists [], [], []. cbn [hitsOf flat_map].
    split; [reflexivity|]. split; [reflexivity|].
    rewrite app_nil_r, firstn_all2; [reflexivity | lia].
  - cbn [searchSessions] in H.
    destruct (getSessionMessages h (session_id s)) as [msgs|] eqn:Emsgs;
      [|discriminate].
    cbn [bind] in H. rewrite searchMessages_spec in H by exact Hlt.
    cbv zeta in H.
    destruct (Nat.leb_spec maxResults
                (length (results ++ hitsIn query s msgs))) as [Hle|Hgt].
    + injection H as <-. exists [s], sessions, [(s, msgs)].
      cbn [transcripts]. rewrite Emsgs. cbn [bind hitsOf flat_map fst snd].
      now rewrite app_nil_r.
    + destruct (IH _ Hgt H) as (scanned & rest & ts & -> & Hts & ->).
      exists (s :: scanned), rest, ((s, msgs) :: ts).
      cbn [transcripts]. rewrite Emsgs, Hts.
      cbn [bind hitsOf flat_map fst snd]. fold (hitsOf query ts).
      now rewrite <- app_assoc.
Qed.

(** ** C7: the context window of a hit *)

(** The substring of [s] from index [a] up to, not including, index [b]. *)
Definition substring (s : str) (a b : nat) : str := firstn (b - a) (skipn a s).

(** The window the claim describes, around an occurrence at index [i]. *)
Definition contextWindow (query text : str) (i : nat) : str :=
  let start := i - 50 in
  let stop := Nat.min (length text) (i + length query + 50) in
  (if 0 <? start then ellipsis else []) ++
  substring text start stop ++
  (if stop <? length text then ellipsis else []).

Lemma extractContext_window (query : str) (message : ClaudeMessage) :
  matches query message = true ->
  exists i : nat,
    occursAt (toLowerCase (content message)) (toLowerCase query) i /\
    (forall j, j < i ->
       startsWith (skipn j (toLowerCase (content message)))
         (toLowerCase query) = false) /\
    extractContext query message = contextWindow query (content message) i.
Proof.
  unfold matches. intros Hm.
  destruct (indexOf_first _ _ Hm) as (i & Hidx & Hocc & Hmin).
  exists i. split; [exact Hocc|]. split; [exact Hmin|].
  destruct Hocc as [_ Hle]. rewrite toLowerCase_length in Hle.
  unfold extractContext, contextWindow, substring. cbv zeta. rewrite Hidx.
  set (len := length (content message)) in *.
  set (q := length query).
  replace (Z.max 0 (Z.of_nat i - 50)) with (Z.of_nat (i - 50)) by lia.
  replace (Z.min (Z.of_nat len) (Z.of_nat i + Z.of_nat q + 50))
    with (Z.of_nat (Nat.min len (i + q + 50))) by lia.
  rewrite slice_firstn_skipn by (fold len; lia).
  replace (0 <? Z.of_nat (i - 50))%Z with (0 <? i - 50).
  2:{ destruct (Nat.ltb_spec 0 (i - 50)), (Z.ltb_spec 0 (Z.of_nat (i - 50)));
        auto; lia. }
  replace (Z.of_nat (Nat.min len (i + q + 50)) <? Z.of_nat len)%Z
    with (Nat.min len (i + q + 50) <? len).
  2:{ destruct (Nat.ltb_spec (Nat.min len (i + q + 50)) len),
        (Z.ltb_spec (Z.of_nat (Nat.min len (i + q + 50))) (Z.of_nat len));
        auto; lia. }
  reflexivity.
Qed.

(** A hit as the loop builds it. *)
Definition builtFor (query : str) (hit : SearchHit) : Prop :=
  matches query (hit_message hit) = true /\
  matchContext hit = extractContext query (hit_message hit).

Definition exitValue {A : Type} (e : loopExit A) : A :=
  match e with
  | Next acc => acc
  | Return acc => acc
  end.

Lemma searchMessages_built (query : str) (maxResults : nat) (session : Session)
  (messages : list ClaudeMessage) (results : list SearchHit) :
  Forall (builtFor query) results ->
  Forall (builtFor query)
    (exitValue (searchMessages query maxResults session messages results)).
Proof.
  revert results. induction messages as [|m messages IH]; intros results Hres;
    cbn [searchMessages]; [exact Hres|].
  fold (matches query m). destruct (matches query m) eqn:Em; [|now apply IH].
  assert (Hres' : Forall (builtFor query)
                    (results ++ [mkHit session m (extractContext query m)])).
  { apply Forall_app. split; [exact Hres|].
    constructor; [|constructor]. split; [exact Em | reflexivity]. }
  destruct (maxResults <=? _); [exact Hres' | now apply IH].
Qed.

Lemma searchSessions_built (h : Host) (query : str) (maxResults : nat)
  (sessions : list Session) (results hits : list SearchHit) :
  Forall (builtFor query) results ->
  searchSessions h query maxResults sessions results = Ok hits ->
  Forall (builtFor query) hits.
Proof.
  revert results. induction sessions as [|s sessions IH]; intros results Hres H;
    cbn [searchSessions] in H.
  - injection H as <-. exact Hres.
  - destruct (getSessionMessages h (session_id s)) as [msgs|]; [|discriminate].
    cbn [bind] in H.
    pose proof (searchMessages_built query maxResults s msgs results Hres)
      as Hbuilt.
    destruct (searchMessages query maxResults s msgs results) as [r|r];
      cbn [exitValue] in Hbuilt.
    + now apply (IH r).
    + injection H as <-. exact Hbuilt.
Qed.

(** C7: every hit [searchTranscripts] emits is for a message whose
    lowercased content contains the lowercased query, and its
    [matchContext] is the content from [max(0, i - 50)] to
    [min(length, i + |query| + 50)], [i] being the index of the first
    occurrence, with [...] in front exactly when the window starts above 0
    and [...] behind exactly when it ends below the content length. *)
Theorem matchContext_window (h : Host) (query : str) (maxResults : nat)
  (hits : list SearchHit) (hit : SearchHit) :
  searchTranscripts h query maxResults = Ok hits ->
  In hit hits ->
  let text := content (hit_message hit) in
  includes (toLowerCase text) (toLowerCase query) = true /\
  exists i : nat,
    occursAt (toLowerCase text) (toLowerCase query) i /\
    (forall j, j < i ->
       startsWith (skipn j (toLowerCase text)) (toLowerCase query) = false) /\
    matchContext hit =
      (if 0 <? i - 50 then ellipsis else []) ++
      substring text (i - 50) (Nat.min (length text) (i + length query + 50)) ++
      (if Nat.min (length text) (i + length query + 50) <? length text
       then ellipsis else []).
Proof.
  intros Hsearch Hin text. unfold searchTranscripts in Hsearch.
  destruct (getSessions h 200) as [sessions|]; [|discriminate].
  cbn [bind] in Hsearch.
  pose proof (searchSessions_built h query maxResults sessions [] hits
                (Forall_nil _) Hsearch) as Hall.
  rewrite Forall_forall in Hall. destruct (Hall hit Hin) as [Hm Hctx].
  split; [exact Hm|].
  destruct (extractContext_window query (hit_message hit) Hm)
    as (i & Hocc & Hmin & Hwin).
  exists i. split; [exact Hocc|]. split; [exact Hmin|].
  rewrite Hctx, Hwin. reflexivity.
Qed.

Definition longText : str :=
  lit "The quick brown fox jumps over the lazy dog while the parser keeps reading tokens from the input stream until it finds the needle hidden near the end of this sentence, and then it goes on for a while.".

Definition longSession : TranscriptFile :=
  (lit "long.jsonl",
   [(lit "{user: find it}", userEntry (lit "find it") None);
    (lit "{assistant: long}", assistantEntry longText None)],
   1000%Z).

Lemma matchContext_window_witness :
  exists hits hit,
    searchTranscripts (corpusHost [longSession]) (lit "NEEDLE") 5 = Ok hits /\
    In hit hits /\
    includes (toLowerCase (content (hit_message hit)))
      (toLowerCase (lit "NEEDLE")) = true.
Proof.
  eexists. eexists. split; [vm_compute; reflexivity|].
  split; [now left|].
  eapply (matchContext_window (corpusHost [longSession]) (lit "NEEDLE") 5);
    [vm_compute; reflexivity | now left].
Defined.

Example matchContext_clipped_both_sides :
  exists hit,
    searchTranscripts (corpusHost [longSession]) (lit "NEEDLE") 5 = Ok [hit] /\
    matchContext hit =
      lit "...g tokens from the input stream until it finds the needle hidden near the end of this sentence, and then it...".
Proof. eexists. vm_compute. split; reflexivity. Qed.

(** ** C6: the cap, early termination and the order of the hits *)

Lemma transcripts_sessions (h : Host) (sessions : list Session)
  (ts : list (Session * list ClaudeMessage)) :
  transcripts h sessions = Ok ts -> map fst ts = sessions.
Proof.
  revert ts. induction sessions as [|s sessions IH]; intros ts H;
    cbn [transcripts] in H.
  - now injection H as <-.
  - destruct (getSessionMessages h (session_id s)) as [msgs|]; [|discriminate].
    cbn [bind] in H.
    destruct (transcripts h sessions) as [others|]; [|discriminate].
    cbn [bind] in H. injection H as <-. cbn [map fst]. now rewrite (IH others).
Qed.

Lemma hitsIn_sessions (query : str) (session : Session)
  (messages : list ClaudeMessage) (x : Session) :
  In x (map hit_session (hitsIn query session messages)) -> x = session.
Proof.
  unfold hitsIn. rewrite map_map. cbn [hitFor hit_session].
  intros H. apply in_map_iff in H. now destruct H as (m & <- & _).
Qed.

Lemma hitsOf_sessions (query : str) (ts : list (Session * list ClaudeMessage))
  (x : Session) :
  In x (map hit_session (hitsOf query ts)) -> In x (map fst ts).
Proof.
  induction ts as [|t ts IH]; cbn [hitsOf flat_map map]; [tauto|].
  rewrite map_app, in_app_iff. intros [H|H].
  - left. symmetry. now apply (hitsIn_sessions query (fst t) (snd t)).
  - right. now apply IH.
Qed.

Lemma descending_app (xs ys : list Session) :
  descending xs -> descending ys ->
  (forall x y, In x xs -> In y ys -> notOlder x y) ->
  descending (xs ++ ys).
Proof.
  unfold descending. intros Hxs Hys Hcross.
  induction xs as [|x xs IH]; cbn [app]; [exact Hys|].
  apply StronglySorted_inv in Hxs. destruct Hxs as [Hxs Hx].
  constructor.
  - apply IH; [exact Hxs|]. intros a b Ha Hb. apply Hcross; [now right | exact Hb].
  - apply Forall_app. split; [exact Hx|].
    rewrite Forall_forall. intros y Hy. apply Hcross; [now left | exact Hy].
Qed.

Lemma descending_same (session : Session) (xs : list Session) :
  validActivity session = true ->
  (forall x, In x xs -> x = session) -> descending xs.
Proof.
  intros Hvalid. destruct (validActivity_time session Hvalid) as [t Et].
  unfold descending. induction xs as [|x xs IH]; intros H; constructor.
  - apply IH. intros y Hy. apply H. now right.
  - rewrite Forall_forall. intros y Hy.
    rewrite (H x (or_introl eq_refl)), (H y (or_intror Hy)).
    unfold notOlder. rewrite Et. cbn [date_leb]. apply Z.leb_refl.
Qed.

(** Hits come in the order of their sessions. *)
Lemma hitsOf_descending (query : str)
  (ts : list (Session * list ClaudeMessage)) :
  forallb validActivity (map fst ts) = true ->
  descending (map fst ts) -> descending (map hit_session (hitsOf query ts)).
Proof.
  induction ts as [|t ts IH]; cbn [hitsOf flat_map map forallb];
    intros Hvalid Hs.
  - constructor.
  - apply andb_true_iff in Hvalid. destruct Hvalid as [Hvt Hvalid].
    apply StronglySorted_inv in Hs. destruct Hs as [Hts Ht].
    rewrite map_app. apply descending_app.
    + apply (descending_same (fst t)); [exact Hvt | apply hitsIn_sessions].
    + now apply IH.
    + intros x y Hx Hy. apply hitsIn_sessions in Hx. subst x.
      apply hitsOf_sessions in Hy. rewrite Forall_forall in Ht. now apply Ht.
Qed.

(** The sessions [getSessions] returns are among the parsed ones. *)
Lemma getSessions_among_parsed (h : Host) (maxSessions : nat)
  (parsed sessions : list Session) (s : Session) :
  parsedSessions h = Ok parsed ->
  getSessions h maxSessions = Ok sessions ->
  In s sessions -> In s parsed.
Proof.
  intros Hparsed H Hin.
  destruct (getSessions_returns h maxSessions sessions H)
    as (collected & Hcollected & ->).
  rewrite Hparsed in Hcollected. injection Hcollected as <-.
  apply (Permutation_in _ (sort_perm byLastActivity parsed)).
  now apply (in_firstn maxSessions).
Qed.

Lemma descending_prefix (xs ys : list Session) :
  descending (xs ++ ys) -> descending xs.
Proof.
  intros H. rewrite <- (firstn_exact xs ys). now apply firstn_descending.
Qed.

(** For a cap of at least one, [searchTranscripts] returns at most
    [maxResults] hits: the first [maxResults] in the order of the sessions
    scanned and of the messages in each; with valid activity times that
    order is most recent first. *)
Lemma searchTranscripts_capped (h : Host) (query : str) (maxResults : nat)
  (parsed : list Session) (hits : list SearchHit) :
  1 <= maxResults ->
  parsedSessions h = Ok parsed ->
  forallb validActivity parsed = true ->
  searchTranscripts h query maxResults = Ok hits ->
  length hits <= maxResults /\
  descending (map hit_session hits) /\
  exists sessions scanned rest ts,
    getSessions h 200 = Ok sessions /\ sessions = scanned ++ rest /\
    transcripts h scanned = Ok ts /\
    hits = firstn maxResults (hitsOf query ts).
Proof.
  intros Hk Hparsed Hvalid H. unfold searchTranscripts in H.
  destruct (getSessions h 200) as [sessions|] eqn:Esessions; [|discriminate].
  cbn [bind] in H.
  destruct (searchSessions_returns h query maxResults sessions [] hits)
    as (scanned & rest & ts & Hsplit & Hts & Hhits);
    [cbn [length]; lia | exact H |].
  cbn [app] in Hhits.
  split; [rewrite Hhits; apply firstn_le_length|].
  split.
  - rewrite Hhits, <- firstn_map. apply firstn_descending, hitsOf_descending.
    + rewrite (transcripts_sessions h scanned ts Hts).
      apply forallb_forall. intros s Hs.
      apply (proj1 (forallb_forall _ _) Hvalid).
      apply (getSessions_among_parsed h 200 parsed sessions s Hparsed
               Esessions).
      rewrite Hsplit. apply in_or_app. now left.
    + rewrite (transcripts_sessions h scanned ts Hts).
      apply (descending_prefix scanned rest). rewrite <- Hsplit.
      now apply (getSessions_descending h 200 parsed sessions).
  - exists sessions, scanned, rest, ts. auto.
Qed.

(** C6: with [maxResults = 0] the cap is exceeded.  The length test runs
    only after a hit has been pushed, so the first match is returned: one
    hit where at most zero were asked for. *)
Theorem searchTranscripts_cap_zero :
  let h := corpusHost [plainSession (lit "a.jsonl") 1000] in
  exists hit,
    searchTranscripts h (lit "fix") 0 = Ok [hit] /\
    content (hit_message hit) = lit "Fix the parser" /\
    ~ length [hit] <= 0.
Proof.
  eexists. split; [vm_compute; reflexivity|].
  split; [reflexivity|]. cbn [length]. lia.
Qed.

(** ** C10: the empty query *)













(* ===================================================================== *)
(** * 15. The rest of [HistoryParser], and what its callers do with it *)
(* ===================================================================== *)

(** The line loop of [getSessionSummary]: the first summary entry with a
    non-empty summary. *)
Fixpoint firstSummary (h : Host) (lines : list str) : option str :=
  match lines with
  | [] => None
  | line :: rest =>
      match JSON_parse h line with
      | Some entry =>
          if str_eqb (e_type entry) (lit "summary") && truthy (e_summary entry)
          then e_summary entry
          else firstSummary h rest
      | None => firstSummary h rest
      end
  end.

Definition getSessionSummary (h : Host) (sessionId : str)
  : result (option str) :=
  found <- findSessionFile h sessionId ;;
  if truthy found then
    content <- readFileSync h (orElse found []) ;;
    Ok (firstSummary h (contentLines content))
  else Ok None.

(** [isSessionActive]: last activity less than five minutes before
    [Date.now()]; the age of an Invalid Date is [NaN]. *)
Definition isSessionActive (h : Host) (session : Session) : bool :=
  let age := option_map (fun t => (now h - t)%Z) (lastActivityTime session) in
  date_ltb age (Some (5 * 60 * 1000)%Z).

(** [getSessionsForProject(projectPath)]: the files of one project
    directory, with the loop body of [getSessions] and no limit. *)
Definition getSessionsForProject (h : Host) (projectPath : str)
  : result (list Session) :=
  let encoded := encodeProjectPath projectPath in
  let projectDir := path_join (projectsPath h) encoded in
  if negb (existsSync h projectDir) then Ok []
  else
    names <- readdirSync h projectDir ;;
    let sessionFiles :=
      filter (fun f => endsWith f jsonlExt && negb (startsWith f (lit ".")))
        names in
    Ok (sort byLastActivity
          (collectFiles h projectDir projectPath sessionFiles [])).

(** [normalizeFolderName] of the session tree. *)
Definition normalizeFolderName (taskFocus : str) : str :=
  let lower := toLowerCase taskFocus in
  if str_eqb lower (lit "global") || str_eqb lower (lit "self-improvement")
  then lit "Meta"
  else taskFocus.

(** [{ icon, color }] *)
Record IconChoice : Type := mkIcon {
  icon : str;
  color : option str
}.

(** [getFolderIconForTaskFocus] of the session tree. *)
Definition getFolderIconForTaskFocus (taskFocus : str) : IconChoice :=
  let focusLower := toLowerCase taskFocus in
  if includes focusLower (lit "hiring") || includes focusLower (lit "jhu")
  then mkIcon (lit "mortar-board") (Some (lit "terminal.ansiBlue"))
  else if includes focusLower (lit "corpus") ||
          includes focusLower (lit "search")
  then mkIcon (lit "search") (Some (lit "terminal.ansiCyan"))
  else if includes focusLower (lit "blame") ||
          includes focusLower (lit "kira") ||
          includes focusLower (lit "claims") ||
          includes focusLower (lit "compliant") ||
          includes focusLower (lit "deceptive") ||
          includes focusLower (lit "egonormous")
  then mkIcon (lit "beaker") (Some (lit "terminal.ansiBlue"))
  else if includes focusLower (lit "drone") || includes focusLower (lit "dji")
  then mkIcon (lit "radio-tower") (Some (lit "terminal.ansiYellow"))
  else if includes focusLower (lit "notion") ||
          includes focusLower (lit "slack") ||
          includes focusLower (lit "email") ||
          includes focusLower (lit "session-manager")
  then mkIcon (lit "tools") (Some (lit "terminal.ansiYellow"))
  else if str_eqb focusLower (lit "meta") ||
          str_eqb focusLower (lit "self-improvement") ||
          str_eqb focusLower (lit "global")
  then mkIcon (lit "lightbulb") (Some (lit "terminal.ansiMagenta"))
  else if str_eqb focusLower (lit "iaseai") ||
          includes focusLower (lit "workshop")
  then mkIcon (lit "calendar") (Some (lit "terminal.ansiGreen"))
  else if str_eqb focusLower (lit "minty")
  then mkIcon (lit "hubot") (Some (lit "terminal.ansiGreen"))
  else mkIcon (lit "folder") None.

(** [SessionItem.getIconForTaskFocus] *)
Definition getIconForTaskFocus (taskFocus : str)
  (isActive isFork isArchived : bool) : IconChoice :=
  if isArchived
  then mkIcon (lit "archive") (Some (lit "disabledForeground"))
  else if isActive
  then mkIcon (lit "terminal") (Some (lit "terminal.ansiGreen"))
  else if isFork
  then mkIcon (lit "git-branch") (Some (lit "terminal.ansiMagenta"))
  else
    let focusLower := toLowerCase taskFocus in
    if includes focusLower (lit "hiring") || includes focusLower (lit "jhu")
    then mkIcon (lit "mortar-board") (Some (lit "terminal.ansiBlue"))
    else if includes focusLower (lit "corpus") ||
            includes focusLower (lit "search")
    then mkIcon (lit "search") (Some (lit "terminal.ansiCyan"))
    else if includes focusLower (lit "blame") ||
            includes focusLower (lit "kira") ||
            includes focusLower (lit "claims") ||
            includes focusLower (lit "compliant") ||
            includes focusLower (lit "deceptive") ||
            includes focusLower (lit "egonormous")
    then mkIcon (lit "beaker") (Some (lit "terminal.ansiBlue"))
    else if includes focusLower (lit "drone") ||
            includes focusLower (lit "dji")
    then mkIcon (lit "radio-tower") (Some (lit "terminal.ansiYellow"))
    else if includes focusLower (lit "notion") ||
            includes focusLower (lit "slack") ||
            includes focusLower (lit "email") ||
            includes focusLower (lit "session-manager")
    then mkIcon (lit "tools") (Some (lit "terminal.ansiYellow"))
    else if str_eqb focusLower (lit "self-improvement") ||
            str_eqb focusLower (lit "global") ||
            str_eqb focusLower (lit "meta")
    then mkIcon (lit "lightbulb") (Some (lit "terminal.ansiMagenta"))
    else if str_eqb focusLower (lit "iaseai") ||
            includes focusLower (lit "workshop")
    then mkIcon (lit "calendar") (Some (lit "terminal.ansiGreen"))
    else if str_eqb focusLower (lit "minty")
    then mkIcon (lit "hubot") (Some (lit "terminal.ansiGreen"))
    else mkIcon (lit "comment-discussion") None.

(* ===================================================================== *)
(** * 16. MetadataManager: the overlay kept in the global state *)
(* ===================================================================== *)

(** A JavaScript object used as a map from session ids to values: its own
    properties in the order they were created. *)
Definition dict (A : Type) : Type := list (str * A).

(** A key that is an array index: the decimal form, without a leading
    zero, of an integer below [2^32 - 1]. *)
Definition isArrayIndex (key : str) : bool :=
  match key with
  | [] => false
  | c :: rest =>
      forallb isDigit key &&
      (negb (Ascii.eqb c "0"%char) || (length rest =? 0)) &&
      (length key <=? 10) && (decimal key <? 4294967295)%Z
  end.

(** [Object.entries(obj)]: the array-index keys first, in ascending numeric
    order, then the other keys in the order they were created. *)
Definition entries {A : Type} (obj : dict A) : list (str * A) :=
  sort (fun a b => Some (decimal (fst a) - decimal (fst b))%Z)
    (filter (fun entry => isArrayIndex (fst entry)) obj) ++
  filter (fun entry => negb (isArrayIndex (fst entry))) obj.

(** The names every object inherits from [Object.prototype].  Reading one of
    them from an object that has no such property of its own gives the
    inherited value, and assigning a string to [__proto__] stores nothing;
    for every other key [obj[key]] is [lookup] and [obj[key] = value] is
    [assign]. *)
Definition inheritedKeys : list str :=
  [lit "__proto__"; lit "constructor"; lit "hasOwnProperty";
   lit "isPrototypeOf"; lit "propertyIsEnumerable"; lit "toLocaleString";
   lit "toString"; lit "valueOf"; lit "__defineGetter__";
   lit "__defineSetter__"; lit "__lookupGetter__"; lit "__lookupSetter__"].

Definition plainKey (key : str) : bool :=
  negb (existsb (str_eqb key) inheritedKeys).

(** [obj[key] = value]: an existing property keeps its place. *)
Fixpoint assign {A : Type} (key : str) (value : A) (obj : dict A) : dict A :=
  match obj with
  | [] => [(key, value)]
  | (k, v) :: obj' =>
      if str_eqb key k then (k, value) :: obj'
      else (k, v) :: assign key value obj'
  end.

(** [delete obj[key]] *)
Fixpoint remove {A : Type} (key : str) (obj : dict A) : dict A :=
  match obj with
  | [] => []
  | (k, v) :: obj' =>
      if str_eqb key k then remove key obj' else (k, v) :: remove key obj'
  end.

(** [SessionMetadata]; metadata stored by an earlier version may lack the
    two maps added last. *)
Record SessionMetadata : Type := mkMetadata {
  customNames : dict str;
  autoNames : dict str;
  summaries : dict str;
  forkRelations : dict str;
  archived : option (dict bool);
  customFolders : option (dict str)
}.

(** What [globalState] holds under the metadata key. *)
Definition GlobalState : Type := option SessionMetadata.

Definition getMetadata (state : GlobalState) : SessionMetadata :=
  match state with
  | Some stored => stored
  | None => mkMetadata [] [] [] [] (Some []) (Some [])
  end.

(** [a || null] on a looked-up string: an empty string counts as absent. *)
Definition orNull (v : option str) : option str :=
  if truthy v then v else None.

Definition getSessionName (state : GlobalState) (sessionId : str)
  : option str :=
  let metadata := getMetadata state in
  if truthy (lookup sessionId (customNames metadata))
  then lookup sessionId (customNames metadata)
  else orNull (lookup sessionId (autoNames metadata)).

Definition setCustomName (state : GlobalState) (sessionId name : str)
  : GlobalState :=
  let metadata := getMetadata state in
  Some (mkMetadata (assign sessionId name (customNames metadata))
          (autoNames metadata) (summaries metadata) (forkRelations metadata)
          (archived metadata) (customFolders metadata)).

Definition setAutoName (state : GlobalState) (sessionId name : str)
  : GlobalState :=
  let metadata := getMetadata state in
  Some (mkMetadata (customNames metadata)
          (assign sessionId name (autoNames metadata))
          (summaries metadata) (forkRelations metadata)
          (archived metadata) (customFolders metadata)).

Definition setSummary (state : GlobalState) (sessionId summary : str)
  : GlobalState :=
  let metadata := getMetadata state in
  Some (mkMetadata (customNames metadata) (autoNames metadata)
          (assign sessionId summary (summaries metadata))
          (forkRelations metadata)
          (archived metadata) (customFolders metadata)).

Definition getSummary (state : GlobalState) (sessionId : str) : option str :=
  orNull (lookup sessionId (summaries (getMetadata state))).

Definition recordFork (state : GlobalState)
  (childSessionId parentSessionId : str) : GlobalState :=
  let metadata := getMetadata state in
  Some (mkMetadata (customNames metadata) (autoNames metadata)
          (summaries metadata)
          (assign childSessionId parentSessionId (forkRelations metadata))
          (archived metadata) (customFolders metadata)).

Definition getParentSession (state : GlobalState) (sessionId : str)
  : option str :=
  orNull (lookup sessionId (forkRelations (getMetadata state))).

Definition getChildSessions (state : GlobalState) (parentSessionId : str)
  : list str :=
  map fst
    (filter (fun entry => str_eqb (snd entry) parentSessionId)
       (entries (forkRelations (getMetadata state)))).

Definition hasBeenForked (state : GlobalState) (sessionId : str) : bool :=
  0 <? length (getChildSessions state sessionId).

(** [removeSession]: [delete metadata.archived[sessionId]] throws when the
    stored metadata has no [archived] map. *)
Definition removeSession (state : GlobalState) (sessionId : str)
  : result GlobalState :=
  let metadata := getMetadata state in
  match archived metadata with
  | Some flags =>
      Ok (Some (mkMetadata (remove sessionId (customNames metadata))
                  (remove sessionId (autoNames metadata))
                  (remove sessionId (summaries metadata))
                  (remove sessionId (forkRelations metadata))
                  (Some (remove sessionId flags))
                  (customFolders metadata)))
  | None => Throw
  end.

Definition archiveSession (state : GlobalState) (sessionId : str)
  : GlobalState :=
  let metadata := getMetadata state in
  let flags := match archived metadata with
               | Some flags => flags
               | None => []
               end in
  Some (mkMetadata (customNames metadata) (autoNames metadata)
          (summaries metadata) (forkRelations metadata)
          (Some (assign sessionId true flags)) (customFolders metadata)).

(** [unarchiveSession]: nothing is saved when there is no [archived] map. *)
Definition unarchiveSession (state : GlobalState) (sessionId : str)
  : GlobalState :=
  let metadata := getMetadata state in
  match archived metadata with
  | Some flags =>
      Some (mkMetadata (customNames metadata) (autoNames metadata)
              (summaries metadata) (forkRelations metadata)
              (Some (remove sessionId flags)) (customFolders metadata))
  | None => state
  end.

(** [metadata.archived?.[sessionId] ?? false] *)
Definition isArchived (state : GlobalState) (sessionId : str) : bool :=
  match archived (getMetadata state) with
  | Some flags =>
      match lookup sessionId flags with
      | Some flag => flag
      | None => false
      end
  | None => false
  end.

(** [Object.keys(metadata.archived).filter(id => metadata.archived[id])] *)
Definition getArchivedSessions (state : GlobalState) : list str :=
  match archived (getMetadata state) with
  | Some flags =>
      filter (fun id => match lookup id flags with
                        | Some flag => flag
                        | None => false
                        end) (map fst (entries flags))
  | None => []
  end.

Definition setCustomFolder (state : GlobalState) (sessionId folderName : str)
  : GlobalState :=
  let metadata := getMetadata state in
  let folders := match customFolders metadata with
                 | Some folders => folders
                 | None => []
                 end in
  Some (mkMetadata (customNames metadata) (autoNames metadata)
          (summaries metadata) (forkRelations metadata)
          (archived metadata) (Some (assign sessionId folderName folders))).

Definition getCustomFolder (state : GlobalState) (sessionId : str)
  : option str :=
  match customFolders (getMetadata state) with
  | Some folders => orNull (lookup sessionId folders)
  | None => None
  end.

Definition removeCustomFolder (state : GlobalState) (sessionId : str)
  : GlobalState :=
  let metadata := getMetadata state in
  match customFolders metadata with
  | Some folders =>
      Some (mkMetadata (customNames metadata) (autoNames metadata)
              (summaries metadata) (forkRelations metadata)
              (archived metadata) (Some (remove sessionId folders)))
  | None => state
  end.

(* ===================================================================== *)
(** * 17. More about PathCodec *)
(* ===================================================================== *)

Definition absolute (p : str) : Prop := exists tail, p = slash :: tail.

Lemma path_normalize_keeps_absolute (q : str) :
  absolute (path_normalize (slash :: q)).
Proof.
  unfold path_normalize. rewrite Ascii.eqb_refl. cbn [negb].
  destruct (join [slash] _) as [|b body].
  - now exists [].
  - destruct (endsWith _ _); eexists; reflexivity.
Qed.

Lemma path_join_keeps_absolute (a b : str) :
  absolute a -> absolute (path_join a b).
Proof.
  intros [tail ->]. unfold path_join, path_joinAll. cbn [filter str_eqb negb].
  destruct (negb (str_eqb b [])); cbn [join app];
    apply path_normalize_keeps_absolute.
Qed.

Lemma path_dirname_keeps_absolute (p : str) :
  absolute p -> absolute (path_dirname p).
Proof.
  intros [tail ->]. unfold path_dirname. rewrite Ascii.eqb_refl.
  destruct (dropName _) as [|c before]; [now exists []|].
  cbn [andb]. destruct (length before =? 0); eexists; reflexivity.
Qed.

Lemma candidates_absolute (rest : list str) (cur : str) :
  absolute cur -> forall c, In c (candidates rest cur) -> absolute c.
Proof.
  revert cur. induction rest as [|part rest IH]; intros cur Hcur c Hin.
  - destruct Hin as [<-|[]]. exact Hcur.
  - cbn [candidates] in Hin. apply in_app_or in Hin. destruct Hin as [Hin|Hin].
    + apply (IH (path_join cur part)); [|exact Hin].
      now apply path_join_keeps_absolute.
    + destruct (negb (str_eqb cur root)); [|contradiction].
      apply (IH (path_join (path_dirname cur)
                   (path_basename cur ++ dash :: part))); [|exact Hin].
      now apply path_join_keeps_absolute, path_dirname_keeps_absolute.
Qed.

(** X1: whatever the encoded name and the filesystem, [decodeProjectPath]
    returns an absolute path: its result begins with [/]. *)
Theorem decodeProjectPath_absolute (h : Host) (encoded : str) :
  absolute (decodeProjectPath h encoded).
Proof.
  rewrite decodeProjectPath_candidates. cbv zeta.
  destruct (find _ _) as [d|] eqn:E; [|eexists; reflexivity].
  apply find_some in E. destruct E as [Hin _].
  apply (candidates_absolute (split dash (stripLeadingDash encoded)) root);
    [now exists [] | exact Hin].
Qed.

Lemma join_merge (c : ascii) (xs : list str) (a b : str) (ys : list str) :
  join [c] (xs ++ (a ++ c :: b) :: ys) = join [c] (xs ++ a :: b :: ys).
Proof.
  induction xs as [|x xs IH].
  - cbn [app]. destruct ys as [|y ys].
    + reflexivity.
    + rewrite !join_cons. now rewrite <- app_assoc.
  - cbn [app].
    assert (Hl : exists z zs, xs ++ (a ++ c :: b) :: ys = z :: zs)
      by (destruct xs; eexists; eexists; reflexivity).
    assert (Hr : exists z zs, xs ++ a :: b :: ys = z :: zs)
      by (destruct xs; eexists; eexists; reflexivity).
    destruct Hl as (z1 & zs1 & E1). destruct Hr as (z2 & zs2 & E2).
    rewrite E1, E2, !join_cons, <- E1, <- E2. now rewrite IH.
Qed.

Lemma renderPath_root_iff (segs : list str) :
  forallb plain segs = true ->
  str_eqb (renderPath segs) root = true -> segs = [].
Proof.
  intros Hplain H. destruct segs as [|s segs]; [reflexivity|].
  apply str_eqb_eq in H. unfold renderPath, root in H. injection H as H.
  simpl in Hplain. apply andb_true_iff in Hplain. destruct Hplain as [Hs _].
  exfalso. now apply (join_nonempty_plain s segs (plain_nonempty _ Hs)).
Qed.

(** Every interpretation of plain tokens encodes back to the tokens joined
    with dashes. *)
Lemma candidates_encode (rest segs : list str) (c : str) :
  forallb plain segs = true -> forallb plain rest = true ->
  In c (candidates rest (renderPath segs)) ->
  encodeProjectPath c = dash :: join [dash] (segs ++ rest).
Proof.
  revert segs. induction rest as [|t rest IH]; intros segs Hsegs Hrest Hin.
  - destruct Hin as [<-|[]]. rewrite app_nil_r.
    apply encode_render. now apply forallb_plain_lacks.
  - simpl in Hrest. apply andb_true_iff in Hrest. destruct Hrest as [Ht Hrest].
    cbn [candidates] in Hin. apply in_app_or in Hin. destruct Hin as [Hin|Hin].
    + rewrite path_join_render in Hin by assumption.
      rewrite (IH (segs ++ [t])); [now rewrite <- app_assoc | | exact Hrest
                                  | exact Hin].
      rewrite forallb_app, Hsegs. simpl. now rewrite Ht.
    + destruct (str_eqb (renderPath segs) root) eqn:Eroot;
        [contradiction|]. cbn [negb] in Hin.
      destruct (exists_last (l := segs)) as (done & name & ->).
      { intros ->. discriminate Eroot. }
      rewrite forallb_app in Hsegs. apply andb_true_iff in Hsegs.
      destruct Hsegs as [Hdone Hname]. simpl in Hname.
      rewrite andb_true_r in Hname.
      rewrite path_dirname_render, path_basename_render in Hin
        by auto using plain_nameLike.
      assert (Hjoined : plain (name ++ dash :: t) = true)
        by (apply plain_dashed; auto using plain_lacks).
      rewrite path_join_render in Hin by assumption.
      rewrite (IH (done ++ [name ++ dash :: t])); [| | exact Hrest | exact Hin].
      * rewrite <- !app_assoc. cbn [app]. apply f_equal, join_merge.
      * rewrite forallb_app, Hdone. simpl. now rewrite Hjoined.
Qed.

(** X2: a directory name whose dash-separated tokens are all plain (not
    empty, not [.] or [..], no [/]) survives the round trip through decode
    and encode, whatever the filesystem holds: [encodeProjectPath
    (decodeProjectPath name)] is the name again, with its leading dash put
    back if it had none. *)
Theorem encode_decode_roundtrip (h : Host) (encoded : str) :
  forallb plain (partsOf encoded) = true ->
  encodeProjectPath (decodeProjectPath h encoded) =
  dash :: stripLeadingDash encoded.
Proof.
  intros Hparts. rewrite decodeProjectPath_candidates. cbv zeta.
  fold (partsOf encoded).
  rewrite <- (join_split dash (stripLeadingDash encoded)) at 1.
  fold (partsOf encoded).
  destruct (find _ _) as [d|] eqn:E.
  - apply find_some in E. destruct E as [Hin _].
    apply (candidates_encode (partsOf encoded) [] d eq_refl Hparts Hin).
  - change (encodeProjectPath (slash :: ?t)) with (dash :: encodeProjectPath t).
    rewrite encode_join; [reflexivity|]. now apply forallb_plain_lacks.
Qed.

Lemma encode_decode_roundtrip_witness :
  encodeProjectPath
    (decodeProjectPath (pathsHost [lit "/Volumes/Agents/Active-Research"])
       (lit "-Volumes-Agents-Active-Research"))
  = lit "-Volumes-Agents-Active-Research".
Proof.
  apply (encode_decode_roundtrip
           (pathsHost [lit "/Volumes/Agents/Active-Research"])
           (lit "-Volumes-Agents-Active-Research")).
  reflexivity.
Defined.

Lemma candidates_count (rest : list str) (cur : str) :
  length (candidates rest cur) <= 2 ^ length rest.
Proof.
  revert cur. induction rest as [|part rest IH]; intros cur; [simpl; lia|].
  cbn [candidates length]. rewrite length_app, Nat.pow_succ_r'.
  pose proof (IH (path_join cur part)) as H1.
  destruct (negb (str_eqb cur root)).
  - pose proof (IH (path_join (path_dirname cur)
                      (path_basename cur ++ dash :: part))) as H2. lia.
  - cbn [length]. lia.
Qed.

Lemma takeThrough_length {A : Type} (f : A -> bool) (xs : list A) :
  length (takeThrough f xs) <= length xs.
Proof.
  induction xs as [|x xs IH]; simpl; [lia|].
  destruct (f x); simpl; lia.
Qed.

(** X3: the search asks the filesystem at most [2 ^ (n - 1)] times for [n]
    tokens: the first token can only start a segment, each later one is
    tried both ways. *)
Theorem findValidPath_query_bound (h : Host) (parts : list str) :
  length (queriesOf (snd (findValidPath_log h parts 0 root)))
  <= 2 ^ (length parts - 1).
Proof.
  rewrite findValidPath_log_queries by discriminate. cbn [skipn].
  eapply Nat.le_trans; [apply takeThrough_length|].
  destruct parts as [|part rest]; [simpl; lia|].
  cbn [candidates length]. rewrite str_eqb_refl. cbn [negb].
  replace (S (length rest) - 1) with (length rest) by lia.
  rewrite app_nil_r. apply candidates_count.
Qed.

(* ===================================================================== *)
(** * 18. More about [parseSessionFile] *)
(* ===================================================================== *)

(** The date an entry carries, if it carries a timestamp. *)
Definition stamp (h : Host) (e : SessionEntry) : option Date :=
  if truthy (e_timestamp e)
  then Some (Date_parse h (orElse (e_timestamp e) []))
  else None.

Definition timestampsOf (h : Host) (es : list SessionEntry) : list Date :=
  flat_map (fun e => match stamp h e with
                     | Some ts => [ts]
                     | None => []
                     end) es.

(** The summary a summary entry carries. *)
Definition summaryOf (e : SessionEntry) : option str :=
  if str_eqb (e_type e) (lit "summary") && truthy (e_summary e)
  then e_summary e else None.

Definition summariesOf (es : list SessionEntry) : list str :=
  flat_map (fun e => match summaryOf e with
                     | Some s => [s]
                     | None => []
                     end) es.

(** The date the loop holds after the dates [ts], starting from [acc]: a
    date replaces the one held when [replaces] says so. *)
Definition extremum (replaces : Date -> Date -> bool) (acc : option Date)
  (ts : list Date) : option Date :=
  fold_left (fun a t => Some (match a with
                              | None => t
                              | Some x => if replaces t x then t else x
                              end)) ts acc.

(** [ts < firstTimestamp] and [ts > lastTimestamp]. *)
Definition earlier (t held : Date) : bool := date_ltb t held.

Definition later (t held : Date) : bool := date_ltb held t.

Lemma parseEntry_firstTimestamp (h : Host) (st : ParseState)
  (e : SessionEntry) :
  st_firstTimestamp (parseEntry h st e) =
  match stamp h e with
  | Some ts => Some (match st_firstTimestamp st with
                     | None => ts
                     | Some f => if earlier ts f then ts else f
                     end)
  | None => st_firstTimestamp st
  end.
Proof.
  rewrite parseEntry_equation. cbn [st_firstTimestamp]. unfold stamp, earlier.
  destruct (truthy (e_timestamp e)); [|reflexivity].
  destruct (st_firstTimestamp st) as [f|]; [|reflexivity].
  destruct (date_ltb _ f); reflexivity.
Qed.

Lemma parseEntry_lastTimestamp (h : Host) (st : ParseState)
  (e : SessionEntry) :
  st_lastTimestamp (parseEntry h st e) =
  match stamp h e with
  | Some ts => Some (match st_lastTimestamp st with
                     | None => ts
                     | Some l => if later ts l then ts else l
                     end)
  | None => st_lastTimestamp st
  end.
Proof.
  rewrite parseEntry_equation. cbn [st_lastTimestamp]. unfold stamp, later.
  destruct (truthy (e_timestamp e)); [|reflexivity].
  destruct (st_lastTimestamp st) as [l|]; [|reflexivity].
  destruct (date_ltb l _); reflexivity.
Qed.

Lemma fold_firstTimestamp (h : Host) (es : list SessionEntry)
  (st : ParseState) :
  st_firstTimestamp (fold_left (parseEntry h) es st) =
  extremum earlier (st_firstTimestamp st) (timestampsOf h es).
Proof.
  revert st. induction es as [|e es IH]; intros st; [reflexivity|].
  cbn [fold_left timestampsOf flat_map]. fold (timestampsOf h es).
  rewrite IH, parseEntry_firstTimestamp. unfold extremum.
  destruct (stamp h e); cbn [app fold_left]; reflexivity.
Qed.

Lemma fold_lastTimestamp (h : Host) (es : list SessionEntry)
  (st : ParseState) :
  st_lastTimestamp (fold_left (parseEntry h) es st) =
  extremum later (st_lastTimestamp st) (timestampsOf h es).
Proof.
  revert st. induction es as [|e es IH]; intros st; [reflexivity|].
  cbn [fold_left timestampsOf flat_map]. fold (timestampsOf h es).
  rewrite IH, parseEntry_lastTimestamp. unfold extremum.
  destruct (stamp h e); cbn [app fold_left]; reflexivity.
Qed.

Lemma extremum_cons (replaces : Date -> Date -> bool) (acc : option Date)
  (t : Date) (ts : list Date) :
  extremum replaces acc (t :: ts) =
  extremum replaces (Some (match acc with
                           | None => t
                           | Some x => if replaces t x then t else x
                           end)) ts.
Proof. reflexivity. Qed.

(** An Invalid Date that is held is never replaced: every comparison with
    it is false. *)
Lemma extremum_invalid_sticks (replaces : Date -> Date -> bool)
  (ts : list Date) :
  (forall t, replaces t None = false) ->
  extremum replaces (Some None) ts = Some None.
Proof.
  intros Hnever. induction ts as [|t ts IH]; [reflexivity|].
  rewrite extremum_cons, Hnever. exact IH.
Qed.

Lemma extremum_min_from (a : Z) (ts : list Date) :
  exists m, extremum earlier (Some (Some a)) ts = Some (Some m) /\
            (m = a \/ In (Some m) ts) /\ (m <= a)%Z /\
            forall t, In (Some t) ts -> (m <= t)%Z.
Proof.
  revert a. induction ts as [|t ts IH]; intros a.
  - exists a. repeat split; auto; try lia. intros t [].
  - rewrite extremum_cons. destruct t as [t|].
    + change (earlier (Some t) (Some a)) with (t <? a)%Z.
      destruct (Z.ltb_spec t a) as [Hlt|Hge]; cbv iota.
      * destruct (IH t) as (m & Hm & Hin & Hle & Hall).
        exists m. split; [exact Hm|]. split; [|split].
        -- destruct Hin as [->|Hin]; right; [now left | now right].
        -- lia.
        -- intros u [E|Hu]; [injection E as <-; lia | now apply Hall].
      * destruct (IH a) as (m & Hm & Hin & Hle & Hall).
        exists m. split; [exact Hm|]. split; [|split].
        -- destruct Hin as [->|Hin]; [now left | right; now right].
        -- lia.
        -- intros u [E|Hu]; [injection E as <-; lia | now apply Hall].
    + change (earlier None (Some a)) with false. cbv iota.
      destruct (IH a) as (m & Hm & Hin & Hle & Hall).
      exists m. split; [exact Hm|]. split; [|split].
      * destruct Hin as [->|Hin]; [now left | right; now right].
      * lia.
      * intros u [E|Hu]; [discriminate | now apply Hall].
Qed.

Lemma extremum_max_from (a : Z) (ts : list Date) :
  exists m, extremum later (Some (Some a)) ts = Some (Some m) /\
            (m = a \/ In (Some m) ts) /\ (a <= m)%Z /\
            forall t, In (Some t) ts -> (t <= m)%Z.
Proof.
  revert a. induction ts as [|t ts IH]; intros a.
  - exists a. repeat split; auto; try lia. intros t [].
  - rewrite extremum_cons. destruct t as [t|].
    + change (later (Some t) (Some a)) with (a <? t)%Z.
      destruct (Z.ltb_spec a t) as [Hlt|Hge]; cbv iota.
      * destruct (IH t) as (m & Hm & Hin & Hle & Hall).
        exists m. split; [exact Hm|]. split; [|split].
        -- destruct Hin as [->|Hin]; right; [now left | now right].
        -- lia.
        -- intros u [E|Hu]; [injection E as <-; lia | now apply Hall].
      * destruct (IH a) as (m & Hm & Hin & Hle & Hall).
        exists m. split; [exact Hm|]. split; [|split].
        -- destruct Hin as [->|Hin]; [now left | right; now right].
        -- lia.
        -- intros u [E|Hu]; [injection E as <-; lia | now apply Hall].
    + change (later None (Some a)) with false. cbv iota.
      destruct (IH a) as (m & Hm & Hin & Hle & Hall).
      exists m. split; [exact Hm|]. split; [|split].
      * destruct Hin as [->|Hin]; [now left | right; now right].
      * lia.
      * intros u [E|Hu]; [discriminate | now apply Hall].
Qed.

(** The session [parseSessionFile] builds, when it builds one. *)
Lemma parseSessionFile_some (h : Host) (filePath sessionId projectPath : str)
  (stats : Stats) (text : str) (s : Session) :
  statSync h filePath = Ok stats ->
  readFileSync h filePath = Ok text ->
  parseSessionFile h filePath sessionId projectPath = Ok (Some s) ->
  let st := fold_left (parseEntry h) (entriesOf h (contentLines text))
              initialState in
  s = mkSession sessionId
        (orElse (st_cwd st) projectPath)
        (orElse (st_firstTimestamp st) (Some (birthtime stats)))
        (orElse (st_lastTimestamp st) (Some (mtime stats)))
        (st_messageCount st) false (st_summary st) /\
  excludedByCode h stats text = false.
Proof.
  intros Hstat Hread H. cbv zeta.
  assert (Hex : excludedByCode h stats text = false).
  { destruct (excludedByCode h stats text) eqn:E; [|reflexivity].
    apply (parseSessionFile_null h filePath sessionId projectPath stats text
             Hstat Hread) in E. congruence. }
  split; [|exact Hex].
  unfold parseSessionFile in H. rewrite Hstat in H. cbn [bind] in H.
  destruct (size stats =? 0); [discriminate|].
  rewrite Hread in H. cbn [bind] in H.
  destruct (length (contentLines text) =? 0); [discriminate|].
  rewrite fold_parseLine in H.
  destruct (option_str_eqb _ warmup); [discriminate|].
  destruct (st_isSidechain _); [discriminate|].
  destruct (negb _ && _); [discriminate|].
  now injection H as <-.
Qed.

(** X4: in a session [parseSessionFile] returns, the two times depend on
    the first timestamp of the file.  When no entry carries a timestamp they
    are the file's creation and modification times.  When the first
    timestamp is a valid date, [startTime] is the earliest and
    [lastActivityTime] the latest of the valid timestamps, later invalid
    ones being passed over, so [startTime <= lastActivityTime].  When the
    first timestamp is not a date, both times are that Invalid Date,
    whatever the timestamps after it. *)
Theorem session_times_span_entries (h : Host)
  (filePath sessionId projectPath : str) (stats : Stats) (text : str)
  (s : Session) :
  statSync h filePath = Ok stats ->
  readFileSync h filePath = Ok text ->
  parseSessionFile h filePath sessionId projectPath = Ok (Some s) ->
  match timestampsOf h (entriesOf h (contentLines text)) with
  | [] =>
      startTime s = Some (birthtime stats) /\
      lastActivityTime s = Some (mtime stats)
  | Some first :: others =>
      exists lo hi,
        startTime s = Some lo /\ lastActivityTime s = Some hi /\
        In (Some lo) (Some first :: others) /\
        In (Some hi) (Some first :: others) /\
        (lo <= hi)%Z /\
        forall t, In (Some t) (Some first :: others) -> (lo <= t <= hi)%Z
  | None :: _ =>
      startTime s = None /\ lastActivityTime s = None
  end.
Proof.
  intros Hstat Hread H.
  destruct (parseSessionFile_some h filePath sessionId projectPath stats text s
              Hstat Hread H) as [-> _].
  cbn [startTime lastActivityTime].
  rewrite fold_firstTimestamp, fold_lastTimestamp.
  cbn [initialState st_firstTimestamp st_lastTimestamp].
  destruct (timestampsOf h (entriesOf h (contentLines text)))
    as [|[t0|] ts'].
  - split; reflexivity.
  - rewrite !extremum_cons. cbv iota.
    destruct (extremum_min_from t0 ts') as (lo & Elo & Hlo & Hlo0 & Hlos).
    destruct (extremum_max_from t0 ts') as (hi & Ehi & Hhi & Hhi0 & Hhis).
    exists lo, hi. unfold Date in *. rewrite Elo, Ehi. cbn [orElse].
    split; [reflexivity|]. split; [reflexivity|]. split; [|split; [|split]].
    + destruct Hlo as [->|Hlo]; [now left | now right].
    + destruct Hhi as [->|Hhi]; [now left | now right].
    + lia.
    + intros t [E|Ht]; [injection E as <-; lia|].
      specialize (Hlos t Ht). specialize (Hhis t Ht). lia.
  - rewrite !extremum_cons. cbv iota.
    rewrite !extremum_invalid_sticks; [split; reflexivity | |].
    + intros [t|]; reflexivity.
    + intros [t|]; reflexivity.
Qed.

Definition stampedSession : TranscriptFile :=
  (lit "stamped.jsonl",
   [(lit "{user: first, 2000}", userEntry (lit "first") (Some (lit "2000")));
    (lit "{assistant: reply, 5000}",
     assistantEntry (lit "reply") (Some (lit "5000")));
    (lit "{user: earlier, 1500}",
     userEntry (lit "earlier") (Some (lit "1500")))],
   9000%Z).

(** The same with a timestamp in the middle that is not a date. *)
Definition gappedSession : TranscriptFile :=
  (lit "gapped.jsonl",
   [(lit "{user: first, 2000}", userEntry (lit "first") (Some (lit "2000")));
    (lit "{assistant: reply, 5000}",
     assistantEntry (lit "reply") (Some (lit "5000")));
    (lit "{user: undated, n/a}", userEntry (lit "undated") (Some (lit "n/a")));
    (lit "{user: earlier, 1500}",
     userEntry (lit "earlier") (Some (lit "1500")))],
   9000%Z).

Lemma session_times_span_entries_witness :
  exists s,
    parseSessionFile (corpusHost [gappedSession])
      (path_join projectDir (lit "gapped.jsonl")) (lit "gapped")
      (lit "/home/u/proj") = Ok (Some s) /\
    startTime s = Some 1500%Z /\ lastActivityTime s = Some 5000%Z.
Proof.
  eexists. split; [vm_compute; reflexivity|].
  eassert (Hspan : _).
  { eapply (session_times_span_entries (corpusHost [gappedSession])
              (path_join projectDir (lit "gapped.jsonl")) (lit "gapped")
              (lit "/home/u/proj")); vm_compute; reflexivity. }
  vm_compute in Hspan. destruct Hspan as (lo & hi & Hstart & Hlast & _).
  split; reflexivity.
Defined.

(** The same transcript with a first timestamp that is not a date. *)
Definition misdatedSession : TranscriptFile :=
  (lit "misdated.jsonl",
   [(lit "{user: first, soon}", userEntry (lit "first") (Some (lit "soon")));
    (lit "{assistant: reply, 5000}",
     assistantEntry (lit "reply") (Some (lit "5000")));
    (lit "{user: earlier, 1500}",
     userEntry (lit "earlier") (Some (lit "1500")))],
   9000%Z).

Example invalid_first_timestamp_sticks :
  exists s,
    parseSessionFile (corpusHost [misdatedSession])
      (path_join projectDir (lit "misdated.jsonl")) (lit "misdated")
      (lit "/home/u/proj") = Ok (Some s) /\
    startTime s = None /\ lastActivityTime s = None /\
    isSessionActive (corpusHost [misdatedSession]) s = false.
Proof. eexists. vm_compute. repeat split. Qed.

Lemma assistant_is_counted (es : list SessionEntry) :
  existsb isAssistant es = true -> 1 <= length (filter isMessage es).
Proof.
  induction es as [|e es IH]; cbn [existsb filter]; [discriminate|].
  unfold isMessage at 1. destruct (isAssistant e).
  - rewrite orb_true_r. cbn [length]. lia.
  - cbn [orb]. intros H. specialize (IH H).
    destruct (isUser e || false); cbn [length]; lia.
Qed.

Lemma session_messageCount (h : Host)
  (filePath sessionId projectPath : str) (stats : Stats) (text : str)
  (s : Session) :
  statSync h filePath = Ok stats ->
  readFileSync h filePath = Ok text ->
  parseSessionFile h filePath sessionId projectPath = Ok (Some s) ->
  messageCount s =
  length (filter isMessage (entriesOf h (contentLines text))).
Proof.
  intros Hstat Hread H.
  destruct (parseSessionFile_some h filePath sessionId projectPath stats text s
              Hstat Hread H) as [-> _].
  cbn [messageCount]. rewrite fold_messageCount. reflexivity.
Qed.

(** X5: a session [parseSessionFile] returns carries the id it was given,
    is not marked active, counts exactly the user and assistant entries of
    the file, of which there is at least one (an assistant entry, or at
    least two messages), and comes from a file without any sidechain
    entry. *)
Theorem session_counts_messages (h : Host)
  (filePath sessionId projectPath : str) (stats : Stats) (text : str)
  (s : Session) :
  statSync h filePath = Ok stats ->
  readFileSync h filePath = Ok text ->
  parseSessionFile h filePath sessionId projectPath = Ok (Some s) ->
  let es := entriesOf h (contentLines text) in
  session_id s = sessionId /\ isActive s = false /\
  messageCount s = length (filter isMessage es) /\
  1 <= messageCount s /\
  (existsb isAssistant es = true \/ 2 <= messageCount s) /\
  existsb e_isSidechain es = false.
Proof.
  intros Hstat Hread H es.
  destruct (parseSessionFile_some h filePath sessionId projectPath stats text s
              Hstat Hread H) as [-> Hex].
  cbn [session_id isActive messageCount].
  rewrite fold_messageCount. cbn [initialState st_messageCount plus].
  fold es. unfold excludedByCode in Hex. cbv zeta in Hex. fold es in Hex.
  repeat (apply orb_false_iff in Hex; destruct Hex as [Hex ?]).
  match goal with Hc : negb _ && _ = false |- _ => rename Hc into Hcontent end.
  assert (Hreal : existsb isAssistant es = true \/
                  2 <= length (filter isMessage es)).
  { apply andb_false_iff in Hcontent. destruct Hcontent as [Ha|Hc].
    - left. now apply negb_false_iff in Ha.
    - right. apply Nat.ltb_ge in Hc. exact Hc. }
  repeat split; auto.
  destruct Hreal as [Ha|Hc]; [now apply assistant_is_counted | lia].
Qed.

Lemma session_counts_messages_witness :
  exists s,
    parseSessionFile (corpusHost [stampedSession])
      (path_join projectDir (lit "stamped.jsonl")) (lit "stamped")
      (lit "/home/u/proj") = Ok (Some s) /\
    messageCount s = 3.
Proof.
  eexists. split; [vm_compute; reflexivity|].
  edestruct (session_counts_messages (corpusHost [stampedSession])
               (path_join projectDir (lit "stamped.jsonl")) (lit "stamped")
               (lit "/home/u/proj")) as (_ & _ & Hcount & _);
    [vm_compute; reflexivity | vm_compute; reflexivity
    | vm_compute; reflexivity |].
  rewrite Hcount. vm_compute. reflexivity.
Defined.

Lemma parseEntry_cwd (h : Host) (st : ParseState) (e : SessionEntry) :
  st_cwd (parseEntry h st e) =
  if truthy (e_cwd e) && negb (truthy (st_cwd st)) && negb (throwsAt st e)
  then e_cwd e else st_cwd st.
Proof. now rewrite parseEntry_equation. Qed.

Lemma fold_cwd_kept (h : Host) (es : list SessionEntry) (st : ParseState) :
  truthy (st_cwd st) = true ->
  st_cwd (fold_left (parseEntry h) es st) = st_cwd st.
Proof.
  revert st. induction es as [|e es IH]; intros st Hst; [reflexivity|].
  cbn [fold_left]. rewrite IH; rewrite parseEntry_cwd, Hst;
    cbn [negb]; rewrite andb_false_r; auto.
Qed.

(** Once a first user message is held, no entry throws any more. *)
Lemma fold_cwd_captured (h : Host) (es : list SessionEntry) (st : ParseState) :
  truthy (st_firstUserMessage st) = true ->
  st_cwd st = None ->
  st_cwd (fold_left (parseEntry h) es st) =
  match find (fun e => truthy (e_cwd e)) es with
  | Some e => e_cwd e
  | None => None
  end.
Proof.
  revert st. induction es as [|e es IH]; intros st Hheld Hst; [exact Hst|].
  cbn [fold_left find].
  assert (Hheld' : truthy (st_firstUserMessage (parseEntry h st e)) = true).
  { rewrite parseEntry_firstUserMessage, Hheld. cbn [negb].
    now rewrite andb_false_r. }
  assert (Hcwd : st_cwd (parseEntry h st e) =
                 if truthy (e_cwd e) then e_cwd e else None).
  { rewrite parseEntry_cwd. unfold throwsAt. rewrite Hheld, Hst.
    cbn [truthy negb]. rewrite andb_false_r. cbn [negb andb].
    now rewrite !andb_true_r. }
  destruct (truthy (e_cwd e)) eqn:Ecwd.
  - rewrite fold_cwd_kept; rewrite Hcwd; auto.
  - now apply IH.
Qed.

(** The entries on which the loop body runs to its end: all but the user
    entries with a [null] block that come before the entry from which the
    first user message is taken. *)
Fixpoint completedEntries (es : list SessionEntry) : list SessionEntry :=
  match es with
  | [] => []
  | e :: es' =>
      if keepsFirstUser e then e :: es'
      else if isUser e && nullBlock e then completedEntries es'
      else e :: completedEntries es'
  end.

Lemma completedEntries_all (es : list SessionEntry) :
  existsb (fun e => isUser e && nullBlock e) es = false ->
  completedEntries es = es.
Proof.
  induction es as [|e es IH]; cbn [existsb completedEntries]; [reflexivity|].
  intros H. apply orb_false_iff in H. destruct H as [He Hes].
  rewrite He, (IH Hes). now destruct (keepsFirstUser e).
Qed.

Lemma fold_cwd (h : Host) (es : list SessionEntry) (st : ParseState) :
  truthy (st_firstUserMessage st) = false ->
  st_cwd st = None ->
  st_cwd (fold_left (parseEntry h) es st) =
  match find (fun e => truthy (e_cwd e)) (completedEntries es) with
  | Some e => e_cwd e
  | None => None
  end.
Proof.
  revert st. induction es as [|e es IH]; intros st Hnone Hst; [exact Hst|].
  cbn [fold_left completedEntries].
  assert (Hcwd : st_cwd (parseEntry h st e) =
                 if truthy (e_cwd e) && negb (isUser e && nullBlock e)
                 then e_cwd e else None).
  { rewrite parseEntry_cwd. unfold throwsAt. rewrite Hnone, Hst.
    cbn [truthy negb]. now rewrite !andb_true_r. }
  assert (Hfirst : st_firstUserMessage (parseEntry h st e) =
                   if isUser e && hasMessage e && negb (nullBlock e)
                   then Some (userText e) else st_firstUserMessage st).
  { rewrite parseEntry_firstUserMessage, Hnone. cbn [negb].
    now rewrite !andb_true_r. }
  destruct (keepsFirstUser e) eqn:Ekeeps.
  - unfold keepsFirstUser in Ekeeps.
    apply andb_true_iff in Ekeeps. destruct Ekeeps as [Ekeeps Etext].
    rewrite Ekeeps in Hfirst.
    apply andb_true_iff in Ekeeps. destruct Ekeeps as [_ Enull].
    apply negb_true_iff in Enull. rewrite Enull in Hcwd.
    rewrite andb_false_r in Hcwd. cbn [negb] in Hcwd.
    rewrite andb_true_r in Hcwd. cbn [find].
    destruct (truthy (e_cwd e)) eqn:Ecwd.
    + rewrite fold_cwd_kept; rewrite Hcwd; auto.
    + apply fold_cwd_captured; [now rewrite Hfirst | exact Hcwd].
  - destruct (isUser e && nullBlock e) eqn:Ethrows.
    + cbn [negb] in Hcwd.
      rewrite andb_false_r in Hcwd.
      apply IH; [|exact Hcwd].
      rewrite Hfirst. apply andb_true_iff in Ethrows.
      destruct Ethrows as [_ ->]. cbn [negb]. now rewrite andb_false_r.
    + cbn [negb] in Hcwd.
      rewrite andb_true_r in Hcwd. cbn [find].
      assert (Hnone' : truthy (st_firstUserMessage (parseEntry h st e))
                       = false).
      { rewrite Hfirst. unfold keepsFirstUser in Ekeeps.
        destruct (isUser e && hasMessage e && negb (nullBlock e));
          [exact Ekeeps | exact Hnone]. }
      destruct (truthy (e_cwd e)) eqn:Ecwd.
      * rewrite fold_cwd_kept; rewrite Hcwd; auto.
      * now apply IH.
Qed.

(** X6: the [projectPath] of a returned session is the [cwd] of the first
    entry that records a non-empty one, among the entries on which the loop
    body runs to its end; the path handed in (the decoded directory name,
    for [getSessions]) is used only when none of them does.  A user entry
    with a [null] block in its content, read before a first user message is
    held, throws before its [cwd] is looked at and is passed over; when no
    user entry has such a block, every entry is looked at. *)
Theorem session_path_prefers_cwd (h : Host)
  (filePath sessionId fallback : str) (stats : Stats) (text : str)
  (s : Session) :
  statSync h filePath = Ok stats ->
  readFileSync h filePath = Ok text ->
  parseSessionFile h filePath sessionId fallback = Ok (Some s) ->
  let es := entriesOf h (contentLines text) in
  projectPath s =
    match find (fun e => truthy (e_cwd e)) (completedEntries es) with
    | Some e => orElse (e_cwd e) []
    | None => fallback
    end /\
  (existsb (fun e => isUser e && nullBlock e) es = false ->
   completedEntries es = es).
Proof.
  intros Hstat Hread H es.
  destruct (parseSessionFile_some h filePath sessionId fallback stats text s
              Hstat Hread H) as [-> _].
  cbn [projectPath]. fold es. split; [|apply completedEntries_all].
  rewrite fold_cwd by reflexivity.
  destruct (find _ _) as [e|] eqn:E; [|reflexivity].
  apply find_some in E. destruct E as [_ E].
  destruct (e_cwd e); [reflexivity | discriminate E].
Qed.

Definition entryIn (cwd : str) (kind text : str) : SessionEntry :=
  mkEntry kind None None (Some cwd)
    (Some (mkMessage kind (CString text))) false.

(** A user entry whose content array holds [null], recorded in [cwd]. *)
Definition nullBlockEntry (cwd : str) : SessionEntry :=
  mkEntry (lit "user") None None (Some cwd)
    (Some (mkMessage (lit "user")
             (CBlocks [Some (mkBlock (lit "text") (Some (lit "hello")) None
                               None);
                       None]))) false.

Definition movedSession : TranscriptFile :=
  (lit "moved.jsonl",
   [(lit "{user: [hello, null], cwd /work/first}",
     nullBlockEntry (lit "/work/first"));
    (lit "{assistant: hi, cwd /work/app}",
     entryIn (lit "/work/app") (lit "assistant") (lit "hi"));
    (lit "{user: again, cwd /work/other}",
     entryIn (lit "/work/other") (lit "user") (lit "again"))],
   1000%Z).

Lemma session_path_prefers_cwd_witness :
  exists s,
    parseSessionFile (corpusHost [movedSession])
      (path_join projectDir (lit "moved.jsonl")) (lit "moved")
      (lit "/home/u/proj") = Ok (Some s) /\
    projectPath s = lit "/work/app" /\ messageCount s = 3.
Proof.
  eexists. split; [vm_compute; reflexivity|].
  split; [|reflexivity].
  edestruct (session_path_prefers_cwd (corpusHost [movedSession])
               (path_join projectDir (lit "moved.jsonl")) (lit "moved")
               (lit "/home/u/proj")) as [Hpath _];
    [vm_compute; reflexivity | vm_compute; reflexivity
    | vm_compute; reflexivity |].
  rewrite Hpath. vm_compute. reflexivity.
Defined.

(** X7: lines that [JSON.parse] rejects do not count.  Two non-empty files
    with the same creation and modification times whose accepted lines parse
    to the same entries give the same result, whatever malformed lines
    either of them holds in between. *)
Theorem malformed_lines_ignored (h : Host)
  (file1 file2 sessionId projectPath : str) (stats1 stats2 : Stats)
  (text1 text2 : str) :
  statSync h file1 = Ok stats1 -> statSync h file2 = Ok stats2 ->
  readFileSync h file1 = Ok text1 -> readFileSync h file2 = Ok text2 ->
  size stats1 <> 0 -> size stats2 <> 0 ->
  birthtime stats1 = birthtime stats2 -> mtime stats1 = mtime stats2 ->
  contentLines text1 <> [] -> contentLines text2 <> [] ->
  entriesOf h (contentLines text1) = entriesOf h (contentLines text2) ->
  parseSessionFile h file1 sessionId projectPath =
  parseSessionFile h file2 sessionId projectPath.
Proof.
  intros Hs1 Hs2 Hr1 Hr2 Hz1 Hz2 Hb Hm Hl1 Hl2 He.
  unfold parseSessionFile. rewrite Hs1, Hs2. cbn [bind].
  rewrite (proj2 (Nat.eqb_neq _ _) Hz1), (proj2 (Nat.eqb_neq _ _) Hz2).
  rewrite Hr1, Hr2. cbn [bind].
  assert (E1 : (length (contentLines text1) =? 0) = false)
    by (apply Nat.eqb_neq; destruct (contentLines text1);
        [contradiction | discriminate]).
  assert (E2 : (length (contentLines text2) =? 0) = false)
    by (apply Nat.eqb_neq; destruct (contentLines text2);
        [contradiction | discriminate]).
  rewrite E1, E2, !fold_parseLine, He, Hb, Hm. reflexivity.
Qed.

Definition goodLines : list (str * SessionEntry) :=
  [(lit "{user: Fix the parser}", userEntry (lit "Fix the parser") None);
   (lit "{assistant: Fixed it, see diff}",
    assistantEntry (lit "Fixed it, see diff") None)].

(** Two transcripts with the same entries; the second has a truncated line
    between them. *)
Definition garbledHost : Host :=
  memHost (lit "/home/u")
    [(lit "/t/clean.jsonl", fileOf (map fst goodLines) 1000);
     (lit "/t/garbled.jsonl",
      fileOf [lit "{user: Fix the parser}"; lit "{assistant: Fix";
              lit "{assistant: Fixed it, see diff}"] 1000)]
    goodLines.

Lemma malformed_lines_ignored_witness :
  parseSessionFile garbledHost (lit "/t/clean.jsonl") (lit "s") (lit "/p") =
  parseSessionFile garbledHost (lit "/t/garbled.jsonl") (lit "s") (lit "/p").
Proof.
  eapply (malformed_lines_ignored garbledHost (lit "/t/clean.jsonl")
            (lit "/t/garbled.jsonl") (lit "s") (lit "/p")).
  1: vm_compute; reflexivity. 1: vm_compute; reflexivity.
  1: vm_compute; reflexivity. 1: vm_compute; reflexivity.
  all: vm_compute; try reflexivity; discriminate.
Defined.

(** ** Summaries: the last one for the session, the first one on demand *)

Definition lastOf {A : Type} (xs : list A) : option A :=
  match rev xs with
  | x :: _ => Some x
  | [] => None
  end.

Lemma parseEntry_summary (h : Host) (st : ParseState) (e : SessionEntry) :
  st_summary (parseEntry h st e) =
  match summaryOf e with
  | Some s => Some s
  | None => st_summary st
  end.
Proof.
  rewrite parseEntry_equation. cbn [st_summary]. unfold summaryOf.
  destruct (str_eqb (e_type e) (lit "summary") && truthy (e_summary e))
    eqn:E; [|reflexivity].
  apply andb_true_iff in E. destruct E as [_ E].
  destruct (e_summary e); [reflexivity | discriminate E].
Qed.

Lemma fold_summary (h : Host) (es : list SessionEntry) (st : ParseState) :
  st_summary (fold_left (parseEntry h) es st) =
  match lastOf (summariesOf es) with
  | Some s => Some s
  | None => st_summary st
  end.
Proof.
  revert st. induction es as [|e es IH]; intros st; [reflexivity|].
  cbn [fold_left summariesOf flat_map]. fold (summariesOf es).
  rewrite IH, parseEntry_summary. unfold lastOf.
  destruct (summaryOf e) as [s|]; cbn [app]; [|reflexivity].
  cbn [rev]. destruct (rev (summariesOf es)); reflexivity.
Qed.

Lemma firstSummary_head (h : Host) (lines : list str) :
  firstSummary h lines = hd_error (summariesOf (entriesOf h lines)).
Proof.
  induction lines as [|line lines IH]; [reflexivity|].
  cbn [firstSummary entriesOf flat_map]. fold (entriesOf h lines).
  destruct (JSON_parse h line) as [e|]; cbn [app]; [|exact IH].
  cbn [summariesOf flat_map]. fold (summariesOf (entriesOf h lines)).
  unfold summaryOf.
  destruct (str_eqb (e_type e) (lit "summary") && truthy (e_summary e)) eqn:E;
    [|exact IH].
  apply andb_true_iff in E. destruct E as [_ E].
  destruct (e_summary e); [reflexivity | discriminate E].
Qed.

Lemma firstSessionFile_nonempty (h : Host) (sessionId : str)
  (dirs : list Dirent) (f : str) :
  firstSessionFile h sessionId dirs = Some f -> f <> [].
Proof.
  induction dirs as [|d dirs IH]; cbn [firstSessionFile]; [discriminate|].
  destruct (existsSync h _); [|exact IH].
  intros E. injection E as <-. apply path_joinAll_nonempty.
Qed.

Lemma findSessionFile_truthy (h : Host) (sessionId : str)
  (found : option str) :
  findSessionFile h sessionId = Ok found ->
  truthy found = match found with Some _ => true | None => false end.
Proof.
  unfold findSessionFile. destruct (negb _).
  - intros E. injection E as <-. reflexivity.
  - destruct (readdir h (projectsPath h)) as [dirents|]; [|discriminate].
    cbn [bind]. intros E. injection E as <-.
    destruct (firstSessionFile h sessionId _) as [f|] eqn:Ef; [|reflexivity].
    apply firstSessionFile_nonempty in Ef.
    destruct f; [contradiction | reflexivity].
Qed.

(** X8: when a transcript holds several summary entries, the session built
    by [parseSessionFile] carries the last one as [autoGeneratedName], while
    [getSessionSummary] on the same file returns the first one.  Both are
    absent together, so the [autoGeneratedName || getSessionSummary]
    fallback of the session tree never finds a summary the session lacks. *)
Theorem summary_last_versus_first (h : Host)
  (filePath sessionId projectPath : str) (stats : Stats) (text : str)
  (s : Session) :
  statSync h filePath = Ok stats ->
  readFileSync h filePath = Ok text ->
  parseSessionFile h filePath sessionId projectPath = Ok (Some s) ->
  findSessionFile h sessionId = Ok (Some filePath) ->
  let found := summariesOf (entriesOf h (contentLines text)) in
  autoGeneratedName s = lastOf found /\
  getSessionSummary h sessionId = Ok (hd_error found) /\
  (autoGeneratedName s = None <-> getSessionSummary h sessionId = Ok None).
Proof.
  intros Hstat Hread H Hfile found.
  destruct (parseSessionFile_some h filePath sessionId projectPath stats text s
              Hstat Hread H) as [-> _].
  cbn [autoGeneratedName]. rewrite fold_summary.
  cbn [initialState st_summary]. fold found.
  assert (Hget : getSessionSummary h sessionId = Ok (hd_error found)).
  { unfold getSessionSummary. rewrite Hfile. cbn [bind].
    rewrite (findSessionFile_truthy h sessionId _ Hfile). cbn [orElse].
    rewrite Hread. cbn [bind]. now rewrite firstSummary_head. }
  split; [destruct (lastOf found); reflexivity|].
  split; [exact Hget|]. rewrite Hget. unfold lastOf.
  destruct found as [|x xs]; [cbn; tauto|].
  cbn [hd_error]. destruct (rev (x :: xs)) eqn:E.
  - apply (f_equal (@rev str)) in E. rewrite rev_involutive in E. discriminate.
  - split; discriminate.
Qed.

Definition summaryEntry (text : str) : SessionEntry :=
  mkEntry (lit "summary") (Some text) None None None false.

Definition resummarized : TranscriptFile :=
  (lit "twice.jsonl",
   [(lit "{summary: Parser cleanup}", summaryEntry (lit "Parser cleanup"));
    (lit "{user: Fix the parser}", userEntry (lit "Fix the parser") None);
    (lit "{assistant: Fixed it, see diff}",
     assistantEntry (lit "Fixed it, see diff") None);
    (lit "{summary: Tokenizer rewrite}",
     summaryEntry (lit "Tokenizer rewrite"))],
   1000%Z).

Lemma summary_last_versus_first_witness :
  exists s,
    parseSessionFile (corpusHost [resummarized])
      (path_join projectDir (lit "twice.jsonl")) (lit "twice")
      (lit "/home/u/proj") = Ok (Some s) /\
    autoGeneratedName s = Some (lit "Tokenizer rewrite") /\
    getSessionSummary (corpusHost [resummarized]) (lit "twice")
    = Ok (Some (lit "Parser cleanup")).
Proof.
  eexists. split; [vm_compute; reflexivity|].
  edestruct (summary_last_versus_first (corpusHost [resummarized])
               (path_join projectDir (lit "twice.jsonl")) (lit "twice")
               (lit "/home/u/proj")) as (Hlast & Hfirst & _);
    [vm_compute; reflexivity | vm_compute; reflexivity
    | vm_compute; reflexivity | vm_compute; reflexivity |].
  split; [rewrite Hlast | rewrite Hfirst]; vm_compute; reflexivity.
Defined.

(* ===================================================================== *)
(** * 19. More about [getSessions] and [getSessionsForProject] *)
(* ===================================================================== *)

(** X9: the limit only truncates.  If [getSessions(m)] returns a list,
    [getSessions(n)] for a smaller [n] returns its first [n] sessions. *)
Theorem getSessions_smaller_limit (h : Host) (n m : nat)
  (sessions : list Session) :
  n <= m ->
  getSessions h m = Ok sessions ->
  getSessions h n = Ok (firstn n sessions).
Proof.
  intros Hnm. rewrite !getSessions_parsed.
  destruct (parsedSessions h) as [parsed|]; [|discriminate].
  cbn [bind]. intros E. injection E as <-.
  rewrite firstn_firstn. now rewrite Nat.min_l by exact Hnm.
Qed.

Definition threeSessions : list TranscriptFile :=
  [plainSession (lit "a.jsonl") 1000;
   plainSession (lit "b.jsonl") 3000;
   plainSession (lit "c.jsonl") 2000].

Lemma getSessions_smaller_limit_witness :
  exists sessions,
    getSessions (corpusHost threeSessions) 50 = Ok sessions /\
    map session_id sessions = [lit "b"; lit "c"; lit "a"] /\
    getSessions (corpusHost threeSessions) 2 = Ok (firstn 2 sessions).
Proof.
  eexists. split; [vm_compute; reflexivity|]. split; [reflexivity|].
  apply (getSessions_smaller_limit (corpusHost threeSessions) 2 50);
    [lia | vm_compute; reflexivity].
Defined.

Lemma descending_before (pre : list Session) (s : Session)
  (post : list Session) (x : Session) :
  descending (pre ++ s :: post) -> In x pre -> notOlder x s.
Proof.
  unfold descending. induction pre as [|p pre IH]; intros Hs Hx;
    [destruct Hx|].
  cbn [app] in Hs. apply StronglySorted_inv in Hs. destruct Hs as [Hrest Hp].
  destruct Hx as [<-|Hx]; [|now apply IH].
  rewrite Forall_forall in Hp. apply Hp. apply in_or_app. right. now left.
Qed.

(** X10: when every parsed session has a valid [lastActivityTime], the
    sessions [isSessionActive] accepts come first in the list [getSessions]
    returns: if a session is active, so is every session listed before
    it. *)
Theorem active_sessions_come_first (h : Host) (maxSessions : nat)
  (parsed pre : list Session) (s : Session) (post : list Session) :
  parsedSessions h = Ok parsed ->
  forallb validActivity parsed = true ->
  getSessions h maxSessions = Ok (pre ++ s :: post) ->
  isSessionActive h s = true ->
  forallb (isSessionActive h) pre = true.
Proof.
  intros Hparsed Hvalid Hget Hactive. apply forallb_forall. intros x Hx.
  pose proof (getSessions_descending h maxSessions parsed _ Hparsed Hvalid
                Hget) as Hsorted.
  pose proof (descending_before pre s post x Hsorted Hx) as Hnewer.
  unfold isSessionActive, notOlder in *.
  destruct (lastActivityTime s) as [ts|]; [|discriminate].
  destruct (lastActivityTime x) as [tx|]; [|discriminate].
  cbn [option_map date_ltb date_leb] in *.
  apply Z.ltb_lt in Hactive. apply Z.leb_le in Hnewer. apply Z.ltb_lt. lia.
Qed.

Lemma active_sessions_come_first_witness :
  forallb (isSessionActive (corpusHost threeSessions))
    (match getSessions (corpusHost threeSessions) 50 with
     | Ok sessions => firstn 2 sessions
     | Throw => []
     end) = true.
Proof.
  destruct (getSessions (corpusHost threeSessions) 50) as [sessions|] eqn:E;
    [|reflexivity].
  pose proof E as E'. vm_compute in E'. injection E' as <-.
  eapply (active_sessions_come_first (corpusHost threeSessions) 50
            (match parsedSessions (corpusHost threeSessions) with
             | Ok parsed => parsed
             | Throw => []
             end) (firstn 2 _) _ []);
    [vm_compute; reflexivity | vm_compute; reflexivity | exact E
    | reflexivity].
Defined.



(** Where a collected session comes from. *)
Lemma collectFiles_origin (h : Host) (projectPath decoded : str)
  (files : list str) (acc : list Session) (s : Session) :
  In s (collectFiles h projectPath decoded files acc) ->
  In s acc \/
  exists f, In f files /\
    parseSessionFile h (path_join projectPath f) (removeFirst f jsonlExt)
      decoded = Ok (Some s).
Proof.
  revert acc. induction files as [|f files IH]; intros acc Hin;
    cbn [collectFiles] in Hin; [now left|].
  destruct (parseSessionFile h (path_join projectPath f) _ decoded)
    as [[s'|]|] eqn:E.
  - destruct (IH _ Hin) as [Hacc|(g & Hg & Hparse)].
    + apply in_app_or in Hacc. destruct Hacc as [Hacc|[<-|[]]];
        [now left|]. right. exists f. split; [now left | exact E].
    + right. exists g. split; [now right | exact Hparse].
  - destruct (IH _ Hin) as [Hacc|(g & Hg & Hparse)]; [now left|].
    right. exists g. split; [now right | exact Hparse].
  - destruct (IH _ Hin) as [Hacc|(g & Hg & Hparse)]; [now left|].
    right. exists g. split; [now right | exact Hparse].
Qed.




Lemma collectFiles_keeps (h : Host) (projectPath decoded : str)
  (files : list str) (acc : list Session) (s : Session) :
  In s acc -> In s (collectFiles h projectPath decoded files acc).
Proof.
  revert acc. induction files as [|f files IH]; intros acc Hin;
    cbn [collectFiles]; [exact Hin|].
  destruct (parseSessionFile h _ _ decoded) as [[s'|]|]; apply IH; auto.
  apply in_or_app. now left.
Qed.

Lemma collectFiles_complete (h : Host) (projectPath decoded : str)
  (files : list str) (acc : list Session) (f : str) (s : Session) :
  In f files ->
  parseSessionFile h (path_join projectPath f) (removeFirst f jsonlExt)
    decoded = Ok (Some s) ->
  In s (collectFiles h projectPath decoded files acc).
Proof.
  revert acc. induction files as [|g files IH]; intros acc Hf Hparse;
    [destruct Hf|].
  cbn [collectFiles]. destruct Hf as [->|Hf].
  - rewrite Hparse. apply collectFiles_keeps, in_or_app. right. now left.
  - destruct (parseSessionFile h (path_join projectPath g) _ decoded)
      as [[s'|]|]; now apply IH.
Qed.

(** The directory [getSessionsForProject] reads for a project path. *)
Definition projectDirOf (h : Host) (projectPath : str) : str :=
  path_join (projectsPath h) (encodeProjectPath projectPath).

(** X12: [getSessionsForProject] returns no session for a project without a
    directory.  Otherwise its result holds exactly the sessions parsed from
    the files of that directory that end in [.jsonl] and do not start with a
    dot: none is cut off by a limit, and files named [agent-...] are not
    left out as they are by [getSessions].  When all of them have a valid
    [lastActivityTime], the result is sorted by it, most recent first. *)
Theorem getSessionsForProject_lists_directory (h : Host) (projectPath : str) :
  (existsSync h (projectDirOf h projectPath) = false ->
   getSessionsForProject h projectPath = Ok []) /\
  (forall sessions,
     getSessionsForProject h projectPath = Ok sessions ->
     existsSync h (projectDirOf h projectPath) = true ->
     (forallb validActivity sessions = true -> descending sessions) /\
     exists names,
       readdirSync h (projectDirOf h projectPath) = Ok names /\
       forall s,
         In s sessions <->
         exists f, In f names /\ endsWith f jsonlExt = true /\
                   startsWith f (lit ".") = false /\
                   parseSessionFile h (path_join (projectDirOf h projectPath) f)
                     (removeFirst f jsonlExt) projectPath = Ok (Some s)).
Proof.
  unfold getSessionsForProject. cbv zeta. fold (projectDirOf h projectPath).
  split.
  - intros ->. reflexivity.
  - intros sessions H Hex. rewrite Hex in H. cbn [negb] in H.
    destruct (readdirSync h (projectDirOf h projectPath)) as [names|];
      [|discriminate].
    cbn [bind] in H. injection H as <-.
    split.
    { intros Hvalid. apply sort_descending. apply forallb_forall.
      intros x Hx. apply (proj1 (forallb_forall _ _) Hvalid).
      now apply (Permutation_in _ (Permutation_sym (sort_perm _ _))). }
    exists names. split; [reflexivity|]. intros s. split.
    + intros Hin. apply (Permutation_in _ (sort_perm byLastActivity _)) in Hin.
      apply collectFiles_origin in Hin.
      destruct Hin as [[]|(f & Hf & Hparse)].
      apply filter_In in Hf. destruct Hf as [Hf Hkeep].
      apply andb_true_iff in Hkeep. destruct Hkeep as [Hext Hdot].
      apply negb_true_iff in Hdot. exists f. auto.
    + intros (f & Hf & Hext & Hdot & Hparse).
      apply (Permutation_in _ (Permutation_sym (sort_perm byLastActivity _))).
      apply (collectFiles_complete h _ _ _ [] f s); [|exact Hparse].
      apply filter_In. split; [exact Hf|].
      change (endsWith f jsonlExt && negb (startsWith f (lit ".")) = true).
      now rewrite Hext, Hdot.
Qed.

(** A project directory with a transcript written by a sub-agent. *)
Definition agentCorpus : Host :=
  corpusHost [plainSession (lit "a.jsonl") 1000;
              plainSession (lit "agent-7.jsonl") 2000].

Lemma getSessionsForProject_lists_directory_witness :
  exists sessions,
    getSessionsForProject agentCorpus (lit "/home/u/proj") = Ok sessions /\
    map session_id sessions = [lit "agent-7"; lit "a"] /\
    descending sessions.
Proof.
  eexists. split; [vm_compute; reflexivity|]. split; [reflexivity|].
  eapply (proj2 (getSessionsForProject_lists_directory agentCorpus
                   (lit "/home/u/proj")));
    [vm_compute; reflexivity | reflexivity | vm_compute; reflexivity].
Defined.

Example getSessions_hides_agent_files :
  exists sessions,
    getSessions agentCorpus 50 = Ok sessions /\
    map session_id sessions = [lit "a"].
Proof. eexists. vm_compute. split; reflexivity. Qed.

(* ===================================================================== *)
(** * 20. More about the messages and the search *)
(* ===================================================================== *)

(** The entries [getSessionMessages] turns into messages. *)
Definition carriesMessage (e : SessionEntry) : bool :=
  isMessage e && hasMessage e.

(** What one such entry adds to [messages]: nothing when [parseMessage]
    throws. *)
Definition messageOf (h : Host) (sessionId : str) (e : SessionEntry)
  : list ClaudeMessage :=
  match parseMessage h sessionId e with
  | Ok message => [message]
  | Throw => []
  end.

Lemma collectMessages_map (h : Host) (sessionId : str) (lines : list str)
  (acc : list ClaudeMessage) :
  collectMessages h sessionId lines acc =
  acc ++ flat_map (messageOf h sessionId)
           (filter carriesMessage (entriesOf h lines)).
Proof.
  revert acc. induction lines as [|line lines IH]; intros acc;
    cbn [collectMessages entriesOf flat_map].
  - now rewrite app_nil_r.
  - fold (entriesOf h lines). destruct (JSON_parse h line) as [e|];
      cbn [app filter]; [|apply IH].
    unfold carriesMessage at 1, isMessage, hasMessage.
    destruct ((isUser e || isAssistant e) &&
              match e_message e with Some _ => true | None => false end);
      [|apply IH].
    cbn [flat_map]. unfold messageOf at 1.
    destruct (parseMessage h sessionId e) as [m|]; rewrite IH;
      [now rewrite <- app_assoc | reflexivity].
Qed.

Lemma parseBlocks_throws (bs : list (option ContentBlock)) (content : str)
  (toolUse : list (str * option str)) :
  match parseBlocks bs content toolUse with
  | Ok _ => existsb isNull bs = false
  | Throw => existsb isNull bs = true
  end.
Proof.
  revert content toolUse.
  induction bs as [|[b|] bs IH]; intros content toolUse;
    cbn [parseBlocks existsb isNull orb]; [reflexivity | | reflexivity].
  destruct (str_eqb (b_type b) (lit "text") && truthy (b_text b));
    [apply IH|].
  destruct (str_eqb (b_type b) (lit "tool_use") && truthy (b_name b));
    apply IH.
Qed.

(** [parseMessage] throws exactly on the entries with a [null] block, and
    stamps the messages it builds with the session id. *)
Lemma parseMessage_result (h : Host) (sessionId : str) (e : SessionEntry) :
  match parseMessage h sessionId e with
  | Ok message => nullBlock e = false /\ msg_sessionId message = sessionId
  | Throw => nullBlock e = true
  end.
Proof.
  unfold parseMessage, nullBlock.
  destruct (e_message e) as [m|]; cbn [bind]; [|split; reflexivity].
  destruct (m_content m) as [s|bs|]; cbn [bind]; try (split; reflexivity).
  pose proof (parseBlocks_throws bs [] []) as H.
  destruct (parseBlocks bs [] []) as [[content toolUse]|]; cbn [bind];
    [split; [exact H | reflexivity] | exact H].
Qed.

Lemma messageOf_length (h : Host) (sessionId : str) (es : list SessionEntry) :
  length (flat_map (messageOf h sessionId) es) =
  length (filter (fun e => negb (nullBlock e)) es).
Proof.
  induction es as [|e es IH]; [reflexivity|].
  cbn [flat_map filter]. rewrite length_app, IH. unfold messageOf.
  pose proof (parseMessage_result h sessionId e) as H.
  destruct (parseMessage h sessionId e) as [m|].
  - destruct H as [-> _]. reflexivity.
  - rewrite H. reflexivity.
Qed.

Lemma nullBlock_hasMessage (e : SessionEntry) :
  nullBlock e = true -> hasMessage e = true.
Proof.
  unfold nullBlock, hasMessage. destruct (e_message e); [reflexivity|].
  discriminate.
Qed.

Lemma messages_split_length (es : list SessionEntry) :
  length (filter isMessage es) =
  length (filter (fun e => negb (nullBlock e)) (filter carriesMessage es)) +
  length (filter (fun e => isMessage e && negb (hasMessage e)) es) +
  length (filter (fun e => isMessage e && nullBlock e) es).
Proof.
  induction es as [|e es IH]; [reflexivity|].
  cbn [filter]. unfold carriesMessage at 1.
  destruct (isMessage e); cbn [andb]; [|exact IH].
  destruct (nullBlock e) eqn:Enull.
  - rewrite (nullBlock_hasMessage e Enull). cbn [filter negb length].
    rewrite Enull. cbn [negb length]. lia.
  - destruct (hasMessage e); cbn [filter negb length];
      rewrite ?Enull; cbn [negb length]; lia.
Qed.

(** X13: the messages [getSessionMessages] returns for a session are the
    user and assistant entries of its file that have a [message] on which
    [parseMessage] does not throw, that is, whose content array holds no
    [null]; they come in file order, each stamped with the session id.  The
    [messageCount] of the session counts every user and assistant entry:
    it exceeds the number of messages by the number of such entries without
    a [message] plus the number of those with a [null] block, and is never
    smaller. *)
Theorem messages_versus_count (h : Host)
  (filePath sessionId projectPath : str) (stats : Stats) (text : str)
  (s : Session) (messages : list ClaudeMessage) :
  statSync h filePath = Ok stats ->
  readFileSync h filePath = Ok text ->
  parseSessionFile h filePath sessionId projectPath = Ok (Some s) ->
  findSessionFile h sessionId = Ok (Some filePath) ->
  getSessionMessages h sessionId = Ok messages ->
  let es := entriesOf h (contentLines text) in
  messages = flat_map (messageOf h sessionId) (filter carriesMessage es) /\
  (forall e, In e es -> carriesMessage e = true ->
     match parseMessage h sessionId e with
     | Ok message => nullBlock e = false /\ In message messages
     | Throw => nullBlock e = true
     end) /\
  (forall m, In m messages -> msg_sessionId m = sessionId) /\
  messageCount s =
    length messages +
    length (filter (fun e => isMessage e && negb (hasMessage e)) es) +
    length (filter (fun e => isMessage e && nullBlock e) es) /\
  length messages <= messageCount s.
Proof.
  intros Hstat Hread Hparse Hfile Hget es.
  unfold getSessionMessages in Hget. rewrite Hfile in Hget.
  cbn [bind] in Hget. rewrite Hread in Hget. cbn [bind] in Hget.
  injection Hget as <-. rewrite collectMessages_map. cbn [app]. fold es.
  pose proof (session_messageCount h filePath sessionId projectPath
                stats text s Hstat Hread Hparse) as Hcount.
  fold es in Hcount.
  pose proof (messages_split_length es) as Hsplit.
  rewrite <- (messageOf_length h sessionId) in Hsplit.
  split; [reflexivity|]. split; [|split; [|split]].
  - intros e He Hcarries.
    pose proof (parseMessage_result h sessionId e) as Hresult.
    destruct (parseMessage h sessionId e) as [m|] eqn:Em; [|exact Hresult].
    split; [apply Hresult|].
    apply in_flat_map. exists e. split; [now apply filter_In|].
    unfold messageOf. rewrite Em. now left.
  - intros m Hm. apply in_flat_map in Hm. destruct Hm as (e & _ & Hm).
    unfold messageOf in Hm.
    pose proof (parseMessage_result h sessionId e) as Hresult.
    destruct (parseMessage h sessionId e) as [m'|]; [|destruct Hm].
    destruct Hm as [<-|[]]. apply Hresult.
  - lia.
  - lia.
Qed.

(** A user entry without a [message] field. *)
Definition bareUserEntry : SessionEntry :=
  mkEntry (lit "user") None None None None false.

(** An assistant entry whose content array holds [null]. *)
Definition holedEntry : SessionEntry :=
  mkEntry (lit "assistant") None None None
    (Some (mkMessage (lit "assistant")
             (CBlocks [Some (mkBlock (lit "text") (Some (lit "partial")) None
                               None);
                       None]))) false.

Definition bareSession : TranscriptFile :=
  (lit "bare.jsonl",
   [(lit "{user: Fix the parser}", userEntry (lit "Fix the parser") None);
    (lit "{user}", bareUserEntry);
    (lit "{assistant: [partial, null]}", holedEntry);
    (lit "{assistant: Fixed it, see diff}",
     assistantEntry (lit "Fixed it, see diff") None)],
   1000%Z).

Lemma messages_versus_count_witness :
  exists s messages,
    parseSessionFile (corpusHost [bareSession])
      (path_join projectDir (lit "bare.jsonl")) (lit "bare")
      (lit "/home/u/proj") = Ok (Some s) /\
    getSessionMessages (corpusHost [bareSession]) (lit "bare") = Ok messages /\
    messageCount s = 4 /\ length messages = 2 /\
    length messages <= messageCount s.
Proof.
  eexists. eexists. split; [vm_compute; reflexivity|].
  split; [vm_compute; reflexivity|]. split; [reflexivity|].
  split; [reflexivity|].
  eapply (messages_versus_count (corpusHost [bareSession])
            (path_join projectDir (lit "bare.jsonl")) (lit "bare")
            (lit "/home/u/proj")).
  1: vm_compute; reflexivity. 1: vm_compute; reflexivity.
  1: vm_compute; reflexivity. 1: vm_compute; reflexivity.
  vm_compute; reflexivity.
Defined.





(** The context depends on the query through its lowercased form and its
    length only. *)
Lemma extractContext_query_case (q1 q2 : str) (m : ClaudeMessage) :
  toLowerCase q1 = toLowerCase q2 -> length q1 = length q2 ->
  extractContext q1 m = extractContext q2 m.
Proof.
  intros E Hlen. unfold extractContext. cbv zeta. now rewrite E, Hlen.
Qed.

Lemma searchMessages_query_case (q1 q2 : str) (maxResults : nat)
  (session : Session) (messages : list ClaudeMessage)
  (results : list SearchHit) :
  toLowerCase q1 = toLowerCase q2 -> length q1 = length q2 ->
  searchMessages q1 maxResults session messages results =
  searchMessages q2 maxResults session messages results.
Proof.
  intros E Hlen. revert results.
  induction messages as [|m messages IH]; intros results; [reflexivity|].
  cbn [searchMessages].
  rewrite E, (extractContext_query_case q1 q2 m E Hlen).
  destruct (includes _ _); [|apply IH].
  destruct (maxResults <=? _); [reflexivity | apply IH].
Qed.

(** X15: the search looks at the query through its lowercased form and
    its length only: two queries of the same length that agree after
    lowercasing give the same result, contexts included. *)
Theorem search_ignores_query_case (h : Host) (q1 q2 : str)
  (maxResults : nat) :
  toLowerCase q1 = toLowerCase q2 ->
  length q1 = length q2 ->
  searchTranscripts h q1 maxResults = searchTranscripts h q2 maxResults.
Proof.
  intros E Hlen. unfold searchTranscripts.
  destruct (getSessions h 200) as [sessions|]; [|reflexivity]. cbn [bind].
  generalize (@nil SearchHit) as results.
  induction sessions as [|s sessions IH]; intros results; [reflexivity|].
  cbn [searchSessions].
  destruct (getSessionMessages h (session_id s)) as [msgs|]; [|reflexivity].
  cbn [bind]. rewrite (searchMessages_query_case q1 q2 _ _ _ _ E Hlen).
  destruct (searchMessages q2 maxResults s msgs results);
    [apply IH | reflexivity].
Qed.

Lemma search_ignores_query_case_witness :
  searchTranscripts (corpusHost [longSession]) (lit "NeEdLe") 5 =
  searchTranscripts (corpusHost [longSession]) (lit "needle") 5.
Proof.
  apply (search_ignores_query_case (corpusHost [longSession])
           (lit "NeEdLe") (lit "needle") 5); reflexivity.
Defined.

(** A slice is no longer than its bounds are apart. *)
Lemma slice_length (s : str) (start stop : Z) :
  (0 <= start)%Z -> (0 <= stop)%Z ->
  (Z.of_nat (length (slice s start stop)) <= Z.max 0 (stop - start))%Z.
Proof.
  intros Hstart Hstop. unfold slice, slice_bound. cbv zeta.
  rewrite (proj2 (Z.ltb_ge start 0) Hstart), (proj2 (Z.ltb_ge stop 0) Hstop).
  rewrite length_firstn, length_skipn.
  set (len := Z.of_nat (length s)).
  pose proof (Nat.le_min_l
                (Z.to_nat (Z.min stop len - Z.min start len))
                (length s - Z.to_nat (Z.min start len))) as Hmin.
  lia.
Qed.

(** The context is cut from a window of [|query| + 100] characters at
    most, whatever the index found. *)
Lemma extractContext_length (query : str) (message : ClaudeMessage) :
  (-1 <= indexOf (toLowerCase (content message)) (toLowerCase query))%Z ->
  length (extractContext query message) <= length query + 106.
Proof.
  intros Hidx. unfold extractContext. cbv zeta.
  set (idx := indexOf _ _) in *.
  set (len := Z.of_nat (length (content message))).
  set (start := Z.max 0 (idx - 50)).
  set (stop := Z.min len (idx + Z.of_nat (length query) + 50)).
  assert (Hslice : (Z.of_nat (length (slice (content message) start stop)) <=
                    Z.max 0 (stop - start))%Z).
  { apply slice_length; unfold start, stop, len; lia. }
  assert (H3 : forall b : bool, length (if b then ellipsis else []) <= 3)
    by (intros []; cbn; lia).
  pose proof (H3 (0 <? start)%Z). pose proof (H3 (stop <? len)%Z).
  rewrite !length_app.
  assert (Hw : (Z.max 0 (stop - start) <= Z.of_nat (length query) + 100)%Z)
    by (unfold start, stop, len; lia).
  lia.
Qed.

Lemma indexOf_from_lower (k : Z) (s needle : str) :
  (-1 <= k)%Z -> (-1 <= indexOf_from k s needle)%Z.
Proof.
  revert k. induction s as [|c s IH]; intros k Hk; cbn [indexOf_from].
  - destruct (startsWith [] needle); lia.
  - destruct (startsWith (c :: s) needle); [lia|]. apply IH. lia.
Qed.

(** X16: the context of a hit is never longer than the query plus 100
    characters of surroundings plus the two markers of three characters. *)
Theorem matchContext_length_bound (h : Host) (query : str)
  (maxResults : nat) (hits : list SearchHit) (hit : SearchHit) :
  searchTranscripts h query maxResults = Ok hits ->
  In hit hits ->
  matchContext hit = extractContext query (hit_message hit) /\
  length (matchContext hit) <= length query + 106.
Proof.
  intros Hsearch Hin. unfold searchTranscripts in Hsearch.
  destruct (getSessions h 200) as [sessions|]; [|discriminate].
  cbn [bind] in Hsearch.
  pose proof (searchSessions_built h query maxResults sessions [] hits
                (Forall_nil _) Hsearch) as Hall.
  rewrite Forall_forall in Hall. destruct (Hall hit Hin) as [_ Hctx].
  split; [exact Hctx|]. rewrite Hctx. apply extractContext_length.
  apply indexOf_from_lower. lia.
Qed.

Lemma matchContext_length_bound_witness :
  exists hit,
    searchTranscripts (corpusHost [longSession]) (lit "NEEDLE") 5 = Ok [hit] /\
    length (matchContext hit) = 112 /\
    length (matchContext hit) <= 112.
Proof.
  eexists. split; [vm_compute; reflexivity|]. split; [reflexivity|].
  eapply (matchContext_length_bound (corpusHost [longSession])
            (lit "NEEDLE") 5); [vm_compute; reflexivity | now left].
Defined.

Lemma searchMessages_from (P : Session -> ClaudeMessage -> Prop)
  (query : str) (maxResults : nat) (session : Session)
  (messages : list ClaudeMessage) (results : list SearchHit) :
  Forall (fun hit => P (hit_session hit) (hit_message hit)) results ->
  (forall m, In m messages -> P session m) ->
  Forall (fun hit => P (hit_session hit) (hit_message hit))
    (exitValue (searchMessages query maxResults session messages results)).
Proof.
  revert results. induction messages as [|m messages IH];
    intros results Hres Hmsgs; cbn [searchMessages]; [exact Hres|].
  assert (Hrest : forall m', In m' messages -> P session m')
    by (intros m' Hm'; apply Hmsgs; now right).
  destruct (includes _ _); [|now apply IH].
  assert (Hres' : Forall (fun hit => P (hit_session hit) (hit_message hit))
                    (results ++ [mkHit session m (extractContext query m)])).
  { apply Forall_app. split; [exact Hres|].
    constructor; [|constructor]. apply Hmsgs. now left. }
  destruct (maxResults <=? _); [exact Hres' | now apply IH].
Qed.

Lemma searchSessions_from (h : Host) (P : Session -> ClaudeMessage -> Prop)
  (query : str) (maxResults : nat) (sessions : list Session)
  (results hits : list SearchHit) :
  Forall (fun hit => P (hit_session hit) (hit_message hit)) results ->
  (forall s msgs m, In s sessions ->
     getSessionMessages h (session_id s) = Ok msgs -> In m msgs -> P s m) ->
  searchSessions h query maxResults sessions results = Ok hits ->
  Forall (fun hit => P (hit_session hit) (hit_message hit)) hits.
Proof.
  revert results. induction sessions as [|s sessions IH];
    intros results Hres HP H; cbn [searchSessions] in H.
  - injection H as <-. exact Hres.
  - destruct (getSessionMessages h (session_id s)) as [msgs|] eqn:Emsgs;
      [|discriminate].
    cbn [bind] in H.
    pose proof (searchMessages_from P query maxResults s msgs results Hres)
      as Hstep.
    assert (Hs : forall m, In m msgs -> P s m)
      by (intros m Hm; apply (HP s msgs m); auto; now left).
    specialize (Hstep Hs).
    destruct (searchMessages query maxResults s msgs results) as [r|r];
      cbn [exitValue] in Hstep.
    + apply (IH r Hstep); [|exact H].
      intros s' msgs' m Hs' Hget Hm. apply (HP s' msgs' m); auto. now right.
    + injection H as <-. exact Hstep.
Qed.

Lemma getSessionMessages_ids (h : Host) (sessionId : str)
  (messages : list ClaudeMessage) (m : ClaudeMessage) :
  getSessionMessages h sessionId = Ok messages -> In m messages ->
  msg_sessionId m = sessionId.
Proof.
  unfold getSessionMessages.
  destruct (findSessionFile h sessionId) as [[f|]|]; cbn [bind];
    try discriminate.
  - destruct (readFileSync h f) as [text|]; [|discriminate]. cbn [bind].
    intros E. injection E as <-. rewrite collectMessages_map. cbn [app].
    intros Hm. apply in_flat_map in Hm. destruct Hm as (e & _ & Hm).
    unfold messageOf in Hm.
    pose proof (parseMessage_result h sessionId e) as Hresult.
    destruct (parseMessage h sessionId e) as [m'|]; [|destruct Hm].
    destruct Hm as [<-|[]]. apply Hresult.
  - intros E. injection E as <-. intros [].
Qed.

(** X17: every hit pairs a session that [getSessions(200)] returns with a
    message that [getSessionMessages] returns for that session's id, and
    the message carries that id. *)
Theorem hits_belong_to_sessions (h : Host) (query : str) (maxResults : nat)
  (hits : list SearchHit) (hit : SearchHit) :
  searchTranscripts h query maxResults = Ok hits ->
  In hit hits ->
  exists sessions messages,
    getSessions h 200 = Ok sessions /\
    In (hit_session hit) sessions /\
    getSessionMessages h (session_id (hit_session hit)) = Ok messages /\
    In (hit_message hit) messages /\
    msg_sessionId (hit_message hit) = session_id (hit_session hit).
Proof.
  intros Hsearch Hin. unfold searchTranscripts in Hsearch.
  destruct (getSessions h 200) as [sessions|]; [|discriminate].
  cbn [bind] in Hsearch.
  pose proof (searchSessions_from h
                (fun s m => In s sessions /\
                            exists msgs,
                              getSessionMessages h (session_id s) = Ok msgs /\
                              In m msgs)
                query maxResults sessions [] hits (Forall_nil _)) as Hall.
  cbv beta in Hall.
  assert (Hfrom : forall s msgs m, In s sessions ->
            getSessionMessages h (session_id s) = Ok msgs -> In m msgs ->
            In s sessions /\
            exists msgs0,
              getSessionMessages h (session_id s) = Ok msgs0 /\ In m msgs0)
    by (intros s msgs m Hs Hget Hm; split; [exact Hs | now exists msgs]).
  specialize (Hall Hfrom Hsearch). rewrite Forall_forall in Hall.
  destruct (Hall hit Hin) as (Hs & msgs & Hget & Hm).
  exists sessions, msgs. repeat split; auto.
  now apply (getSessionMessages_ids h _ msgs).
Qed.

Lemma hits_belong_to_sessions_witness :
  exists hit,
    searchTranscripts (corpusHost [longSession]) (lit "NEEDLE") 5 = Ok [hit] /\
    msg_sessionId (hit_message hit) = session_id (hit_session hit).
Proof.
  eexists. split; [vm_compute; reflexivity|].
  edestruct (hits_belong_to_sessions (corpusHost [longSession])
               (lit "NEEDLE") 5) as (_ & _ & _ & _ & _ & _ & Hid);
    [vm_compute; reflexivity | now left | exact Hid].
Defined.

(** X18: raising the cap only appends hits.  With readable transcripts and
    caps [1 <= k <= k'], the search with cap [k] returns the first [k] hits
    of the search with cap [k']. *)
Theorem search_smaller_cap (h : Host) (query : str) (k k' : nat)
  (sessions : list Session) (ts : list (Session * list ClaudeMessage)) :
  1 <= k -> k <= k' ->
  getSessions h 200 = Ok sessions ->
  transcripts h sessions = Ok ts ->
  exists hits,
    searchTranscripts h query k' = Ok hits /\
    searchTranscripts h query k = Ok (firstn k hits).
Proof.
  intros Hk Hkk Hsessions Hts. unfold searchTranscripts.
  rewrite Hsessions. cbn [bind].
  rewrite (searchSessions_all h query k' sessions ts) by (lia || assumption).
  rewrite (searchSessions_all h query k sessions ts) by assumption.
  eexists. split; [reflexivity|].
  rewrite firstn_firstn. now rewrite Nat.min_l by exact Hkk.
Qed.

Lemma search_smaller_cap_witness :
  exists hits,
    searchTranscripts (corpusHost threeSessions) (lit "fix") 5 = Ok hits /\
    length hits = 5 /\
    searchTranscripts (corpusHost threeSessions) (lit "fix") 2
    = Ok (firstn 2 hits).
Proof.
  edestruct (search_smaller_cap (corpusHost threeSessions) (lit "fix") 2 5)
    as (hits & H5 & H2);
    [lia | lia | vm_compute; reflexivity | vm_compute; reflexivity |].
  exists hits. split; [exact H5|]. split; [|exact H2].
  vm_compute in H5. injection H5 as <-. reflexivity.
Defined.

(* ===================================================================== *)
(** * 21. More about the task focus and the folders built from it *)
(* ===================================================================== *)

Definition fitsLabel (s : str) : bool :=
  (3 <=? length s) && (length s <=? 30).

Lemma knownProjects_fit :
  forallb (fun kp => fitsLabel (snd kp)) knownProjects = true.
Proof. reflexivity. Qed.

(** X19: whatever the summary, the task focus is a label of 3 to 30
    characters. *)
Theorem extractTaskFocus_label_length (summary : option str) :
  3 <= length (extractTaskFocus summary) <= 30.
Proof.
  assert (Hfit : forall s, fitsLabel s = true -> 3 <= length s <= 30).
  { intros s H. unfold fitsLabel in H. apply andb_true_iff in H.
    destruct H as [H1 H2]. apply Nat.leb_le in H1. apply Nat.leb_le in H2.
    lia. }
  unfold extractTaskFocus.
  destruct (negb (truthy summary)); [now apply Hfit|].
  destruct (existsb _ selfImprovementKeywords); [now apply Hfit|].
  destruct (existsb _ globalKeywords); [now apply Hfit|].
  destruct (find _ knownProjects) as [[keyword project]|] eqn:E.
  - apply find_some in E. destruct E as [Hin _].
    apply Hfit.
    exact (proj1 (forallb_forall _ _) knownProjects_fit _ Hin).
  - destruct (colonMatch _) as [captured|]; [|now apply Hfit].
    destruct ((length (trim captured) <=? 30) && (3 <=? length (trim captured)))
      eqn:Elen; [|now apply Hfit].
    apply andb_true_iff in Elen. destruct Elen as [H1 H2].
    apply Nat.leb_le in H1. apply Nat.leb_le in H2. lia.
Qed.

(** X20: [normalizeFolderName] turns [Global] and [Self-improvement], in
    any letter case, into [Meta] and returns every other name unchanged;
    so no folder is called [global] or [self-improvement] afterwards, and
    normalising twice changes nothing. *)
Theorem normalizeFolderName_merges_meta (taskFocus : str) :
  let folder := normalizeFolderName taskFocus in
  let merged := toLowerCase taskFocus = lit "global" \/
                toLowerCase taskFocus = lit "self-improvement" in
  (merged -> folder = lit "Meta") /\
  (~ merged -> folder = taskFocus) /\
  toLowerCase folder <> lit "global" /\
  toLowerCase folder <> lit "self-improvement" /\
  normalizeFolderName folder = folder.
Proof.
  unfold normalizeFolderName. cbv zeta.
  destruct (str_eqb (toLowerCase taskFocus) (lit "global")) eqn:Eg.
  { cbn [orb]. apply str_eqb_eq in Eg.
    split; [reflexivity|]. split; [intros H; elim H; now left|].
    split; [discriminate|]. split; [discriminate | reflexivity]. }
  destruct (str_eqb (toLowerCase taskFocus) (lit "self-improvement")) eqn:Es.
  { cbn [orb]. apply str_eqb_eq in Es.
    split; [reflexivity|]. split; [intros H; elim H; now right|].
    split; [discriminate|]. split; [discriminate | reflexivity]. }
  cbn [orb]. rewrite Eg, Es. cbn [orb].
  apply str_eqb_neq in Eg. apply str_eqb_neq in Es.
  split; [intros [H|H]; contradiction|]. split; [reflexivity|].
  split; [exact Eg|]. split; [exact Es | reflexivity].
Qed.

Lemma normalizeFolderName_merges_meta_witness :
  normalizeFolderName (lit "GLOBAL") = lit "Meta" /\
  normalizeFolderName (lit "Research") = lit "Research".
Proof.
  split.
  - apply (proj1 (normalizeFolderName_merges_meta (lit "GLOBAL"))).
    left. reflexivity.
  - apply (proj1 (proj2 (normalizeFolderName_merges_meta (lit "Research")))).
    intros [H|H]; discriminate H.
Defined.

Lemma orb_rotate (a b c : bool) : a || b || c = b || c || a.
Proof. destruct a, b, c; reflexivity. Qed.

(** X21: a session that is neither archived, active nor a fork gets the
    colour of its folder, and the folder's icon too, except that where
    the folder falls back to the plain [folder] icon the session shows
    [comment-discussion]. *)
Theorem session_icon_follows_folder (taskFocus : str) :
  getIconForTaskFocus taskFocus false false false =
  if str_eqb (icon (getFolderIconForTaskFocus taskFocus)) (lit "folder")
  then mkIcon (lit "comment-discussion") None
  else getFolderIconForTaskFocus taskFocus.
Proof.
  unfold getIconForTaskFocus, getFolderIconForTaskFocus. cbv zeta.
  rewrite (orb_rotate (str_eqb (toLowerCase taskFocus) (lit "meta"))).
  repeat match goal with
         | |- context [if ?c || ?d then _ else _] =>
             destruct (c || d); [reflexivity|]
         end.
  destruct (str_eqb (toLowerCase taskFocus) (lit "minty")); reflexivity.
Qed.

(* ===================================================================== *)
(** * 22. MetadataManager: what is stored can be read back *)
(* ===================================================================== *)

Lemma str_eqb_sym (a b : str) : str_eqb a b = str_eqb b a.
Proof.
  destruct (str_eqb a b) eqn:E.
  - apply str_eqb_eq in E. subst. symmetry. apply str_eqb_refl.
  - symmetry. apply str_eqb_neq. apply str_eqb_neq in E. congruence.
Qed.

Lemma lookup_assign_same {A : Type} (key : str) (value : A) (obj : dict A) :
  lookup key (assign key value obj) = Some value.
Proof.
  induction obj as [|[k v] obj IH]; cbn [assign lookup].
  - now rewrite str_eqb_refl.
  - destruct (str_eqb key k) eqn:E; cbn [lookup]; rewrite E; auto.
Qed.

Lemma lookup_assign_other {A : Type} (key other : str) (value : A)
  (obj : dict A) :
  other <> key -> lookup other (assign key value obj) = lookup other obj.
Proof.
  intros Hne. apply str_eqb_neq in Hne.
  induction obj as [|[k v] obj IH]; cbn [assign lookup].
  - now rewrite Hne.
  - destruct (str_eqb key k) eqn:E; cbn [lookup].
    + apply str_eqb_eq in E. subst k. now rewrite Hne.
    + destruct (str_eqb other k); auto.
Qed.

Lemma lookup_remove_same {A : Type} (key : str) (obj : dict A) :
  lookup key (remove key obj) = None.
Proof.
  induction obj as [|[k v] obj IH]; cbn [remove lookup]; [reflexivity|].
  destruct (str_eqb key k) eqn:E; cbn [lookup]; [exact IH|].
  now rewrite E.
Qed.

Lemma lookup_remove_other {A : Type} (key other : str) (obj : dict A) :
  other <> key -> lookup other (remove key obj) = lookup other obj.
Proof.
  intros Hne. apply str_eqb_neq in Hne.
  induction obj as [|[k v] obj IH]; cbn [remove lookup]; [reflexivity|].
  destruct (str_eqb key k) eqn:E; cbn [lookup].
  - apply str_eqb_eq in E. subst k. now rewrite Hne.
  - destruct (str_eqb other k); auto.
Qed.

Lemma orNull_some (s : str) : s <> [] -> orNull (Some s) = Some s.
Proof. destruct s; [contradiction | reflexivity]. Qed.

Lemma truthy_some (s : str) : s <> [] -> truthy (Some s) = true.
Proof. destruct s; [contradiction | reflexivity]. Qed.

(** X22: for a session id that is no inherited property name, a custom
    name that is not empty is what [getSessionName] returns afterwards, and
    it hides any auto-generated name, also one set later; an empty custom
    name is not seen at all, the auto-generated name (or [null]) shows
    through; the names of other sessions are untouched. *)
Theorem custom_name_roundtrip (state : GlobalState) (sessionId name : str) :
  plainKey sessionId = true ->
  (name <> [] ->
   getSessionName (setCustomName state sessionId name) sessionId = Some name /\
   forall auto,
     getSessionName
       (setAutoName (setCustomName state sessionId name) sessionId auto)
       sessionId = Some name) /\
  getSessionName (setCustomName state sessionId []) sessionId =
    orNull (lookup sessionId (autoNames (getMetadata state))) /\
  (forall other, plainKey other = true -> other <> sessionId ->
     getSessionName (setCustomName state sessionId name) other =
     getSessionName state other).
Proof.
  intros _. split; [|split].
  - intros Hname. split.
    + unfold getSessionName, setCustomName. cbn [getMetadata customNames].
      now rewrite lookup_assign_same, truthy_some.
    + intros auto. unfold getSessionName, setAutoName, setCustomName.
      cbn [getMetadata customNames autoNames].
      now rewrite lookup_assign_same, truthy_some.
  - unfold getSessionName, setCustomName.
    cbn [getMetadata customNames autoNames].
    now rewrite lookup_assign_same.
  - intros other _ Hother. unfold getSessionName, setCustomName.
    cbn [getMetadata customNames autoNames].
    now rewrite lookup_assign_other.
Qed.

Lemma custom_name_roundtrip_witness :
  getSessionName
    (setCustomName (setAutoName None (lit "s1") (lit "Parser fix"))
       (lit "s1") (lit "My session")) (lit "s1")
  = Some (lit "My session").
Proof.
  apply (custom_name_roundtrip (setAutoName None (lit "s1") (lit "Parser fix"))
           (lit "s1") (lit "My session")).
  - vm_compute; reflexivity.
  - discriminate.
Defined.

Lemma in_entries {A : Type} (obj : dict A) (entry : str * A) :
  In entry (entries obj) <-> In entry obj.
Proof.
  unfold entries. rewrite in_app_iff. split.
  - intros [H|H].
    + apply (Permutation_in _ (sort_perm _ _)) in H.
      now apply filter_In in H.
    + now apply filter_In in H.
  - intros H. destruct (isArrayIndex (fst entry)) eqn:E.
    + left. apply (Permutation_in _ (Permutation_sym (sort_perm _ _))).
      now apply filter_In.
    + right. apply filter_In. now rewrite E.
Qed.

Lemma lookup_in {A : Type} (key : str) (value : A) (obj : dict A) :
  lookup key obj = Some value -> In (key, value) obj.
Proof.
  induction obj as [|[k v] obj IH]; cbn [lookup]; [discriminate|].
  destruct (str_eqb key k) eqn:E.
  - apply str_eqb_eq in E. subst k. intros H. injection H as ->. now left.
  - intros H. right. now apply IH.
Qed.

Lemma in_remove {A : Type} (key : str) (entry : str * A) (obj : dict A) :
  fst entry <> key -> In entry obj -> In entry (remove key obj).
Proof.
  intros Hne. induction obj as [|[k v] obj IH]; cbn [remove]; [tauto|].
  destruct (str_eqb key k) eqn:Ek.
  - apply str_eqb_eq in Ek. subst k.
    intros [<-|H]; [now elim Hne | now apply IH].
  - intros [<-|H]; [now left | right; now apply IH].
Qed.

Lemma children_survive (key child parent : str) (relations : dict str) :
  child <> key ->
  In child (map fst (filter (fun entry => str_eqb (snd entry) parent)
                       (entries relations))) ->
  In child (map fst (filter (fun entry => str_eqb (snd entry) parent)
                       (entries (remove key relations)))).
Proof.
  intros Hne Hin. apply in_map_iff in Hin.
  destruct Hin as ([c v] & Hc & Hin). cbn [fst] in Hc. subst c.
  apply filter_In in Hin. destruct Hin as [Hin Hparent].
  apply in_map_iff. exists (child, v). split; [reflexivity|].
  apply filter_In. split; [|exact Hparent].
  apply in_entries, in_remove; [exact Hne | now apply in_entries].
Qed.

(** X23: [removeSession] forgets a session's names, summary, parent and
    archive flag, but neither its custom folder nor the fork records of its
    children, which go on naming it as their parent.  On metadata stored
    without an [archived] map it throws instead. *)
Theorem removeSession_forgets (state : GlobalState) (sessionId : str) :
  plainKey sessionId = true ->
  (archived (getMetadata state) = None ->
   removeSession state sessionId = Throw) /\
  (archived (getMetadata state) <> None ->
   exists state',
     removeSession state sessionId = Ok state' /\
     getSessionName state' sessionId = None /\
     getSummary state' sessionId = None /\
     getParentSession state' sessionId = None /\
     isArchived state' sessionId = false /\
     getCustomFolder state' sessionId = getCustomFolder state sessionId /\
     forall child, child <> sessionId ->
       In child (getChildSessions state sessionId) ->
       In child (getChildSessions state' sessionId)).
Proof.
  intros _. unfold removeSession. cbv zeta. split.
  - intros ->. reflexivity.
  - intros Harchived.
    destruct (archived (getMetadata state)) as [flags|]; [|contradiction].
    eexists. split; [reflexivity|].
    unfold getSessionName, getSummary, getParentSession, isArchived,
      getCustomFolder, getChildSessions.
    cbn [getMetadata customNames autoNames summaries forkRelations archived
         customFolders].
    rewrite !lookup_remove_same. cbn [truthy orNull].
    repeat split; auto.
    intros child Hne Hin. now apply children_survive.
Qed.

Lemma removeSession_forgets_witness :
  exists state',
    removeSession
      (setCustomFolder (setCustomName None (lit "s1") (lit "My session"))
         (lit "s1") (lit "Research")) (lit "s1") = Ok state' /\
    getSessionName state' (lit "s1") = None /\
    getCustomFolder state' (lit "s1") = Some (lit "Research").
Proof.
  edestruct (proj2 (removeSession_forgets
               (setCustomFolder
                  (setCustomName None (lit "s1") (lit "My session"))
                  (lit "s1") (lit "Research")) (lit "s1")
               ltac:(vm_compute; reflexivity)))
    as (state' & Hremove & Hname & _ & _ & _ & Hfolder & _);
    [discriminate|].
  exists state'. split; [exact Hremove|]. split; [exact Hname|].
  rewrite Hfolder. reflexivity.
Defined.

Lemma in_truthy_keys (key : str) (flags : dict bool) :
  lookup key flags = Some true ->
  In key (filter (fun id => match lookup id flags with
                            | Some flag => flag
                            | None => false
                            end) (map fst (entries flags))).
Proof.
  intros H. apply filter_In. split; [|now rewrite H].
  apply in_map_iff. exists (key, true). split; [reflexivity|].
  now apply in_entries, lookup_in.
Qed.

(** X24: an archived session is reported archived and listed by
    [getArchivedSessions]; unarchiving a session, archived or not, leaves
    it not archived; neither operation changes the flag of another
    session. *)
Theorem archive_roundtrip (state : GlobalState) (sessionId : str) :
  plainKey sessionId = true ->
  isArchived (archiveSession state sessionId) sessionId = true /\
  In sessionId (getArchivedSessions (archiveSession state sessionId)) /\
  isArchived (unarchiveSession state sessionId) sessionId = false /\
  (forall other, plainKey other = true -> other <> sessionId ->
     isArchived (archiveSession state sessionId) other =
       isArchived state other /\
     isArchived (unarchiveSession state sessionId) other =
       isArchived state other).
Proof.
  intros _.
  unfold isArchived, getArchivedSessions, archiveSession, unarchiveSession.
  cbv zeta. cbn [getMetadata archived].
  split; [now rewrite lookup_assign_same|].
  split; [apply in_truthy_keys, lookup_assign_same|].
  split.
  - destruct (archived (getMetadata state)) as [flags|] eqn:E.
    + cbn [getMetadata archived]. now rewrite lookup_remove_same.
    + now rewrite E.
  - intros other _ Hother. split.
    + rewrite lookup_assign_other by exact Hother.
      destruct (archived (getMetadata state)); reflexivity.
    + destruct (archived (getMetadata state)) as [flags|] eqn:E.
      * cbn [getMetadata archived]. now rewrite lookup_remove_other.
      * now rewrite E.
Qed.

Lemma in_children (child parent : str) (relations : dict str) :
  lookup child relations = Some parent ->
  In child (map fst (filter (fun entry => str_eqb (snd entry) parent)
                       (entries relations))).
Proof.
  intros H. apply in_map_iff. exists (child, parent).
  split; [reflexivity|]. apply filter_In.
  split; [now apply in_entries, lookup_in | apply str_eqb_refl].
Qed.

Lemma archive_roundtrip_witness :
  isArchived (archiveSession None (lit "s1")) (lit "s1") = true /\
  isArchived (unarchiveSession (archiveSession None (lit "s1")) (lit "s1"))
    (lit "s1") = false.
Proof.
  split.
  - apply (archive_roundtrip None (lit "s1")). vm_compute; reflexivity.
  - apply (archive_roundtrip (archiveSession None (lit "s1")) (lit "s1")).
    vm_compute; reflexivity.
Defined.

(** X25: once a fork is recorded for a child id that is no inherited
    property name, the child's parent is the recorded session, the child is
    among that session's children, and the session counts as forked; the
    parents of other sessions are untouched. *)
Theorem recordFork_roundtrip (state : GlobalState) (child parent : str) :
  plainKey child = true ->
  parent <> [] ->
  let state' := recordFork state child parent in
  getParentSession state' child = Some parent /\
  In child (getChildSessions state' parent) /\
  hasBeenForked state' parent = true /\
  (forall other, plainKey other = true -> other <> child ->
     getParentSession state' other = getParentSession state other).
Proof.
  intros _ Hparent state'. subst state'.
  unfold getParentSession, getChildSessions, hasBeenForked, recordFork.
  cbv zeta. cbn [getMetadata forkRelations].
  assert (Hin : In child
            (map fst (filter (fun entry => str_eqb (snd entry) parent)
                        (entries (assign child parent
                                    (forkRelations (getMetadata state)))))))
    by apply in_children, lookup_assign_same.
  split; [now rewrite lookup_assign_same, orNull_some|].
  split; [exact Hin|]. split.
  - unfold getChildSessions. cbn [getMetadata forkRelations].
    destruct (map fst _) as [|c cs]; [destruct Hin | reflexivity].
  - intros other _ Hother. now rewrite lookup_assign_other.
Qed.

Lemma recordFork_roundtrip_witness :
  getParentSession (recordFork None (lit "child") (lit "parent")) (lit "child")
  = Some (lit "parent").
Proof.
  apply (recordFork_roundtrip None (lit "child") (lit "parent")).
  - vm_compute; reflexivity.
  - discriminate.
Defined.

(** X26: for a session id that is no inherited property name, a custom
    folder that is not empty is what [getCustomFolder] returns afterwards;
    after [removeCustomFolder] none is returned; the folders of other
    sessions are untouched by either. *)
Theorem custom_folder_roundtrip (state : GlobalState)
  (sessionId folderName : str) :
  plainKey sessionId = true ->
  folderName <> [] ->
  getCustomFolder (setCustomFolder state sessionId folderName) sessionId
    = Some folderName /\
  getCustomFolder
    (removeCustomFolder (setCustomFolder state sessionId folderName) sessionId)
    sessionId = None /\
  getCustomFolder (removeCustomFolder state sessionId) sessionId = None /\
  (forall other, plainKey other = true -> other <> sessionId ->
     getCustomFolder (setCustomFolder state sessionId folderName) other =
       getCustomFolder state other /\
     getCustomFolder (removeCustomFolder state sessionId) other =
       getCustomFolder state other).
Proof.
  intros _ Hname.
  unfold getCustomFolder, setCustomFolder, removeCustomFolder. cbv zeta.
  cbn [getMetadata customFolders].
  split; [now rewrite lookup_assign_same, orNull_some|].
  split; [now rewrite lookup_remove_same|].
  split.
  - destruct (customFolders (getMetadata state)) as [folders|] eqn:E.
    + cbn [getMetadata customFolders]. now rewrite lookup_remove_same.
    + now rewrite E.
  - intros other _ Hother. split.
    + rewrite lookup_assign_other by exact Hother.
      destruct (customFolders (getMetadata state)); reflexivity.
    + destruct (customFolders (getMetadata state)) as [folders|] eqn:E.
      * cbn [getMetadata customFolders]. now rewrite lookup_remove_other.
      * now rewrite E.
Qed.

Lemma custom_folder_roundtrip_witness :
  getCustomFolder (setCustomFolder None (lit "s1") (lit "Research")) (lit "s1")
  = Some (lit "Research").
Proof.
  apply (custom_folder_roundtrip None (lit "s1") (lit "Research")).
  - vm_compute; reflexivity.
  - discriminate.
Defined.
